(** * FBPIC [main.py]: the PIC-cycle orchestrator, embedded in Rocq

    This development embeds the driver of the Fourier-Bessel
    Particle-In-Cell code (file [fbpic/main.py]): the constructor of
    [Simulation], the methods [step], [deposit] and
    [shift_galilean_boundaries], and the helper [adapt_to_grid].

    Conventions of the embedding.

    - Python [float] values are idealised as exact rationals ([Q]);
      Python [int] values are [Z].  A division whose divisor is zero
      raises [ZeroDivisionError], as it does for Python scalars.
    - Where a float is turned into an integer by [int()], a rounding in
      the last digit can change the integer.  The derivation of the
      exchange period (lines 220-242 of [main.py]) is therefore also
      embedded in IEEE 754 binary64 arithmetic, in module [Binary64],
      on the reference operations of [SpecFloat] (round to nearest,
      ties to even); the statements about the derived value are made
      there.
    - A method of [Simulation] is a computation in the monad [M]: it
      reads and updates the [Simulation.t] record, may raise a Python
      exception, and emits the ordered list of the calls it makes to
      the collaborating classes ([Fields], [Particles],
      [BoundaryCommunicator], the diagnostics, the laser antennas).
      The numerical kernels behind those calls are not part of
      [main.py]; a call is therefore recorded, and only the effect the
      orchestrator itself relies on is kept (see [Collaborators]).
    - 1-D numpy arrays are lists. *)

From Stdlib Require Import Ascii DecimalString String ZArith QArith Qround Qminmax
  List Bool Lia Lqa SpecFloat.
Import ListNotations.

Open Scope Z_scope.
Open Scope Q_scope.

(** ** Python exceptions and results *)

Inductive exn : Type :=
| ValueError (msg : string)
| TypeError
| ZeroDivisionError
| IndexError
| OverflowError.

Definition result (A : Type) : Type := (exn + A)%type.

Definition ok {A} (a : A) : result A := inr a.
Definition raise_ {A} (e : exn) : result A := inl e.

Definition rbind {A B} (r : result A) (f : A -> result B) : result B :=
  match r with
  | inl e => inl e
  | inr a => f a
  end.

Declare Scope res_scope.
Delimit Scope res_scope with res.
Notation "x <-- r ;;; k" := (rbind r (fun x => k))
  (at level 61, r at next level, right associativity) : res_scope.

(** ** Python numerics *)

(** [scipy.constants.c], the speed of light (exact in SI units). *)
Definition c : Q := 299792458.

(** [a / b] on Python floats. *)
Definition py_div (a b : Q) : result Q :=
  if Qeq_bool b 0 then raise_ ZeroDivisionError else ok (a / b).

(** [int(q)]: truncation towards zero. *)
Definition py_int (q : Q) : Z := Z.quot (Qnum q) (Zpos (Qden q)).

(** [a % b] on Python ints: the result has the sign of the divisor. *)
Definition py_mod (a b : Z) : result Z :=
  if Z.eqb b 0 then raise_ ZeroDivisionError else ok (Z.modulo a b).

Definition Qltb (a b : Q) : bool := negb (Qle_bool b a).

(** ** numpy 1-D arrays *)

(** [x.min()] and [x.max()]; numpy raises [ValueError] on an empty array. *)
Definition np_min (x : list Q) : result Q :=
  match x with
  | [] => raise_ (ValueError "zero-size array to reduction operation minimum which has no identity")
  | a :: t => ok (fold_left (fun m y => if Qltb y m then y else m) t a)
  end.

Definition np_max (x : list Q) : result Q :=
  match x with
  | [] => raise_ (ValueError "zero-size array to reduction operation maximum which has no identity")
  | a :: t => ok (fold_left (fun m y => if Qltb m y then y else m) t a)
  end.

(** [x[i]] for a non-negative index. *)
Definition np_get (x : list Q) (i : nat) : result Q :=
  match nth_error x i with
  | Some v => ok v
  | None => raise_ IndexError
  end.

(** ** [adapt_to_grid] *)

Definition adapt_to_grid (x : list Q) (p_xmin p_xmax : Q) (p_nx : Z)
    (ncells_empty : Z) : result (Q * Q * Z) :=
  (xmin <-- np_min x ;;;
   xmax <-- np_max x ;;;
   x1 <-- np_get x 1 ;;;
   x0 <-- np_get x 0 ;;;
   let dx := x1 - x0 in
   let p_xmin := if Qltb p_xmin (xmin - (1#2) * dx)
                 then xmin - (1#2) * dx else p_xmin in
   let p_xmax := if Qltb (xmax + ((1#2) - inject_Z ncells_empty) * dx) p_xmax
                 then xmax + ((1#2) - inject_Z ncells_empty) * dx else p_xmax in
   let x_load := filter (fun xi => Qltb p_xmin xi && Qltb xi p_xmax) x in
   let Npx := (Z.of_nat (length x_load) * p_nx)%Z in
   if (0 <? Npx)%Z then
     lo <-- np_min x_load ;;;
     hi <-- np_max x_load ;;;
     ok (lo - (1#2) * dx, hi + (1#2) * dx, Npx)
   else
     ok (p_xmin, p_xmax, Npx))%res.

(** ** The objects the orchestrator holds *)

(** One azimuthal mode of [fld.interp].  [main.py] touches [zmin], [zmax],
    [z] and [r] and reads the shape of [Ez]; [values] stands for the
    remaining field arrays of the grid (Er, Et, Br, Bt, Bz, rho, Jr, Jt,
    Jz), which [main.py] never accesses directly. *)
Module InterpolationGrid.
Record t : Type := mk {
  zmin : Q;
  zmax : Q;
  z : list Q;
  r : list Q;
  Ez : list (list Q);
  values : list (list (list Q))
}.

Definition set_zmin (v : Q) (g : t) : t :=
  mk v (zmax g) (z g) (r g) (Ez g) (values g).
Definition set_zmax (v : Q) (g : t) : t :=
  mk (zmin g) v (z g) (r g) (Ez g) (values g).
Definition set_z (v : list Q) (g : t) : t :=
  mk (zmin g) (zmax g) v (r g) (Ez g) (values g).

(** [Ez.shape] of a 2-D array. *)
Definition Ez_shape (g : t) : nat * nat :=
  (length (Ez g), match Ez g with [] => 0%nat | row :: _ => length row end).
End InterpolationGrid.

Module Fields.
Record t : Type := mk {
  Nm : Z;
  interp : list InterpolationGrid.t
}.
End Fields.

Module MovingWindow.
Record t : Type := mk {
  nz_inject : Z
}.
End MovingWindow.

Module BoundaryCommunicator.
Record t : Type := mk {
  rank : Z;
  size : Z;
  n_guard : Z;
  moving_win : option MovingWindow.t
}.

Definition set_moving_win (w : option MovingWindow.t) (cm : t) : t :=
  mk (rank cm) (size cm) (n_guard cm) w.
End BoundaryCommunicator.

(** A species: the arguments [main.py] passes to the [Particles]
    constructor, and the [sorted] flag that [step] resets. *)
Module Particles.
Record t : Type := mk {
  q : Q;
  m : Q;
  n : Q;
  Npz : Z;
  zmin : Q;
  zmax : Q;
  Npr : Z;
  rmin : Q;
  rmax : Q;
  Nptheta : Z;
  dt : Q;
  dens_func : option (list Q -> list Q -> list Q);
  use_cuda : bool;
  uz_m : Q;
  grid_shape : nat * nat;
  particle_shape : string;
  sorted : bool
}.

Definition set_sorted (b : bool) (s : t) : t :=
  mk (q s) (m s) (n s) (Npz s) (zmin s) (zmax s) (Npr s) (rmin s) (rmax s)
     (Nptheta s) (dt s) (dens_func s) (use_cuda s) (uz_m s) (grid_shape s)
     (particle_shape s) b.
End Particles.

(** The attributes of a [Simulation] object.  Diagnostics, external
    fields and laser antennas are opaque objects, known by a name. *)
Module Simulation.
Record t : Type := mk {
  use_cuda : bool;
  v_comoving : option Q;
  use_galilean : bool;
  comm : BoundaryCommunicator.t;
  exchange_period : Z;
  fld : Fields.t;
  ptcl : list Particles.t;
  dt : Q;
  p_nz : Z;
  time : Q;
  iteration : Z;
  filter_currents : bool;
  external_fields : list nat;
  diags : list nat;
  laser_antennas : list nat
}.

Definition set_comm (v : BoundaryCommunicator.t) (s : t) : t :=
  mk (use_cuda s) (v_comoving s) (use_galilean s) v (exchange_period s)
     (fld s) (ptcl s) (dt s) (p_nz s) (time s) (iteration s)
     (filter_currents s) (external_fields s) (diags s) (laser_antennas s).
Definition set_fld (v : Fields.t) (s : t) : t :=
  mk (use_cuda s) (v_comoving s) (use_galilean s) (comm s) (exchange_period s)
     v (ptcl s) (dt s) (p_nz s) (time s) (iteration s)
     (filter_currents s) (external_fields s) (diags s) (laser_antennas s).
Definition set_ptcl (v : list Particles.t) (s : t) : t :=
  mk (use_cuda s) (v_comoving s) (use_galilean s) (comm s) (exchange_period s)
     (fld s) v (dt s) (p_nz s) (time s) (iteration s)
     (filter_currents s) (external_fields s) (diags s) (laser_antennas s).
Definition set_time (v : Q) (s : t) : t :=
  mk (use_cuda s) (v_comoving s) (use_galilean s) (comm s) (exchange_period s)
     (fld s) (ptcl s) (dt s) (p_nz s) v (iteration s)
     (filter_currents s) (external_fields s) (diags s) (laser_antennas s).
Definition set_iteration (v : Z) (s : t) : t :=
  mk (use_cuda s) (v_comoving s) (use_galilean s) (comm s) (exchange_period s)
     (fld s) (ptcl s) (dt s) (p_nz s) (time s) v
     (filter_currents s) (external_fields s) (diags s) (laser_antennas s).
End Simulation.

(** ** Calls made to the collaborators

    A species is named by its position in [ptcl]; a diagnostic, external
    field or antenna by its name.  [self_shift_galilean_boundaries] marks
    the entry into that method of [Simulation] itself. *)
Inductive call : Type :=
| send_data_to_gpu
| receive_data_from_gpu
| progression_bar (i_step N : Z)
| print_time_taken
| diag_write (diag : nat) (iteration : Z)
| comm_move_grids (dt time : Q)
| comm_exchange_fields (fieldtype : string)
| comm_exchange_particles (species : nat) (time : Q)
| comm_damp_guard_EB
| species_gather (species : nat)
| species_handle_ionization (species : nat)
| species_push_p (species : nat)
| species_halfpush_x (species : nat)
| species_deposit (species : nat) (fieldtype : string)
| ext_field_apply_expression (ext_field : nat) (time : Q)
| antenna_update_v (antenna : nat) (t : Q)
| antenna_halfpush_x (antenna : nat) (dt : Q)
| antenna_deposit (antenna : nat) (fieldtype : string)
| fld_erase (fieldtype : string)
| fld_divide_by_volume (fieldtype : string)
| fld_interp2spect (fieldtype : string)
| fld_filter_spect (fieldtype : string)
| fld_spect2interp (fieldtype : string)
| fld_correct_currents
| fld_push (use_true_rho : bool)
| fld_correct_divE
| self_shift_galilean_boundaries.

(** ** The monad of the methods: state, exceptions, emitted calls *)

Definition M (A : Type) : Type :=
  Simulation.t -> result A * Simulation.t * list call.

Definition ret {A} (a : A) : M A := fun s => (ok a, s, []).

Definition bind {A B} (m : M A) (f : A -> M B) : M B :=
  fun s =>
    match m s with
    | (inl e, s1, l1) => (inl e, s1, l1)
    | (inr a, s1, l1) =>
        match f a s1 with
        | (rb, s2, l2) => (rb, s2, l1 ++ l2)
        end
    end.

Definition raise {A} (e : exn) : M A := fun s => (inl e, s, []).
Definition gets {A} (f : Simulation.t -> A) : M A := fun s => (ok (f s), s, []).
Definition modify (f : Simulation.t -> Simulation.t) : M unit :=
  fun s => (ok tt, f s, []).
Definition emit (cl : call) : M unit := fun s => (ok tt, s, [cl]).
Definition lift {A} (r : result A) : M A := fun s => (r, s, []).

Declare Scope monad_scope.
Delimit Scope monad_scope with monad.
Notation "x <- m ;; k" := (bind m (fun x => k))
  (at level 61, m at next level, right associativity) : monad_scope.
Notation "m ;; k" := (bind m (fun _ => k))
  (at level 61, right associativity) : monad_scope.
Open Scope monad_scope.

Definition when (b : bool) (m : M unit) : M unit :=
  if b then m else ret tt.

(** [for a in l: body(a)]; an exception leaves the loop. *)
Fixpoint for_each {A} (l : list A) (body : A -> M unit) : M unit :=
  match l with
  | [] => ret tt
  | a :: t => body a ;; for_each t body
  end.

(** [range(N)]. *)
Definition py_range (N : Z) : list Z := map Z.of_nat (seq 0 (Z.to_nat N)).

(** The positions of a list, for a loop over the objects it holds. *)
Definition indices {A} (l : list A) : list nat := seq 0 (length l).

(** [l[i] = f(l[i])], in place. *)
Fixpoint list_update {A} (l : list A) (i : nat) (f : A -> A) : option (list A) :=
  match l, i with
  | [], _ => None
  | a :: t, O => Some (f a :: t)
  | a :: t, S j =>
      match list_update t j f with
      | Some t' => Some (a :: t')
      | None => None
      end
  end.

(** ** What [main.py] takes from the modules it imports

    None of these is defined in [main.py].  The constants and the
    constructors are used by [__init__] only.  Of the calls made by
    [step], [comm.move_grids] is the one whose effect the orchestrator
    reads back: it moves the boundary markers of the grids and increments
    the [nz_inject] counter of the window ("This number is incremented
    when `move_grids` is called"). *)
Record Collaborators : Type := {
  cuda_installed : bool;
  e : Q;
  m_e : Q;
  m_p : Q;
  copropag_length : Q -> list Q -> list Q;
  static_length : Q -> list Q -> list Q;
  static_density : Q -> list Q -> list Q;
  longitudinal_momentum : Q -> list Q -> list Q;
  new_BoundaryCommunicator :
    Z -> Z -> option Z -> Z -> string -> Z -> Z -> bool -> BoundaryCommunicator.t;
  divide_into_domain :
    BoundaryCommunicator.t -> Q -> Q -> Q -> Q -> Q * Q * Q * Q * Z;
  new_Fields :
    Z -> Q -> Z -> Q -> Z -> Q -> Z -> Q -> option Q -> bool -> bool -> Fields.t;
  new_MovingWindow :
    list InterpolationGrid.t -> BoundaryCommunicator.t -> Z -> Q ->
    list Particles.t -> Q -> Z -> Q -> Q -> Q -> Q -> Q -> Q -> Q -> option Q ->
    MovingWindow.t;
  move_grids_window : MovingWindow.t -> Q -> Q -> MovingWindow.t;
  move_grids_grid :
    MovingWindow.t -> Q -> Q -> InterpolationGrid.t -> InterpolationGrid.t
}.

(** ** [Simulation.__init__] *)

Module Args.
Record t : Type := mk {
  Nz : Z; zmax : Q; Nr : Z; rmax : Q; Nm : Z; dt : Q;
  p_zmin : Q; p_zmax : Q; p_rmin : Q; p_rmax : Q;
  p_nz : Z; p_nr : Z; p_nt : Z; n_e : Q;
  zmin : Q; n_order : Z;
  dens_func : option (list Q -> list Q -> list Q);
  filter_currents : bool;
  v_comoving : option Q; use_galilean : bool;
  initialize_ions : bool; use_cuda : bool;
  n_guard : option Z; n_damp : Z;
  exchange_period : option Z; boundaries : string;
  gamma_boost : option Q; use_all_mpi_ranks : bool;
  particle_shape : string
}.
End Args.

Definition unpack_error {A} : result A :=
  raise_ (ValueError "not enough values to unpack").

Definition guard_region_message : string :=
  "Guard region size is too small for chosen                     timestep. In one timestep, a particle can travel more                     than n_guard region cells.".

(** Lines 220-242: the period of the particle exchange, on exact
    rationals.  The value derived in binary64 can differ from this one
    by one, and a quotient next to 1 can fall on the other side of the
    guard check; see [Binary64.init_exchange_period]. *)
Definition init_exchange_period (exchange_period : option Z)
    (dt zmin zmax : Q) (Nz : Z) (comm : BoundaryCommunicator.t)
    (boundaries : string) : result Z :=
  match exchange_period with
  | None =>
      (cell <-- py_div (zmax - zmin) (inject_Z Nz) ;;;
       cells_per_step <-- py_div (2 * c * dt) cell ;;;
       quot <-- py_div (inject_Z (BoundaryCommunicator.n_guard comm - 3)) cells_per_step ;;;
       let exchange_period := py_int quot in
       let exchange_period :=
         if (BoundaryCommunicator.size comm =? 1)%Z && (boundaries =? "periodic")%string
         then 1%Z else exchange_period in
       if (exchange_period <? 1)%Z
       then raise_ (ValueError guard_region_message)
       else ok exchange_period)%res
  | Some exchange_period => ok exchange_period
  end.

(** Lines 203-218: the boosted-frame conversion, the communicator and
    the division into domains.  Returns the communicator and the local
    [zmin, zmax, dt, p_zmin, p_zmax, n_e, uz_m, Nz]. *)
Definition init_domain (K : Collaborators) (a : Args.t)
  : result (BoundaryCommunicator.t * (Q * Q * Q * Q * Q * Q * Q * Z)) :=
  (let uz_m : Q := 0 in
   boosted <--
     match Args.gamma_boost a with
     | None =>
         ok (Args.zmin a, Args.zmax a, Args.dt a, Args.p_zmin a, Args.p_zmax a,
             Args.n_e a, uz_m)
     | Some gamma =>
         match copropag_length K gamma [Args.zmin a; Args.zmax a; Args.dt a] with
         | [zmin; zmax; dt] =>
             match static_length K gamma [Args.p_zmin a; Args.p_zmax a] with
             | [p_zmin; p_zmax] =>
                 match static_density K gamma [Args.n_e a] with
                 | [n_e] =>
                     match longitudinal_momentum K gamma [uz_m] with
                     | [uz_m] => ok (zmin, zmax, dt, p_zmin, p_zmax, n_e, uz_m)
                     | _ => unpack_error
                     end
                 | _ => unpack_error
                 end
             | _ => unpack_error
             end
         | _ => unpack_error
         end
     end ;;;
   let '(zmin, zmax, dt, p_zmin, p_zmax, n_e, uz_m) := boosted in
   let comm :=
     new_BoundaryCommunicator K (Args.Nz a) (Args.Nr a) (Args.n_guard a)
       (Args.Nm a) (Args.boundaries a) (Args.n_order a) (Args.n_damp a)
       (Args.use_all_mpi_ranks a) in
   let '(zmin, zmax, p_zmin, p_zmax, Nz) :=
     divide_into_domain K comm zmin zmax p_zmin p_zmax in
   ok (comm, (zmin, zmax, dt, p_zmin, p_zmax, n_e, uz_m, Nz)))%res.

(** Lines 244-290: the fields, the species, the counters. *)
Definition init_structures (K : Collaborators) (a : Args.t)
    (use_cuda : bool) (v_comoving : option Q) (use_galilean : bool)
    (comm : BoundaryCommunicator.t)
    (local : Q * Q * Q * Q * Q * Q * Q * Z) (exchange_period : Z)
  : result Simulation.t :=
  (let '(zmin, zmax, dt, p_zmin, p_zmax, n_e, uz_m, Nz) := local in
   let fld :=
     new_Fields K Nz zmax (Args.Nr a) (Args.rmax a) (Args.Nm a) dt
       (Args.n_order a) zmin v_comoving (Args.use_galilean a) use_cuda in
   interp0 <--
     match nth_error (Fields.interp fld) 0 with
     | Some g => ok g
     | None => raise_ IndexError
     end ;;;
   adapted_z <--
     adapt_to_grid (InterpolationGrid.z interp0) p_zmin p_zmax (Args.p_nz a) 0 ;;;
   let '(p_zmin, p_zmax, Npz) := adapted_z in
   adapted_r <--
     adapt_to_grid (InterpolationGrid.r interp0) (Args.p_rmin a) (Args.p_rmax a)
       (Args.p_nr a) 0 ;;;
   let '(p_rmin, p_rmax, Npr) := adapted_r in
   let grid_shape := InterpolationGrid.Ez_shape interp0 in
   let species (q m : Q) :=
     Particles.mk q m n_e Npz p_zmin p_zmax Npr p_rmin p_rmax (Args.p_nt a) dt
       (Args.dens_func a) use_cuda uz_m grid_shape (Args.particle_shape a) false in
   let ptcl := [species (- e K) (m_e K)] in
   let ptcl :=
     if Args.initialize_ions a then ptcl ++ [species (e K) (m_p K)] else ptcl in
   ok (Simulation.mk use_cuda v_comoving use_galilean comm exchange_period fld
         ptcl dt (Args.p_nz a) 0 0%Z (Args.filter_currents a) [] [] []))%res.

Definition Simulation_init (K : Collaborators) (a : Args.t) : result Simulation.t :=
  (let use_cuda :=
     if Args.use_cuda a && negb (cuda_installed K) then false else Args.use_cuda a in
   let v_comoving := Args.v_comoving a in
   let use_galilean :=
     match v_comoving with
     | None => false
     | Some _ => Args.use_galilean a
     end in
   domain <-- init_domain K a ;;;
   let '(comm, (zmin, zmax, dt, p_zmin, p_zmax, n_e, uz_m, Nz)) := domain in
   exchange_period <--
     init_exchange_period (Args.exchange_period a) dt zmin zmax Nz comm
       (Args.boundaries a) ;;;
   init_structures K a use_cuda v_comoving use_galilean comm
     (zmin, zmax, dt, p_zmin, p_zmax, n_e, uz_m, Nz) exchange_period)%res.

(** ** [Simulation.__init__] in binary64 arithmetic

    Lines 225-229 divide floats and turn the quotient into an integer.
    Here the floats are binary64 numbers ([spec_float]) and every
    operation rounds to nearest, ties to even, as the hardware does;
    the operations are those of [SpecFloat]. *)
Module Binary64.

Definition prec : Z := 53.
Definition emax : Z := 1024.

(** The float nearest to an integer. *)
Definition of_Z (n : Z) : spec_float := binary_normalize prec emax n 0 false.

(** The float nearest to a rational: the rational itself when it is a
    float.  This is how the rationals of the idealised embedding are
    read as floats. *)
Definition of_Q (q : Q) : spec_float :=
  SFdiv prec emax
    (match Qnum q with
     | Z0 => S754_zero false
     | Zpos n => S754_finite false n 0
     | Zneg n => S754_finite true n 0
     end)
    (S754_finite false (Qden q) 0).

Definition is_zero (x : spec_float) : bool :=
  match x with
  | S754_zero _ => true
  | _ => false
  end.

(** [float(n)], as Python does for the int operand of a float operation:
    an int beyond the range of the floats raises [OverflowError]. *)
Definition of_int (n : Z) : result spec_float :=
  match of_Z n with
  | S754_infinity _ => raise_ OverflowError
  | x => ok x
  end.

(** [x * y] and [x - y] on floats; they do not raise. *)
Definition mul (x y : spec_float) : spec_float := SFmul prec emax x y.
Definition sub (x y : spec_float) : spec_float := SFsub prec emax x y.

(** [x / y] on floats. *)
Definition div (x y : spec_float) : result spec_float :=
  if is_zero y then raise_ ZeroDivisionError else ok (SFdiv prec emax x y).

Definition nan_message : string := "cannot convert float NaN to integer".

(** [int(x)]: truncation towards zero. *)
Definition to_int (x : spec_float) : result Z :=
  match x with
  | S754_zero _ => ok 0%Z
  | S754_finite s m e =>
      ok (match e with
          | Zneg p => Z.quot (cond_Zopp s (Zpos m)) (2 ^ Zpos p)
          | _ => cond_Zopp s (Zpos m) * 2 ^ e
          end)%Z
  | S754_infinity _ => raise_ OverflowError
  | S754_nan => raise_ (ValueError nan_message)
  end.

(** [scipy.constants.c]. *)
Definition c : spec_float := of_Z 299792458.

(** Lines 220-242: the period of the particle exchange. *)
Definition init_exchange_period (exchange_period : option Z)
    (dt zmin zmax : spec_float) (Nz : Z) (comm : BoundaryCommunicator.t)
    (boundaries : string) : result Z :=
  match exchange_period with
  | None =>
      (Nz_float <-- of_int Nz ;;;
       cell <-- div (sub zmax zmin) Nz_float ;;;
       cells_per_step <-- div (mul (mul (of_Z 2) c) dt) cell ;;;
       n_float <-- of_int (BoundaryCommunicator.n_guard comm - 3) ;;;
       quot <-- div n_float cells_per_step ;;;
       exchange_period <-- to_int quot ;;;
       let exchange_period :=
         if (BoundaryCommunicator.size comm =? 1)%Z && (boundaries =? "periodic")%string
         then 1%Z else exchange_period in
       if (exchange_period <? 1)%Z
       then raise_ (ValueError guard_region_message)
       else ok exchange_period)%res
  | Some exchange_period => ok exchange_period
  end.

(** [__init__] with the exchange period derived in binary64; the other
    lines are those of the idealised [Simulation_init]. *)
Definition Simulation_init (K : Collaborators) (a : Args.t) : result Simulation.t :=
  (let use_cuda :=
     if Args.use_cuda a && negb (cuda_installed K) then false else Args.use_cuda a in
   let v_comoving := Args.v_comoving a in
   let use_galilean :=
     match v_comoving with
     | None => false
     | Some _ => Args.use_galilean a
     end in
   domain <-- init_domain K a ;;;
   let '(comm, (zmin, zmax, dt, p_zmin, p_zmax, n_e, uz_m, Nz)) := domain in
   exchange_period <--
     init_exchange_period (Args.exchange_period a) (of_Q dt) (of_Q zmin)
       (of_Q zmax) Nz comm (Args.boundaries a) ;;;
   init_structures K a use_cuda v_comoving use_galilean comm
     (zmin, zmax, dt, p_zmin, p_zmax, n_e, uz_m, Nz) exchange_period)%res.

(** *** The value the design gives for the exchange period

    [floor((n_guard - 3) / (2*c*dt / ((zmax - zmin)/Nz)))], with the
    operations of binary64.  The value is defined when no divisor is
    zero, the integers are in the range of the floats and the quotient
    is a finite number. *)

(** [floor(x)] of a finite float. *)
Definition floor (x : spec_float) : option Z :=
  match x with
  | S754_zero _ => Some 0%Z
  | S754_finite s m e =>
      Some (match e with
            | Zneg p => cond_Zopp s (Zpos m) / 2 ^ Zpos p
            | _ => cond_Zopp s (Zpos m) * 2 ^ e
            end)%Z
  | _ => None
  end.

(** [x / y], for [y] other than zero. *)
Definition quotient (x y : spec_float) : option spec_float :=
  if is_zero y then None else Some (SFdiv prec emax x y).

(** An integer as a float, within the range of the floats. *)
Definition float_of_Z (n : Z) : option spec_float :=
  match of_Z n with
  | S754_infinity _ => None
  | x => Some x
  end.

Definition exchange_period_formula (n_guard : Z) (dt zmin zmax : spec_float)
    (Nz : Z) : option Z :=
  match float_of_Z Nz with
  | None => None
  | Some Nz_float =>
      match quotient (sub zmax zmin) Nz_float with
      | None => None
      | Some cell =>
          match quotient (mul (mul (of_Z 2) c) dt) cell with
          | None => None
          | Some cells_per_step =>
              match float_of_Z (n_guard - 3) with
              | None => None
              | Some n_float =>
                  match quotient n_float cells_per_step with
                  | None => None
                  | Some quot => floor quot
                  end
              end
          end
      end
  end.

End Binary64.

(** The arguments of [__init__] with another [exchange_period]. *)
Definition with_exchange_period (exchange_period : option Z) (a : Args.t) : Args.t :=
  Args.mk (Args.Nz a) (Args.zmax a) (Args.Nr a) (Args.rmax a) (Args.Nm a)
    (Args.dt a) (Args.p_zmin a) (Args.p_zmax a) (Args.p_rmin a) (Args.p_rmax a)
    (Args.p_nz a) (Args.p_nr a) (Args.p_nt a) (Args.n_e a) (Args.zmin a)
    (Args.n_order a) (Args.dens_func a) (Args.filter_currents a)
    (Args.v_comoving a) (Args.use_galilean a) (Args.initialize_ions a)
    (Args.use_cuda a) (Args.n_guard a) (Args.n_damp a) exchange_period
    (Args.boundaries a) (Args.gamma_boost a) (Args.use_all_mpi_ranks a)
    (Args.particle_shape a).

(** ** [Simulation.deposit] *)

Definition deposit (fieldtype : string) : M unit :=
  (if (fieldtype =? "rho_prev")%string || (fieldtype =? "rho_next")%string then
     emit (fld_erase "rho") ;;
     ptcl <- gets Simulation.ptcl ;;
     for_each (indices ptcl) (fun species => emit (species_deposit species "rho")) ;;
     antennas <- gets Simulation.laser_antennas ;;
     for_each antennas (fun antenna => emit (antenna_deposit antenna "rho")) ;;
     emit (fld_divide_by_volume "rho") ;;
     emit (comm_exchange_fields "rho")
   else if (fieldtype =? "J")%string then
     emit (fld_erase "J") ;;
     ptcl <- gets Simulation.ptcl ;;
     for_each (indices ptcl) (fun species => emit (species_deposit species "J")) ;;
     antennas <- gets Simulation.laser_antennas ;;
     for_each antennas (fun antenna => emit (antenna_deposit antenna "J")) ;;
     emit (fld_divide_by_volume "J") ;;
     emit (comm_exchange_fields "J")
   else
     raise (ValueError ("Unknown fieldtype: " ++ fieldtype))) ;;
  emit (fld_interp2spect fieldtype) ;;
  filter_currents <- gets Simulation.filter_currents ;;
  when filter_currents (emit (fld_filter_spect fieldtype)).

(** ** [Simulation.shift_galilean_boundaries] *)

(** [self.fld.interp[m] = f(self.fld.interp[m])], in place. *)
Definition update_interp (m : nat) (f : InterpolationGrid.t -> InterpolationGrid.t)
  : M unit :=
  fld <- gets Simulation.fld ;;
  match list_update (Fields.interp fld) m f with
  | Some interp' => modify (Simulation.set_fld (Fields.mk (Fields.Nm fld) interp'))
  | None => raise IndexError
  end.

Definition shift_galilean_boundaries : M unit :=
  emit self_shift_galilean_boundaries ;;
  v_comoving <- gets Simulation.v_comoving ;;
  dt <- gets Simulation.dt ;;
  shift_distance <-
    match v_comoving with
    | Some v => ret (v * (1#2) * dt)
    | None => raise TypeError
    end ;;
  Nm <- gets (fun s => Fields.Nm (Simulation.fld s)) ;;
  for_each (seq 0 (Z.to_nat Nm)) (fun m =>
    update_interp m (fun g =>
      InterpolationGrid.set_zmin (InterpolationGrid.zmin g + shift_distance) g) ;;
    update_interp m (fun g =>
      InterpolationGrid.set_zmax (InterpolationGrid.zmax g + shift_distance) g) ;;
    update_interp m (fun g =>
      InterpolationGrid.set_z
        (map (fun zi => zi + shift_distance) (InterpolationGrid.z g)) g)).

(** ** [Simulation.step] *)

(** [self.comm.move_grids(fld, self.dt, self.time)] with window [w]. *)
Definition move_grids (K : Collaborators) (w : MovingWindow.t) : M unit :=
  dt <- gets Simulation.dt ;;
  time <- gets Simulation.time ;;
  emit (comm_move_grids dt time) ;;
  modify (fun s =>
    let fld := Simulation.fld s in
    let fld' :=
      Fields.mk (Fields.Nm fld)
        (map (move_grids_grid K w dt time) (Fields.interp fld)) in
    let comm' :=
      BoundaryCommunicator.set_moving_win
        (Some (move_grids_window K w dt time)) (Simulation.comm s) in
    Simulation.set_comm comm' (Simulation.set_fld fld' s)).

(** [for species in ptcl: species.<method>(...)]. *)
Definition for_species (f : nat -> call) : M unit :=
  ptcl <- gets Simulation.ptcl ;;
  for_each (indices ptcl) (fun species => emit (f species)).

(** The body of the loop [for i_step in range(N)] (lines 334-453). *)
Definition step_iteration (K : Collaborators) (N i_step : Z)
    (correct_currents correct_divE use_true_rho
     move_positions move_momenta show_progress : bool) : M unit :=
  (* Messages and diagnostics *)
  rank <- gets (fun s => BoundaryCommunicator.rank (Simulation.comm s)) ;;
  when (show_progress && (rank =? 0)%Z) (emit (progression_bar i_step N)) ;;
  diags <- gets Simulation.diags ;;
  for_each diags (fun diag =>
    iteration <- gets Simulation.iteration ;;
    emit (diag_write diag iteration)) ;;
  (* Exchanges to prepare for this iteration *)
  moving_win <- gets (fun s => BoundaryCommunicator.moving_win (Simulation.comm s)) ;;
  match moving_win with
  | Some w => move_grids K w
  | None => ret tt
  end ;;
  emit (comm_exchange_fields "EB") ;;
  iteration <- gets Simulation.iteration ;;
  exchange_period <- gets Simulation.exchange_period ;;
  remainder <- lift (py_mod iteration exchange_period) ;;
  when ((remainder =? 0)%Z || (i_step =? 0)%Z)
    (ptcl <- gets Simulation.ptcl ;;
     for_each (indices ptcl) (fun species =>
       time <- gets Simulation.time ;;
       emit (comm_exchange_particles species time)) ;;
     moving_win <- gets (fun s => BoundaryCommunicator.moving_win (Simulation.comm s)) ;;
     match moving_win with
     | Some _ =>
         modify (fun s =>
           Simulation.set_comm
             (BoundaryCommunicator.set_moving_win (Some (MovingWindow.mk 0%Z))
                (Simulation.comm s)) s)
     | None => ret tt
     end) ;;
  (* Standard PIC loop *)
  for_species species_gather ;;
  external_fields <- gets Simulation.external_fields ;;
  for_each external_fields (fun ext_field =>
    time <- gets Simulation.time ;;
    emit (ext_field_apply_expression ext_field time)) ;;
  modify (fun s =>
    Simulation.set_ptcl (map (Particles.set_sorted false) (Simulation.ptcl s)) s) ;;
  deposit "rho_prev" ;;
  for_species species_handle_ionization ;;
  when move_momenta (for_species species_push_p) ;;
  when move_positions (for_species species_halfpush_x) ;;
  antennas <- gets Simulation.laser_antennas ;;
  for_each antennas (fun antenna =>
    time <- gets Simulation.time ;;
    dt <- gets Simulation.dt ;;
    emit (antenna_update_v antenna (time + (1#2) * dt)) ;;
    emit (antenna_halfpush_x antenna dt)) ;;
  use_galilean <- gets Simulation.use_galilean ;;
  when use_galilean shift_galilean_boundaries ;;
  deposit "J" ;;
  when move_positions (for_species species_halfpush_x) ;;
  antennas <- gets Simulation.laser_antennas ;;
  for_each antennas (fun antenna =>
    dt <- gets Simulation.dt ;;
    emit (antenna_halfpush_x antenna dt)) ;;
  use_galilean <- gets Simulation.use_galilean ;;
  when use_galilean shift_galilean_boundaries ;;
  deposit "rho_next" ;;
  when correct_currents (emit fld_correct_currents) ;;
  emit comm_damp_guard_EB ;;
  emit (fld_interp2spect "E") ;;
  emit (fld_interp2spect "B") ;;
  emit (fld_push use_true_rho) ;;
  when correct_divE (emit fld_correct_divE) ;;
  emit (fld_spect2interp "E") ;;
  emit (fld_spect2interp "B") ;;
  (* Increment the global time and iteration *)
  modify (fun s => Simulation.set_time (Simulation.time s + Simulation.dt s) s) ;;
  modify (fun s => Simulation.set_iteration (Simulation.iteration s + 1)%Z s).

Definition step (K : Collaborators) (N : Z)
    (correct_currents correct_divE use_true_rho
     move_positions move_momenta show_progress : bool) : M unit :=
  use_cuda <- gets Simulation.use_cuda ;;
  when use_cuda (emit send_data_to_gpu) ;;
  for_each (py_range N) (fun i_step =>
    step_iteration K N i_step correct_currents correct_divE use_true_rho
      move_positions move_momenta show_progress) ;;
  use_cuda <- gets Simulation.use_cuda ;;
  when use_cuda (emit receive_data_from_gpu) ;;
  rank <- gets (fun s => BoundaryCommunicator.rank (Simulation.comm s)) ;;
  when (show_progress && (rank =? 0)%Z) (emit print_time_taken).



(** ** [Simulation.set_moving_window] *)

Definition set_moving_window (K : Collaborators)
    (v ux_m uy_m uz_m ux_th uy_th uz_th : Q) (gamma_boost : option Q) : M unit :=
  modify (fun s =>
    Simulation.set_comm
      (BoundaryCommunicator.set_moving_win
         (Some (new_MovingWindow K (Fields.interp (Simulation.fld s))
                  (Simulation.comm s) (Simulation.exchange_period s)
                  (Simulation.dt s) (Simulation.ptcl s) v (Simulation.p_nz s)
                  (Simulation.time s) ux_m uy_m uz_m ux_th uy_th uz_th gamma_boost))
         (Simulation.comm s)) s).

(** ** Predicates used in the statements *)

(** The three components of a run. *)
Definition outcome {A} (x : result A * Simulation.t * list call) : result A :=
  fst (fst x).
Definition final_state {A} (x : result A * Simulation.t * list call)
  : Simulation.t := snd (fst x).
Definition calls_of {A} (x : result A * Simulation.t * list call) : list call :=
  snd x.

(** A computation that leaves the clock alone, whatever its outcome. *)
Definition keeps_clock {A} (m : M A) : Prop :=
  forall s,
    Simulation.time (final_state (m s)) = Simulation.time s /\
    Simulation.iteration (final_state (m s)) = Simulation.iteration s /\
    Simulation.dt (final_state (m s)) = Simulation.dt s.

(** The states a simulation object goes through after its construction,
    by calls to its public methods (a call that raises leaves the object
    as it was when the exception occurred). *)
Inductive reachable (K : Collaborators) (s0 : Simulation.t) : Simulation.t -> Prop :=
| reach_init : reachable K s0 s0
| reach_step s N cc cd utr mp mm sp :
    reachable K s0 s ->
    reachable K s0 (final_state (step K N cc cd utr mp mm sp s))
| reach_deposit s fieldtype :
    reachable K s0 s ->
    reachable K s0 (final_state (deposit fieldtype s))
| reach_set_moving_window s v ux_m uy_m uz_m ux_th uy_th uz_th gamma_boost :
    reachable K s0 s ->
    reachable K s0
      (final_state
         (set_moving_window K v ux_m uy_m uz_m ux_th uy_th uz_th gamma_boost s)).

(** The value the design gives for the exchange period:
    [floor((n_guard - 3) / (2*c*dt / ((zmax - zmin)/Nz)))]. *)
Definition exchange_period_formula (n_guard : Z) (dt zmin zmax : Q) (Nz : Z) : Z :=
  Qfloor (inject_Z (n_guard - 3) / (2 * c * dt / ((zmax - zmin) / inject_Z Nz))).


(** The condition of line 366. *)
Definition exchange_due (s : Simulation.t) (i_step : Z) : bool :=
  ((Simulation.iteration s mod Simulation.exchange_period s =? 0)%Z
   || (i_step =? 0)%Z).

(** The Galilean shift can run: a comoving velocity is set and
    [fld.interp] holds the [fld.Nm] grids the loop visits. *)
Definition galilean_ready (s : Simulation.t) : bool :=
  implb (Simulation.use_galilean s)
    (match Simulation.v_comoving s with Some _ => true | None => false end
     && (Z.to_nat (Fields.Nm (Simulation.fld s))
           <=? length (Fields.interp (Simulation.fld s)))%nat).

Definition is_exchange_particles (cl : call) : bool :=
  match cl with comm_exchange_particles _ _ => true | _ => false end.
Definition is_exchange_EB (cl : call) : bool :=
  match cl with
  | comm_exchange_fields ft => (ft =? "EB")%string
  | _ => false
  end.
Definition is_shift (cl : call) : bool :=
  match cl with self_shift_galilean_boundaries => true | _ => false end.
Definition is_species_halfpush (cl : call) : bool :=
  match cl with species_halfpush_x _ => true | _ => false end.
Definition is_antenna_halfpush (cl : call) : bool :=
  match cl with antenna_halfpush_x _ _ => true | _ => false end.

(** A grid moved by [d] along z: the markers and the coordinates, not the
    field values. *)
Definition shifted_by (d : Q) (g : InterpolationGrid.t) : InterpolationGrid.t :=
  InterpolationGrid.mk
    (InterpolationGrid.zmin g + d) (InterpolationGrid.zmax g + d)
    (map (fun zi => zi + d) (InterpolationGrid.z g))
    (InterpolationGrid.r g) (InterpolationGrid.Ez g) (InterpolationGrid.values g).

Fixpoint strictly_increasing (x : list Q) : bool :=
  match x with
  | a :: t =>
      match t with
      | b :: _ => Qltb a b && strictly_increasing t
      | [] => true
      end
  | [] => true
  end.

(** ** The state and the calls of one loop iteration, in closed form

    These functions restate, without the monad, what the methods above
    compute; the lemmas [deposit_run], [shift_galilean_boundaries_run]
    and [step_iteration_run] below prove that they agree with them. *)

Definition prepend {A} (l : list call) (x : result A * Simulation.t * list call)
  : result A * Simulation.t * list call :=
  match x with
  | (ra, s, l') => (ra, s, l ++ l')
  end.

Definition field_of (fieldtype : string) : option string :=
  if (fieldtype =? "rho_prev")%string || (fieldtype =? "rho_next")%string
  then Some "rho"%string
  else if (fieldtype =? "J")%string then Some "J"%string else None.

Definition deposit_calls (s : Simulation.t) (fieldtype kind : string) : list call :=
  [fld_erase kind]
  ++ map (fun species => species_deposit species kind) (indices (Simulation.ptcl s))
  ++ map (fun antenna => antenna_deposit antenna kind) (Simulation.laser_antennas s)
  ++ [fld_divide_by_volume kind; comm_exchange_fields kind;
      fld_interp2spect fieldtype]
  ++ (if Simulation.filter_currents s then [fld_filter_spect fieldtype] else []).

Definition shift_first (k : nat) (d : Q) (l : list InterpolationGrid.t)
  : list InterpolationGrid.t :=
  map (shifted_by d) (firstn k l) ++ skipn k l.

Definition shifted_state (d : Q) (s : Simulation.t) : Simulation.t :=
  let fld := Simulation.fld s in
  Simulation.set_fld
    (Fields.mk (Fields.Nm fld)
       (shift_first (Z.to_nat (Fields.Nm fld)) d (Fields.interp fld))) s.

Definition after_move_grids (K : Collaborators) (s : Simulation.t) : Simulation.t :=
  match BoundaryCommunicator.moving_win (Simulation.comm s) with
  | Some w =>
      let fld := Simulation.fld s in
      Simulation.set_comm
        (BoundaryCommunicator.set_moving_win
           (Some (move_grids_window K w (Simulation.dt s) (Simulation.time s)))
           (Simulation.comm s))
        (Simulation.set_fld
           (Fields.mk (Fields.Nm fld)
              (map (move_grids_grid K w (Simulation.dt s) (Simulation.time s))
                 (Fields.interp fld))) s)
  | None => s
  end.

Definition after_exchange (i_step : Z) (s : Simulation.t) : Simulation.t :=
  if exchange_due s i_step then
    match BoundaryCommunicator.moving_win (Simulation.comm s) with
    | Some _ =>
        Simulation.set_comm
          (BoundaryCommunicator.set_moving_win (Some (MovingWindow.mk 0%Z))
             (Simulation.comm s)) s
    | None => s
    end
  else s.

Definition unsorted (s : Simulation.t) : Simulation.t :=
  Simulation.set_ptcl (map (Particles.set_sorted false) (Simulation.ptcl s)) s.

Definition galilean_shifted (s : Simulation.t) : Simulation.t :=
  if Simulation.use_galilean s then
    match Simulation.v_comoving s with
    | Some v => shifted_state (v * (1#2) * Simulation.dt s) s
    | None => s
    end
  else s.

Definition advanced (s : Simulation.t) : Simulation.t :=
  Simulation.set_iteration (Simulation.iteration s + 1)%Z
    (Simulation.set_time (Simulation.time s + Simulation.dt s) s).

Definition iteration_state (K : Collaborators) (i_step : Z) (s : Simulation.t)
  : Simulation.t :=
  advanced
    (galilean_shifted
       (galilean_shifted (unsorted (after_exchange i_step (after_move_grids K s))))).

Definition shift_calls (s : Simulation.t) : list call :=
  if Simulation.use_galilean s then [self_shift_galilean_boundaries] else [].

Definition iteration_calls (K : Collaborators) (N i_step : Z)
    (correct_currents correct_divE use_true_rho
     move_positions move_momenta show_progress : bool) (s : Simulation.t)
  : list call :=
  let species := indices (Simulation.ptcl s) in
  let antennas := Simulation.laser_antennas s in
  (if show_progress && (BoundaryCommunicator.rank (Simulation.comm s) =? 0)%Z
   then [progression_bar i_step N] else [])
  ++ map (fun diag => diag_write diag (Simulation.iteration s)) (Simulation.diags s)
  ++ (match BoundaryCommunicator.moving_win (Simulation.comm s) with
      | Some _ => [comm_move_grids (Simulation.dt s) (Simulation.time s)]
      | None => []
      end)
  ++ [comm_exchange_fields "EB"]
  ++ (if exchange_due s i_step
      then map (fun sp => comm_exchange_particles sp (Simulation.time s)) species
      else [])
  ++ map species_gather species
  ++ map (fun f => ext_field_apply_expression f (Simulation.time s))
       (Simulation.external_fields s)
  ++ deposit_calls s "rho_prev" "rho"
  ++ map species_handle_ionization species
  ++ (if move_momenta then map species_push_p species else [])
  ++ (if move_positions then map species_halfpush_x species else [])
  ++ flat_map (fun antenna =>
       [antenna_update_v antenna (Simulation.time s + (1#2) * Simulation.dt s);
        antenna_halfpush_x antenna (Simulation.dt s)]) antennas
  ++ shift_calls s
  ++ deposit_calls s "J" "J"
  ++ (if move_positions then map species_halfpush_x species else [])
  ++ map (fun antenna => antenna_halfpush_x antenna (Simulation.dt s)) antennas
  ++ shift_calls s
  ++ deposit_calls s "rho_next" "rho"
  ++ (if correct_currents then [fld_correct_currents] else [])
  ++ [comm_damp_guard_EB; fld_interp2spect "E"; fld_interp2spect "B";
      fld_push use_true_rho]
  ++ (if correct_divE then [fld_correct_divE] else [])
  ++ [fld_spect2interp "E"; fld_spect2interp "B"].

(** [s'] differs from [s] at most in the field data, the window counter
    and the [sorted] flags: everything [step] branches on is the same. *)
Definition same_setup (s s' : Simulation.t) : Prop :=
  Simulation.use_cuda s' = Simulation.use_cuda s /\
  Simulation.v_comoving s' = Simulation.v_comoving s /\
  Simulation.use_galilean s' = Simulation.use_galilean s /\
  Simulation.exchange_period s' = Simulation.exchange_period s /\
  Simulation.dt s' = Simulation.dt s /\
  Simulation.time s' = Simulation.time s /\
  Simulation.iteration s' = Simulation.iteration s /\
  Simulation.filter_currents s' = Simulation.filter_currents s /\
  Simulation.external_fields s' = Simulation.external_fields s /\
  Simulation.diags s' = Simulation.diags s /\
  Simulation.laser_antennas s' = Simulation.laser_antennas s /\
  BoundaryCommunicator.rank (Simulation.comm s')
    = BoundaryCommunicator.rank (Simulation.comm s) /\
  Fields.Nm (Simulation.fld s') = Fields.Nm (Simulation.fld s) /\
  length (Fields.interp (Simulation.fld s'))
    = length (Fields.interp (Simulation.fld s)) /\
  length (Simulation.ptcl s') = length (Simulation.ptcl s).

(** The state and the calls of the whole loop [for i_step in range(N)]. *)
Fixpoint loop_state (K : Collaborators) (steps : list Z) (s : Simulation.t)
  : Simulation.t :=
  match steps with
  | [] => s
  | i_step :: rest => loop_state K rest (iteration_state K i_step s)
  end.

Fixpoint loop_calls (K : Collaborators) (N : Z)
    (correct_currents correct_divE use_true_rho
     move_positions move_momenta show_progress : bool)
    (steps : list Z) (s : Simulation.t) : list call :=
  match steps with
  | [] => []
  | i_step :: rest =>
      iteration_calls K N i_step correct_currents correct_divE use_true_rho
        move_positions move_momenta show_progress s
      ++ loop_calls K N correct_currents correct_divE use_true_rho
           move_positions move_momenta show_progress rest
           (iteration_state K i_step s)
  end.

(** A grid with a constant, positive spacing [x[i+1] - x[i] = x[1] - x[0]],
    as the interpolation grids of [Fields] are. *)
Fixpoint evenly_spaced (d : Q) (x : list Q) : bool :=
  match x with
  | a :: t =>
      match t with
      | b :: _ => Qeq_bool (b - a) d && evenly_spaced d t
      | [] => true
      end
  | [] => true
  end.

Definition uniform_grid (x : list Q) : bool :=
  match x with
  | x0 :: x1 :: _ => Qltb 0 (x1 - x0) && evenly_spaced (x1 - x0) x
  | _ => false
  end.

(** [m] is a least (greatest) element of the list [l]. *)
Definition is_min (m : Q) (l : list Q) : Prop :=
  In m l /\ forall y, In y l -> m <= y.
Definition is_max (m : Q) (l : list Q) : Prop :=
  In m l /\ forall y, In y l -> y <= m.

(** ** More selectors of calls *)

Definition is_gpu_transfer (cl : call) : bool :=
  match cl with
  | send_data_to_gpu | receive_data_from_gpu => true
  | _ => false
  end.
Definition is_diag_write (cl : call) : bool :=
  match cl with diag_write _ _ => true | _ => false end.
Definition is_move_grids (cl : call) : bool :=
  match cl with comm_move_grids _ _ => true | _ => false end.

(** The calls to the spectral solver: transforms, corrections, push. *)
Definition is_solver_call (cl : call) : bool :=
  match cl with
  | fld_interp2spect _ | fld_spect2interp _ | fld_push _
  | fld_correct_currents | fld_correct_divE => true
  | _ => false
  end.

(** The calls that read the fields onto a species or change its momenta. *)
Definition is_momentum_call (cl : call) : bool :=
  match cl with
  | species_gather _ | species_handle_ionization _ | species_push_p _ => true
  | _ => false
  end.

Definition has_window (s : Simulation.t) : bool :=
  match BoundaryCommunicator.moving_win (Simulation.comm s) with
  | Some _ => true
  | None => false
  end.

(** The calls of a run that do not depend on how the run is cut into
    calls of [step]: all but the particle exchange (forced at the first
    iteration of every call), the progression bar, the transfers to and
    from the GPU and the final message. *)
Definition is_cycle_call (cl : call) : bool :=
  match cl with
  | comm_exchange_particles _ _ | progression_bar _ _ | print_time_taken
  | send_data_to_gpu | receive_data_from_gpu => false
  | _ => true
  end.

(** ** Text output: the durations printed by [step] and its progression bar

    What is written to [sys.stdout] is the list of the strings written,
    in order; a [print] writes its argument and a line feed.  The clock
    ([time.time()]) is read by the caller and given as an argument. *)

Definition CR : string := String "013"%char EmptyString.
Definition LF : string := String "010"%char EmptyString.
Definition ESC : string := String "027"%char EmptyString.

(** ['%d' % n] for an integer [n]. *)
Definition fmt_d (n : Z) : string := NilZero.string_of_int (Z.to_int n).

(** ['%02d' % n]: at least two characters, padded with zeros on the left. *)
Definition fmt_02d (n : Z) : string :=
  if (String.length (fmt_d n) <? 2)%nat then ("0" ++ fmt_d n)%string else fmt_d n.

Fixpoint repeat_string (n : nat) (s : string) : string :=
  match n with
  | O => EmptyString
  | S k => (s ++ repeat_string k s)%string
  end.

(** [n * s] on a string: the empty string when [n <= 0]. *)
Definition py_repeat (n : Z) (s : string) : string := repeat_string (Z.to_nat n) s.

(** [divmod(a, b)] on floats: the quotient rounded down and the remainder,
    which has the sign of [b]. *)
Definition py_divmod (a b : Q) : result (Q * Q) :=
  if Qeq_bool b 0 then raise_ ZeroDivisionError
  else ok (inject_Z (Qfloor (a / b)), a - inject_Z (Qfloor (a / b)) * b).

(** [m, s = divmod(t, 60); h, m = divmod(m, 60)]. *)
Definition hms (t : Q) : result (Q * Q * Q) :=
  (ms <-- py_divmod t 60 ;;;
   let '(m, s) := ms in
   hm <-- py_divmod m 60 ;;;
   let '(h, m) := hm in
   ok (h, m, s))%res.

(** ['%d:%02d:%02d' % (h, m, s)] on floats: each is truncated by [int]. *)
Definition fmt_hms (h m s : Q) : string :=
  (fmt_d (py_int h) ++ ":" ++ fmt_02d (py_int m) ++ ":" ++ fmt_02d (py_int s))%string.

(** The estimate of the remaining time in [progression_bar] (line 584);
    [elapsed] is [time.time() - measured_start]. *)
Definition progression_eta (i Ntot : Z) (elapsed : Q) : result Q :=
  (ratio <-- py_div (inject_Z Ntot) (inject_Z i + 1) ;;;
   ok ((ratio - 1) * elapsed))%res.

(** The message printed at the end of [step] (lines 460-464), for a
    measured duration. *)
Definition time_taken_message (measured_duration : Q) : result string :=
  (t <-- hms measured_duration ;;;
   let '(h, m, s) := t in
   ok (LF ++ " Time taken by the loop: " ++ fmt_hms h m s ++ LF ++ LF)%string)%res.

(** ** [print_utils.ProgressBar] *)

Module ProgressBar.
Record t : Type := mk {
  N : Z;
  n_avg : Z;
  Nbars : Z;
  bar_char : string;
  i_step : Z;
  start_time : Q;
  prev_time : Q;
  total_duration : Q;
  time_per_step : Q;
  avg_time_per_step : Q;
  eta : option Q
}.
End ProgressBar.

(** [ProgressBar(N, n_avg, Nbars, char)], constructed at clock time [now]. *)
Definition ProgressBar_init (N n_avg Nbars : Z) (char : string) (now : Q)
  : ProgressBar.t :=
  ProgressBar.mk N n_avg Nbars char 0 now now 0 0 0 None.

(** [ProgressBar.time(i_step)], called at clock time [curr_time]: the
    outcome and the object as the call leaves it. *)
Definition ProgressBar_time (i_step : Z) (curr_time : Q) (pb : ProgressBar.t)
  : result unit * ProgressBar.t :=
  let total_duration := curr_time - ProgressBar.start_time pb in
  let time_per_step := curr_time - ProgressBar.prev_time pb in
  let pb1 :=
    ProgressBar.mk (ProgressBar.N pb) (ProgressBar.n_avg pb) (ProgressBar.Nbars pb)
      (ProgressBar.bar_char pb) i_step (ProgressBar.start_time pb)
      (ProgressBar.prev_time pb) total_duration time_per_step
      (ProgressBar.avg_time_per_step pb) (ProgressBar.eta pb) in
  match py_div (time_per_step - ProgressBar.avg_time_per_step pb)
          (inject_Z (ProgressBar.n_avg pb)) with
  | inl err => (inl err, pb1)
  | inr increment =>
      let avg := ProgressBar.avg_time_per_step pb + increment in
      let avg := if (i_step <=? 2)%Z then time_per_step else avg in
      let eta :=
        if (i_step <? ProgressBar.n_avg pb)%Z then None
        else Some (avg * inject_Z (ProgressBar.N pb - i_step)) in
      (ok tt,
       ProgressBar.mk (ProgressBar.N pb) (ProgressBar.n_avg pb)
         (ProgressBar.Nbars pb) (ProgressBar.bar_char pb) i_step
         (ProgressBar.start_time pb) curr_time total_duration time_per_step
         avg eta)
  end.

(** [ProgressBar.print_progress()].  The number of bars is computed
    here on exact rationals; in binary64 the product of line 103 can
    fall just below an integer and give one bar fewer. *)
Definition ProgressBar_print_progress (pb : ProgressBar.t)
  : result unit * list string :=
  let i := ProgressBar.i_step pb in
  let clear_line := (ESC ++ "[K")%string in
  if (i =? 0)%Z then
    (ok tt,
     [(CR ++ "Just-In-Time compilation (up to one minute) ...")%string; clear_line])
  else
    match py_div (inject_Z (i + 1) * 1) (inject_Z (ProgressBar.N pb)) with
    | inl err => (inl err, [])
    | inr fraction =>
        let nbars := py_int (fraction * inject_Z (ProgressBar.Nbars pb)) in
        let bar :=
          [(CR ++ py_repeat nbars (ProgressBar.bar_char pb))%string;
           py_repeat (ProgressBar.Nbars pb - nbars) " ";
           (" " ++ fmt_d (i + 1) ++ "/" ++ fmt_d (ProgressBar.N pb))%string] in
        let ms_per_step :=
          (", " ++ fmt_d (py_int (ProgressBar.time_per_step pb * 1000))
             ++ " ms/step")%string in
        match ProgressBar.eta pb with
        | None =>
            (ok tt, bar ++ [", calc. ETA..."%string; ms_per_step; clear_line])
        | Some eta =>
            match hms eta with
            | inl err => (inl err, bar)
            | inr (h, m, s) =>
                (ok tt,
                 bar ++ [(", " ++ fmt_hms h m s ++ " left")%string;
                         ms_per_step; clear_line])
            end
        end
    end.

(** [ProgressBar.print_summary()]. *)
Definition ProgressBar_print_summary (pb : ProgressBar.t)
  : result unit * list string :=
  match py_div (ProgressBar.total_duration pb) (inject_Z (ProgressBar.N pb)) with
  | inl err => (inl err, [])
  | inr per_step =>
      let avg_tps := per_step * 1000 in
      match hms (ProgressBar.total_duration pb) with
      | inl err => (inl err, [])
      | inr (h, m, s) =>
          (ok tt,
           [(LF ++ "Total time taken (with compilation): " ++ fmt_hms h m s
               ++ LF)%string;
            ("Average time per iteration (with compilation): "
               ++ fmt_d (py_int avg_tps) ++ " ms" ++ LF ++ LF)%string])
      end
  end.

(** The timer is consistent with a clock that does not run backwards. *)
Definition timer_consistent (pb : ProgressBar.t) : Prop :=
  ProgressBar.start_time pb <= ProgressBar.prev_time pb /\
  0 <= ProgressBar.time_per_step pb /\
  0 <= ProgressBar.avg_time_per_step pb /\
  ProgressBar.total_duration pb
    == ProgressBar.prev_time pb - ProgressBar.start_time pb.

(** A timer three steps into a run of ten, for the examples. *)
Definition test_timer : ProgressBar.t :=
  ProgressBar.mk 10 2 10 "#" 3 (1#1) (4#1) (3#1) (1#1) (1#1) (Some (7#1)).

(** The same timer with a run of no iterations and an averaging window
    of no steps. *)
Definition test_timer_empty : ProgressBar.t :=
  ProgressBar.mk 0 0 10 "#" 3 (1#1) (4#1) (3#1) (1#1) (1#1) (Some (7#1)).

(** ** A test configuration

    A single-process setup in the manner of the scripts of the project:
    a box of 64 cells along z, two azimuthal modes, evenly spaced grids,
    a window that moves with the speed of light. *)

Definition grid_points (n : nat) (xmin dx : Q) : list Q :=
  map (fun k => xmin + (inject_Z (Z.of_nat k) + (1#2)) * dx) (seq 0 n).

Definition test_grid (Nz Nr : Z) (zmin zmax rmax : Q) : InterpolationGrid.t :=
  InterpolationGrid.mk zmin zmax
    (grid_points (Z.to_nat Nz) zmin ((zmax - zmin) / inject_Z Nz))
    (grid_points (Z.to_nat Nr) 0 (rmax / inject_Z Nr))
    (repeat (repeat 0 (Z.to_nat Nr)) (Z.to_nat Nz))
    [].

Definition test_collaborators : Collaborators := {|
  cuda_installed := false;
  e := 1602176634 # 10000000000000000000000000000;
  m_e := 91093837015 # 100000000000000000000000000000000000000000;
  m_p := 167262192369 # 100000000000000000000000000000000000000;
  copropag_length := fun gamma l => map (fun x => x / (2 * gamma)) l;
  static_length := fun gamma l => map (fun x => x / gamma) l;
  static_density := fun gamma l => map (fun x => x * gamma) l;
  longitudinal_momentum := fun gamma l => map (fun x => x - gamma) l;
  new_BoundaryCommunicator :=
    fun Nz Nr n_guard Nm boundaries n_order n_damp use_all_mpi_ranks =>
      BoundaryCommunicator.mk 0 1
        (match n_guard with Some g => g | None => 30%Z end) None;
  divide_into_domain :=
    fun comm zmin zmax p_zmin p_zmax => (zmin, zmax, p_zmin, p_zmax, 64%Z);
  new_Fields :=
    fun Nz zmax Nr rmax Nm dt n_order zmin v_comoving use_galilean use_cuda =>
      Fields.mk Nm (repeat (test_grid Nz Nr zmin zmax rmax) (Z.to_nat Nm));
  new_MovingWindow :=
    fun interp comm exchange_period dt ptcl v p_nz time
        ux_m uy_m uz_m ux_th uy_th uz_th gamma_boost => MovingWindow.mk 0;
  move_grids_window :=
    fun w dt time => MovingWindow.mk (MovingWindow.nz_inject w + 1);
  move_grids_grid := fun w dt time g => shifted_by (c * dt) g
|}.

(** [Nz=64, zmin=0, zmax=20e-6, n_guard=20, dt=1e-16], open boundaries,
    no comoving velocity although [use_galilean=True] is asked for. *)
Definition test_args : Args.t :=
  Args.mk 64 (20 # 1000000) 8 (10 # 1000000) 2 (1 # 10000000000000000)
    0 (20 # 1000000) 0 (10 # 1000000)
    2 2 4 (1 # 1)
    0 (-1)
    None true
    None true
    false false
    (Some 20%Z) 30
    None "open"
    None true
    "linear".


Definition test_species : Particles.t :=
  Particles.mk (-(1#1)) (1#1) (1#1) 8 0 (4#1) 4 0 (2#1) 4 (1#10) None false 0
    (4%nat, 2%nat) "linear" true.

(** A simulation in its fourth iteration: Galilean frame in use, a moving
    window attached, one laser antenna, one diagnostic. *)
Definition test_simulation : Simulation.t :=
  Simulation.mk false (Some (3#1)) true
    (BoundaryCommunicator.mk 0 1 20 (Some (MovingWindow.mk 5)))
    4
    (Fields.mk 2 (repeat (test_grid 4 2 0 (4#1) (2#1)) 2))
    [test_species; test_species]
    (1#10) 2 (3#10) 3%Z true [] [1%nat] [7%nat].

(** The test simulation with [use_cuda] set. *)
Definition test_simulation_cuda : Simulation.t :=
  Simulation.mk true (Some (3#1)) true
    (BoundaryCommunicator.mk 0 1 20 (Some (MovingWindow.mk 5)))
    4
    (Fields.mk 2 (repeat (test_grid 4 2 0 (4#1) (2#1)) 2))
    [test_species; test_species]
    (1#10) 2 (3#10) 3%Z true [] [1%nat] [7%nat].

(** The test simulation with an exchange period of zero. *)
Definition test_simulation_zero_period : Simulation.t :=
  Simulation.mk false (Some (3#1)) true
    (BoundaryCommunicator.mk 0 1 20 (Some (MovingWindow.mk 5)))
    0
    (Fields.mk 2 (repeat (test_grid 4 2 0 (4#1) (2#1)) 2))
    [test_species; test_species]
    (1#10) 2 (3#10) 3%Z true [] [1%nat] [7%nat].

(** The test simulation without a moving window. *)
Definition test_simulation_fixed : Simulation.t :=
  Simulation.mk false (Some (3#1)) true
    (BoundaryCommunicator.mk 0 1 20 None)
    4
    (Fields.mk 2 (repeat (test_grid 4 2 0 (4#1) (2#1)) 2))
    [test_species; test_species]
    (1#10) 2 (3#10) 3%Z true [] [1%nat] [7%nat].

(** The box with a time step of zero and an exchange period given by
    the caller. *)
Definition test_args_override : Args.t :=
  Args.mk 64 (20 # 1000000) 8 (10 # 1000000) 2 0
    0 (20 # 1000000) 0 (10 # 1000000)
    2 2 4 (1 # 1)
    0 (-1)
    None true
    None false
    false false
    (Some 20%Z) 30
    (Some 0%Z) "open"
    None true
    "linear".

(** A box of 100 microns with 64 guard cells, and a time step for which
    the quotient of the exchange period is next to the integer 366.  The
    length and the time step are floats: [1e-4] and
    [4.343282489559272e-16]. *)
Definition test_args_rounding : Args.t :=
  Args.mk 64 (7378697629483821 # 73786976294838206464) 8 (10 # 1000000) 2
    (8809223447760911 # 20282409603651670423947251286016)
    0 (20 # 1000000) 0 (10 # 1000000)
    2 2 4 (1 # 1)
    0 (-1)
    None true
    None false
    false false
    (Some 64%Z) 30
    None "open"
    None true
    "linear".

(** The periodic box again, with a time step of zero. *)
Definition test_args_zero_dt : Args.t :=
  Args.mk 64 (20 # 1000000) 8 (10 # 1000000) 2 0
    0 (20 # 1000000) 0 (10 # 1000000)
    2 2 4 (1 # 1)
    0 (-1)
    None true
    None false
    false false
    (Some 20%Z) 30
    None "periodic"
    None true
    "linear".

(** * Properties of [adapt_to_grid] *)

Lemma Qltb_lt a b : Qltb a b = true <-> a < b.
Proof.
  unfold Qltb. rewrite negb_true_iff.
  split; intro H.
  - apply Qnot_le_lt. intro Hle. apply Qle_bool_iff in Hle. congruence.
  - destruct (Qle_bool b a) eqn:E; [|reflexivity].
    apply Qle_bool_iff in E. exfalso. apply (Qlt_not_le _ _ H E).
Qed.

Lemma Qltb_ge a b : Qltb a b = false <-> b <= a.
Proof.
  unfold Qltb. rewrite negb_false_iff. apply Qle_bool_iff.
Qed.

Lemma Qltb_irrefl a : Qltb a a = false.
Proof. apply Qltb_ge. apply Qle_refl. Qed.

Lemma fold_min_spec t a :
  let m := fold_left (fun m y => if Qltb y m then y else m) t a in
  In m (a :: t) /\ forall y, In y (a :: t) -> m <= y.
Proof.
  revert a. induction t as [|b t IH]; intros a; simpl.
  - split; [now left|]. intros y [<-|[]]. apply Qle_refl.
  - destruct (Qltb b a) eqn:E.
    + destruct (IH b) as [Hin Hle]. apply Qltb_lt in E. split.
      * right. exact Hin.
      * intros y [<-|Hy].
        -- apply Qle_trans with b; [apply Hle; now left|now apply Qlt_le_weak].
        -- now apply Hle.
    + destruct (IH a) as [Hin Hle]. apply Qltb_ge in E. split.
      * destruct Hin as [Hin|Hin]; [left; exact Hin|right; right; exact Hin].
      * intros y [<-|[<-|Hy]].
        -- apply Hle. now left.
        -- apply Qle_trans with a; [apply Hle; now left|exact E].
        -- apply Hle. now right.
Qed.

Lemma fold_max_spec t a :
  let m := fold_left (fun m y => if Qltb m y then y else m) t a in
  In m (a :: t) /\ forall y, In y (a :: t) -> y <= m.
Proof.
  revert a. induction t as [|b t IH]; intros a; simpl.
  - split; [now left|]. intros y [<-|[]]. apply Qle_refl.
  - destruct (Qltb a b) eqn:E.
    + destruct (IH b) as [Hin Hle]. apply Qltb_lt in E. split.
      * right. exact Hin.
      * intros y [<-|Hy].
        -- apply Qle_trans with b; [now apply Qlt_le_weak|apply Hle; now left].
        -- now apply Hle.
    + destruct (IH a) as [Hin Hle]. apply Qltb_ge in E. split.
      * destruct Hin as [Hin|Hin]; [left; exact Hin|right; right; exact Hin].
      * intros y [<-|[<-|Hy]].
        -- apply Hle. now left.
        -- apply Qle_trans with a; [exact E|apply Hle; now left].
        -- apply Hle. now right.
Qed.

Lemma np_min_spec x :
  x <> [] -> exists m, np_min x = ok m /\ is_min m x.
Proof.
  destruct x as [|a t]; [congruence|]. intros _.
  eexists. split; [reflexivity|]. apply fold_min_spec.
Qed.

Lemma np_max_spec x :
  x <> [] -> exists m, np_max x = ok m /\ is_max m x.
Proof.
  destruct x as [|a t]; [congruence|]. intros _.
  eexists. split; [reflexivity|]. apply fold_max_spec.
Qed.

Lemma clamp_lower_max p m :
  (if Qltb p m then m else p) == Qmax p m.
Proof.
  destruct (Qltb p m) eqn:E.
  - apply Qltb_lt in E. symmetry. apply Q.max_r. now apply Qlt_le_weak.
  - apply Qltb_ge in E. symmetry. now apply Q.max_l.
Qed.

Lemma clamp_upper_min p m :
  (if Qltb m p then m else p) == Qmin p m.
Proof.
  destruct (Qltb m p) eqn:E.
  - apply Qltb_lt in E. symmetry. apply Q.min_r. now apply Qlt_le_weak.
  - apply Qltb_ge in E. symmetry. now apply Q.min_l.
Qed.

Lemma in_open_interval a b x xi :
  In xi (filter (fun xi => Qltb a xi && Qltb xi b) x) <->
  In xi x /\ a < xi /\ xi < b.
Proof.
  rewrite filter_In, andb_true_iff, !Qltb_lt. tauto.
Qed.

(** C7. For a grid [x] with at least the two points [x[0]], [x[1]] and
    [p_nx >= 0] particles per cell, [adapt_to_grid] succeeds; the bounds
    it works with are the requested ones clamped to
    [max(p_xmin, min(x) - 0.5*dx)] and
    [min(p_xmax, max(x) + (0.5 - ncells_empty)*dx)]; the selected points
    are those of [x] strictly between the clamped bounds; the count is
    [#selected * p_nx]; a nonzero count returns
    [min(selected) - 0.5*dx] and [max(selected) + 0.5*dx]; no selected
    point returns a zero count and the clamped bounds. *)
Theorem adapt_to_grid_spec :
  forall (x : list Q) (p_xmin p_xmax : Q) (p_nx ncells_empty : Z),
    (2 <= length x)%nat -> (0 <= p_nx)%Z ->
    exists xmin xmax x0 x1 a b,
      is_min xmin x /\ is_max xmax x /\
      nth_error x 0 = Some x0 /\ nth_error x 1 = Some x1 /\
      a == Qmax p_xmin (xmin - (1#2) * (x1 - x0)) /\
      b == Qmin p_xmax (xmax + ((1#2) - inject_Z ncells_empty) * (x1 - x0)) /\
      let sel := filter (fun xi => Qltb a xi && Qltb xi b) x in
      (forall xi, In xi sel <-> In xi x /\ a < xi /\ xi < b) /\
      exists lo hi cnt,
        adapt_to_grid x p_xmin p_xmax p_nx ncells_empty = ok (lo, hi, cnt) /\
        cnt = (Z.of_nat (length sel) * p_nx)%Z /\
        (cnt <> 0%Z ->
         exists smin smax, is_min smin sel /\ is_max smax sel /\
           lo = smin - (1#2) * (x1 - x0) /\ hi = smax + (1#2) * (x1 - x0)) /\
        (sel = [] -> cnt = 0%Z /\ lo = a /\ hi = b).
Proof.
  intros x p_xmin p_xmax p_nx nce Hlen Hn.
  destruct x as [|x0 [|x1 t]]; simpl in Hlen; try lia.
  destruct (np_min_spec (x0 :: x1 :: t)) as (xmin & Emin & Hmin); [discriminate|].
  destruct (np_max_spec (x0 :: x1 :: t)) as (xmax & Emax & Hmax); [discriminate|].
  unfold adapt_to_grid. rewrite Emin, Emax.
  cbn [rbind ok np_get nth_error].
  set (dx := x1 - x0).
  set (a := if Qltb p_xmin (xmin - (1#2) * dx) then xmin - (1#2) * dx else p_xmin).
  set (b := if Qltb (xmax + ((1#2) - inject_Z nce) * dx) p_xmax
            then xmax + ((1#2) - inject_Z nce) * dx else p_xmax).
  exists xmin, xmax, x0, x1, a, b.
  split; [exact Hmin|]. split; [exact Hmax|].
  split; [reflexivity|]. split; [reflexivity|].
  split; [apply clamp_lower_max|]. split; [apply clamp_upper_min|].
  split; [intro xi; apply in_open_interval|].
  - set (sel := filter (fun xi => Qltb a xi && Qltb xi b) (x0 :: x1 :: t)).
    destruct (0 <? Z.of_nat (length sel) * p_nx)%Z eqn:Epos.
    + apply Z.ltb_lt in Epos.
      assert (Hne : sel <> []).
      { intro E. rewrite E in Epos. simpl in Epos. lia. }
      destruct (np_min_spec sel Hne) as (smin & Es & Hs).
      destruct (np_max_spec sel Hne) as (smax & Et & Ht).
      rewrite Es, Et. cbn [rbind ok].
      eexists _, _, _. split; [reflexivity|]. split; [reflexivity|]. split.
      * intros _. exists smin, smax.
        split; [exact Hs|]. split; [exact Ht|]. split; reflexivity.
      * intros E. contradiction.
    + apply Z.ltb_ge in Epos.
      eexists _, _, _. split; [reflexivity|]. split; [reflexivity|]. split.
      * intros Hnz. exfalso. apply Hnz. 
        assert (0 <= Z.of_nat (length sel) * p_nx)%Z by (apply Z.mul_nonneg_nonneg; lia).
        lia.
      * intros E. rewrite E. simpl. repeat split; reflexivity.
Qed.

Lemma evenly_spaced_tail d a t :
  evenly_spaced d (a :: t) = true -> evenly_spaced d t = true.
Proof.
  destruct t as [|b t]; [reflexivity|].
  cbn [evenly_spaced]. intros H. apply andb_true_iff in H. apply H.
Qed.

Lemma evenly_spaced_head_le d a t :
  0 < d -> evenly_spaced d (a :: t) = true ->
  forall v, In v t -> a + d <= v.
Proof.
  intros Hd. revert a. induction t as [|b t IH]; intros a H v Hv; [destruct Hv|].
  pose proof (evenly_spaced_tail _ _ _ H) as Ht.
  cbn [evenly_spaced] in H. apply andb_true_iff in H. destruct H as [Hab _].
  apply Qeq_bool_iff in Hab.
  destruct Hv as [<-|Hv].
  - lra.
  - specialize (IH b Ht v Hv). lra.
Qed.

Lemma grid_discrete d x :
  0 < d -> evenly_spaced d x = true ->
  forall u v, In u x -> In v x -> u < v -> u + d <= v.
Proof.
  intros Hd. induction x as [|a t IH]; intros H u v Hu Hv Huv; [destruct Hu|].
  pose proof (evenly_spaced_head_le d a t Hd H) as Hhead.
  destruct Hu as [<-|Hu], Hv as [<-|Hv].
  - lra.
  - now apply Hhead.
  - specialize (Hhead u Hu). lra.
  - apply IH; auto. eapply evenly_spaced_tail; eauto.
Qed.

Lemma adapt_to_grid_unfold x0 x1 t xmin xmax p_xmin p_xmax p_nx nce :
  np_min (x0 :: x1 :: t) = ok xmin ->
  np_max (x0 :: x1 :: t) = ok xmax ->
  adapt_to_grid (x0 :: x1 :: t) p_xmin p_xmax p_nx nce =
  let dx := x1 - x0 in
  let a := if Qltb p_xmin (xmin - (1#2) * dx)
           then xmin - (1#2) * dx else p_xmin in
  let b := if Qltb (xmax + ((1#2) - inject_Z nce) * dx) p_xmax
           then xmax + ((1#2) - inject_Z nce) * dx else p_xmax in
  let sel := filter (fun xi => Qltb a xi && Qltb xi b) (x0 :: x1 :: t) in
  let Npx := (Z.of_nat (length sel) * p_nx)%Z in
  if (0 <? Npx)%Z then
    rbind (np_min sel) (fun lo =>
    rbind (np_max sel) (fun hi =>
    ok (lo - (1#2) * dx, hi + (1#2) * dx, Npx)))
  else ok (a, b, Npx).
Proof.
  intros Emin Emax. unfold adapt_to_grid. rewrite Emin, Emax. reflexivity.
Qed.

(** C8, amended.  On an evenly spaced grid ([x[i+1] - x[i] = x[1] - x[0] > 0]
    for every [i]) [adapt_to_grid] succeeds and is idempotent: applied
    again to the bounds it returned, with the same [x], [p_nx] and
    [ncells_empty], it returns the same bounds and the same count. *)
Theorem adapt_to_grid_idempotent_uniform :
  forall (x : list Q) (p_xmin p_xmax : Q) (p_nx ncells_empty : Z),
    uniform_grid x = true ->
    exists lo hi cnt,
      adapt_to_grid x p_xmin p_xmax p_nx ncells_empty = ok (lo, hi, cnt) /\
      adapt_to_grid x lo hi p_nx ncells_empty = ok (lo, hi, cnt).
Proof.
  intros x p_xmin p_xmax p_nx nce Hu.
  destruct x as [|x0 [|x1 t]]; try discriminate.
  cbn [uniform_grid] in Hu. apply andb_true_iff in Hu. destruct Hu as [Hd Hes].
  apply Qltb_lt in Hd.
  destruct (np_min_spec (x0 :: x1 :: t)) as (xmin & Emin & Hmin); [discriminate|].
  destruct (np_max_spec (x0 :: x1 :: t)) as (xmax & Emax & Hmax); [discriminate|].
  pose proof (grid_discrete _ _ Hd Hes) as Hgrid.
  rewrite (adapt_to_grid_unfold _ _ _ _ _ _ _ _ _ Emin Emax). cbv zeta.
  set (dx := x1 - x0) in *.
  set (L := xmin - (1#2) * dx).
  set (U := xmax + ((1#2) - inject_Z nce) * dx).
  set (a := if Qltb p_xmin L then L else p_xmin).
  set (b := if Qltb U p_xmax then U else p_xmax).
  assert (Ha : L <= a).
  { unfold a. destruct (Qltb p_xmin L) eqn:E; [apply Qle_refl|now apply Qltb_ge]. }
  assert (Hb : b <= U).
  { unfold b. destruct (Qltb U p_xmax) eqn:E; [apply Qle_refl|now apply Qltb_ge]. }
  set (sel := filter (fun xi => Qltb a xi && Qltb xi b) (x0 :: x1 :: t)).
  destruct (0 <? Z.of_nat (length sel) * p_nx)%Z eqn:Epos.
  - assert (Hne : sel <> []).
    { intro E. rewrite E in Epos. discriminate. }
    destruct (np_min_spec sel Hne) as (smin & Es & Hsmin & Hsle).
    destruct (np_max_spec sel Hne) as (smax & Et & Hsmax & Hsge).
    rewrite Es, Et. cbn [rbind ok].
    eexists _, _, _. split; [reflexivity|].
    rewrite (adapt_to_grid_unfold _ _ _ _ _ _ _ _ _ Emin Emax). cbv zeta.
    fold dx L U.
    apply in_open_interval in Hsmin. destruct Hsmin as (Hsmin_x & Hsmin_a & Hsmin_b).
    apply in_open_interval in Hsmax. destruct Hsmax as (Hsmax_x & Hsmax_a & Hsmax_b).
    assert (E1 : Qltb (smin - (1#2) * dx) L = false).
    { apply Qltb_ge. unfold L. destruct Hmin as [_ Hmin].
      specialize (Hmin smin Hsmin_x). lra. }
    rewrite E1.
    set (b2 := if Qltb U (smax + (1#2) * dx) then U else smax + (1#2) * dx).
    assert (Hb2 : b2 <= smax + (1#2) * dx).
    { unfold b2. destruct (Qltb U (smax + (1#2) * dx)) eqn:E;
        [apply Qltb_lt in E; lra|apply Qle_refl]. }
    assert (Hb2' : smax < b2).
    { unfold b2. destruct (Qltb U (smax + (1#2) * dx)) eqn:E; lra. }
    assert (Esel : filter (fun xi => Qltb (smin - (1#2) * dx) xi && Qltb xi b2)
                     (x0 :: x1 :: t) = sel).
    { unfold sel. apply filter_ext_in. intros xi Hxi.
      apply eq_true_iff_eq. rewrite !andb_true_iff, !Qltb_lt. split.
      - intros [H1 H2]. split.
        + destruct (Qlt_le_dec xi smin) as [Hlt|Hge]; [|lra].
          specialize (Hgrid xi smin Hxi Hsmin_x Hlt). lra.
        + destruct (Qlt_le_dec smax xi) as [Hlt|Hge]; [|lra].
          specialize (Hgrid smax xi Hsmax_x Hxi Hlt). lra.
      - intros [H1 H2].
        assert (Hin : In xi sel) by (apply in_open_interval; auto).
        specialize (Hsle xi Hin). specialize (Hsge xi Hin). split; lra. }
    rewrite Esel. rewrite Epos, Es, Et. reflexivity.
  - eexists _, _, _. split; [reflexivity|].
    rewrite (adapt_to_grid_unfold _ _ _ _ _ _ _ _ _ Emin Emax). cbv zeta.
    fold dx L U.
    assert (E1 : Qltb a L = false) by (now apply Qltb_ge).
    assert (E2 : Qltb U b = false) by (now apply Qltb_ge).
    rewrite E1, E2. fold sel. rewrite Epos. reflexivity.
Qed.

(** * Running the monad *)

Lemma bind_run {A B} (m : M A) (k : A -> M B) s a s1 l :
  m s = (ok a, s1, l) -> bind m k s = prepend l (k a s1).
Proof.
  unfold bind, prepend, ok. intros ->.
  destruct (k a s1) as [[rb s2] l2]. reflexivity.
Qed.

Lemma bind_fail {A B} (m : M A) (k : A -> M B) s e s1 l :
  m s = (inl e, s1, l) -> bind m k s = (inl e, s1, l).
Proof. unfold bind. intros ->. reflexivity. Qed.

Lemma prepend_nil {A} (x : result A * Simulation.t * list call) :
  prepend [] x = x.
Proof. destruct x as [[ra s] l]. reflexivity. Qed.

Lemma prepend_prepend {A} l1 l2 (x : result A * Simulation.t * list call) :
  prepend l1 (prepend l2 x) = prepend (l1 ++ l2) x.
Proof. destruct x as [[ra s] l]. unfold prepend. now rewrite app_assoc. Qed.

Lemma prepend_triple {A} l1 (ra : result A) s l :
  prepend l1 (ra, s, l) = (ra, s, l1 ++ l).
Proof. reflexivity. Qed.

Lemma for_each_emit {A} (l : list A) (body : A -> M unit) (g : A -> list call) s :
  (forall a, body a s = (ok tt, s, g a)) ->
  for_each l body s = (ok tt, s, flat_map g l).
Proof.
  intros Hbody. induction l as [|a t IH]; [reflexivity|].
  cbn [for_each flat_map].
  rewrite (bind_run _ _ _ _ _ _ (Hbody a)), IH. reflexivity.
Qed.

Lemma flat_map_singleton {A B} (f : A -> B) (l : list A) :
  flat_map (fun a => [f a]) l = map f l.
Proof. induction l as [|a t IH]; [reflexivity|]. cbn. now rewrite IH. Qed.

Lemma for_species_run (f : nat -> call) s :
  for_species f s = (ok tt, s, map f (indices (Simulation.ptcl s))).
Proof.
  unfold for_species.
  rewrite (bind_run _ _ _ _ _ _ (eq_refl : gets Simulation.ptcl s = _)).
  rewrite (for_each_emit _ _ (fun sp => [f sp])) by reflexivity.
  rewrite flat_map_singleton. reflexivity.
Qed.

Lemma when_run (b : bool) (m : M unit) s l :
  m s = (ok tt, s, l) -> when b m s = (ok tt, s, if b then l else []).
Proof. intros H. destruct b; [exact H|reflexivity]. Qed.

(** ** [deposit] *)

Lemma deposit_run s fieldtype kind :
  field_of fieldtype = Some kind ->
  deposit fieldtype s = (ok tt, s, deposit_calls s fieldtype kind).
Proof.
  unfold field_of, deposit, deposit_calls. intros H.
  assert (Hloops : forall k : string,
    (emit (fld_erase k) ;;
     ptcl <- gets Simulation.ptcl ;;
     for_each (indices ptcl) (fun species => emit (species_deposit species k)) ;;
     antennas <- gets Simulation.laser_antennas ;;
     for_each antennas (fun antenna => emit (antenna_deposit antenna k)) ;;
     emit (fld_divide_by_volume k) ;;
     emit (comm_exchange_fields k)) s =
    (ok tt, s,
     [fld_erase k]
     ++ map (fun species => species_deposit species k) (indices (Simulation.ptcl s))
     ++ map (fun antenna => antenna_deposit antenna k) (Simulation.laser_antennas s)
     ++ [fld_divide_by_volume k; comm_exchange_fields k])).
  { intros k.
    rewrite (bind_run _ _ _ _ _ _ (eq_refl : emit _ s = _)).
    rewrite (bind_run _ _ _ _ _ _ (eq_refl : gets _ s = _)).
    erewrite bind_run
      by (apply (for_each_emit _ _ (fun sp => [species_deposit sp k])); reflexivity).
    rewrite (bind_run _ _ _ _ _ _ (eq_refl : gets _ s = _)).
    erewrite bind_run
      by (apply (for_each_emit _ _ (fun a => [antenna_deposit a k])); reflexivity).
    rewrite (bind_run _ _ _ _ _ _ (eq_refl : emit _ s = _)).
    rewrite !flat_map_singleton. reflexivity. }
  destruct ((fieldtype =? "rho_prev")%string || (fieldtype =? "rho_next")%string).
  - injection H as <-.
    rewrite (bind_run _ _ _ _ _ _ (Hloops _)).
    rewrite (bind_run _ _ _ _ _ _ (eq_refl : emit _ s = _)).
    rewrite (bind_run _ _ _ _ _ _ (eq_refl : gets _ s = _)).
    destruct (Simulation.filter_currents s); cbn; rewrite <- !app_assoc; reflexivity.
  - destruct (fieldtype =? "J")%string; [|discriminate].
    injection H as <-.
    rewrite (bind_run _ _ _ _ _ _ (Hloops _)).
    rewrite (bind_run _ _ _ _ _ _ (eq_refl : emit _ s = _)).
    rewrite (bind_run _ _ _ _ _ _ (eq_refl : gets _ s = _)).
    destruct (Simulation.filter_currents s); cbn; rewrite <- !app_assoc; reflexivity.
Qed.

Lemma deposit_unknown s fieldtype :
  field_of fieldtype = None ->
  deposit fieldtype s = (inl (ValueError ("Unknown fieldtype: " ++ fieldtype)), s, []).
Proof.
  unfold field_of, deposit. intros H.
  destruct ((fieldtype =? "rho_prev")%string || (fieldtype =? "rho_next")%string);
    [discriminate|].
  destruct (fieldtype =? "J")%string; [discriminate|].
  reflexivity.
Qed.

(** ** [shift_galilean_boundaries] *)

Lemma for_each_app {A} (l1 l2 : list A) (body : A -> M unit) s s1 c1 :
  for_each l1 body s = (ok tt, s1, c1) ->
  for_each (l1 ++ l2) body s = prepend c1 (for_each l2 body s1).
Proof.
  revert s c1. induction l1 as [|a t IH]; intros s c1 H.
  - cbn in H. injection H as <- <-. now rewrite prepend_nil.
  - cbn [for_each app] in *. unfold bind in *.
    destruct (body a s) as [[[e|[]] sa] la]; [discriminate|].
    destruct (for_each t body sa) as [[rt st] lt] eqn:Et.
    injection H as -> -> <-.
    rewrite (IH _ _ Et).
    destruct (for_each l2 body s1) as [[r2 s2] c2]. cbn.
    now rewrite app_assoc.
Qed.

Lemma list_update_middle {A} (pre post : list A) (g : A) (f : A -> A) :
  list_update (pre ++ g :: post) (length pre) f = Some (pre ++ f g :: post).
Proof.
  induction pre as [|a t IH]; [reflexivity|].
  cbn. now rewrite IH.
Qed.

Lemma firstn_skipn_next {A} (l : list A) (k : nat) :
  (k < length l)%nat ->
  exists g, skipn k l = g :: skipn (S k) l /\ firstn (S k) l = firstn k l ++ [g].
Proof.
  revert k. induction l as [|a t IH]; intros k Hk; [cbn in Hk; lia|].
  destruct k as [|k].
  - exists a. split; reflexivity.
  - cbn in Hk. destruct (IH k) as (g & H1 & H2); [lia|].
    exists g. split; [exact H1|].
    change (firstn (S (S k)) (a :: t)) with (a :: firstn (S k) t).
    rewrite H2. reflexivity.
Qed.

Lemma update_interp_run k f s pre g post :
  Fields.interp (Simulation.fld s) = pre ++ g :: post ->
  k = length pre ->
  update_interp k f s =
  (ok tt,
   Simulation.set_fld
     (Fields.mk (Fields.Nm (Simulation.fld s)) (pre ++ f g :: post)) s,
   []).
Proof.
  intros E ->. unfold update_interp.
  rewrite (bind_run _ _ _ _ _ _ (eq_refl : gets _ s = _)), prepend_nil.
  rewrite E, list_update_middle. reflexivity.
Qed.

Lemma shift_loop_run (d : Q) (k : nat) s :
  (k <= length (Fields.interp (Simulation.fld s)))%nat ->
  for_each (seq 0 k) (fun m =>
    update_interp m (fun g =>
      InterpolationGrid.set_zmin (InterpolationGrid.zmin g + d) g) ;;
    update_interp m (fun g =>
      InterpolationGrid.set_zmax (InterpolationGrid.zmax g + d) g) ;;
    update_interp m (fun g =>
      InterpolationGrid.set_z (map (fun zi => zi + d) (InterpolationGrid.z g)) g)) s
  = (ok tt,
     Simulation.set_fld
       (Fields.mk (Fields.Nm (Simulation.fld s))
          (shift_first k d (Fields.interp (Simulation.fld s)))) s,
     []).
Proof.
  induction k as [|k IH]; intros Hk.
  - destruct s as [? ? ? ? ? [Nm interp] ? ? ? ? ? ? ? ? ?]. reflexivity.
  - rewrite seq_S. cbn [plus].
    rewrite (for_each_app _ _ _ _ _ _ (IH ltac:(lia))), prepend_nil.
    cbn [for_each].
    set (l := Fields.interp (Simulation.fld s)) in *.
    destruct (firstn_skipn_next l k Hk) as (g & Hskip & Hfirst).
    assert (Hlen : k = length (map (shifted_by d) (firstn k l))).
    { rewrite length_map, length_firstn. lia. }
    erewrite bind_run; cycle 1.
    { erewrite bind_run; cycle 1.
      { eapply update_interp_run; [cbn; unfold shift_first; rewrite Hskip; reflexivity|exact Hlen]. }
      rewrite prepend_nil.
      erewrite bind_run; cycle 1.
      { eapply update_interp_run; [cbn; reflexivity|exact Hlen]. }
      rewrite prepend_nil.
      eapply update_interp_run; [cbn; reflexivity|exact Hlen]. }
    unfold shift_first. rewrite Hfirst, map_app, <- app_assoc.
    destruct g. reflexivity.
Qed.

Lemma shift_galilean_boundaries_run s v :
  Simulation.v_comoving s = Some v ->
  (Z.to_nat (Fields.Nm (Simulation.fld s))
     <= length (Fields.interp (Simulation.fld s)))%nat ->
  shift_galilean_boundaries s =
  (ok tt, shifted_state (v * (1#2) * Simulation.dt s) s,
   [self_shift_galilean_boundaries]).
Proof.
  intros Hv Hk. unfold shift_galilean_boundaries.
  rewrite (bind_run _ _ _ _ _ _ (eq_refl : emit _ s = _)).
  rewrite (bind_run _ _ _ _ _ _ (eq_refl : gets _ s = _)), prepend_nil.
  rewrite (bind_run _ _ _ _ _ _ (eq_refl : gets _ s = _)), prepend_nil.
  rewrite Hv.
  rewrite (bind_run _ _ _ _ _ _ (eq_refl : ret _ s = _)), prepend_nil.
  rewrite (bind_run _ _ _ _ _ _ (eq_refl : gets _ s = _)), prepend_nil.
  rewrite (shift_loop_run _ _ _ Hk). reflexivity.
Qed.

Lemma shift_galilean_boundaries_None s :
  Simulation.v_comoving s = None ->
  shift_galilean_boundaries s = (inl TypeError, s, [self_shift_galilean_boundaries]).
Proof.
  intros Hv. unfold shift_galilean_boundaries.
  rewrite (bind_run _ _ _ _ _ _ (eq_refl : emit _ s = _)).
  rewrite (bind_run _ _ _ _ _ _ (eq_refl : gets _ s = _)), prepend_nil.
  rewrite (bind_run _ _ _ _ _ _ (eq_refl : gets _ s = _)), prepend_nil.
  rewrite Hv. reflexivity.
Qed.

(** ** One iteration of the loop of [step] *)

Lemma same_setup_refl s : same_setup s s.
Proof. repeat split. Qed.

Lemma same_setup_trans s1 s2 s3 :
  same_setup s1 s2 -> same_setup s2 s3 -> same_setup s1 s3.
Proof.
  unfold same_setup. intros H1 H2.
  repeat match goal with H : _ /\ _ |- _ => destruct H end.
  repeat split; congruence.
Qed.

Lemma shift_first_length k d l : length (shift_first k d l) = length l.
Proof.
  unfold shift_first.
  rewrite length_app, length_map, <- length_app, firstn_skipn. reflexivity.
Qed.

Lemma same_setup_after_move_grids K s : same_setup s (after_move_grids K s).
Proof.
  unfold after_move_grids.
  destruct (BoundaryCommunicator.moving_win (Simulation.comm s));
    [|apply same_setup_refl].
  repeat split. cbn. apply length_map.
Qed.

Lemma same_setup_after_exchange i s : same_setup s (after_exchange i s).
Proof.
  unfold after_exchange.
  destruct (exchange_due s i); [|apply same_setup_refl].
  destruct (BoundaryCommunicator.moving_win (Simulation.comm s));
    [|apply same_setup_refl].
  repeat split.
Qed.

Lemma same_setup_unsorted s : same_setup s (unsorted s).
Proof. repeat split. cbn. apply length_map. Qed.

Lemma same_setup_shifted_state d s : same_setup s (shifted_state d s).
Proof. repeat split. cbn. apply shift_first_length. Qed.

Lemma same_setup_galilean_shifted s : same_setup s (galilean_shifted s).
Proof.
  unfold galilean_shifted.
  destruct (Simulation.use_galilean s); [|apply same_setup_refl].
  destruct (Simulation.v_comoving s); [|apply same_setup_refl].
  apply same_setup_shifted_state.
Qed.

Lemma same_setup_indices s s' :
  same_setup s s' -> indices (Simulation.ptcl s') = indices (Simulation.ptcl s).
Proof. intros H. unfold indices. f_equal. apply H. Qed.

Lemma same_setup_deposit_calls s s' ft k :
  same_setup s s' -> deposit_calls s' ft k = deposit_calls s ft k.
Proof.
  intros H. unfold deposit_calls. rewrite (same_setup_indices _ _ H).
  unfold same_setup in H.
  repeat match goal with H : _ /\ _ |- _ => destruct H end.
  repeat match goal with E : _ s' = _ |- _ => rewrite E; clear E end.
  reflexivity.
Qed.

Lemma same_setup_shift_calls s s' :
  same_setup s s' -> shift_calls s' = shift_calls s.
Proof.
  intros H. unfold shift_calls.
  replace (Simulation.use_galilean s') with (Simulation.use_galilean s);
    [reflexivity|symmetry; apply H].
Qed.

Lemma same_setup_galilean_ready s s' :
  same_setup s s' -> galilean_ready s' = galilean_ready s.
Proof.
  intros H. unfold galilean_ready, same_setup in *.
  repeat match goal with H : _ /\ _ |- _ => destruct H end.
  repeat match goal with E : _ = _ |- _ => rewrite E; clear E end.
  reflexivity.
Qed.

Lemma same_setup_exchange_due s s' i :
  same_setup s s' -> exchange_due s' i = exchange_due s i.
Proof.
  intros H. unfold exchange_due, same_setup in *.
  repeat match goal with H : _ /\ _ |- _ => destruct H end.
  congruence.
Qed.

Lemma move_phase_run K s :
  (match BoundaryCommunicator.moving_win (Simulation.comm s) with
   | Some w => move_grids K w
   | None => ret tt
   end) s =
  (ok tt, after_move_grids K s,
   match BoundaryCommunicator.moving_win (Simulation.comm s) with
   | Some _ => [comm_move_grids (Simulation.dt s) (Simulation.time s)]
   | None => []
   end).
Proof.
  unfold after_move_grids.
  destruct (BoundaryCommunicator.moving_win (Simulation.comm s)); reflexivity.
Qed.

Lemma exchange_phase_run i s :
  when ((Simulation.iteration s mod Simulation.exchange_period s =? 0)%Z
        || (i =? 0)%Z)
    (ptcl <- gets Simulation.ptcl ;;
     for_each (indices ptcl) (fun species =>
       time <- gets Simulation.time ;;
       emit (comm_exchange_particles species time)) ;;
     moving_win <- gets (fun s => BoundaryCommunicator.moving_win (Simulation.comm s)) ;;
     match moving_win with
     | Some _ =>
         modify (fun s =>
           Simulation.set_comm
             (BoundaryCommunicator.set_moving_win (Some (MovingWindow.mk 0%Z))
                (Simulation.comm s)) s)
     | None => ret tt
     end) s =
  (ok tt, after_exchange i s,
   if exchange_due s i
   then map (fun sp => comm_exchange_particles sp (Simulation.time s))
          (indices (Simulation.ptcl s))
   else []).
Proof.
  unfold after_exchange, exchange_due.
  destruct ((Simulation.iteration s mod Simulation.exchange_period s =? 0)%Z
            || (i =? 0)%Z); [|reflexivity].
  cbn [when].
  rewrite (bind_run _ _ _ _ _ _ (eq_refl : gets _ s = _)), prepend_nil.
  erewrite bind_run
    by (apply (for_each_emit _ _
                 (fun sp => [comm_exchange_particles sp (Simulation.time s)]));
        reflexivity).
  rewrite (bind_run _ _ _ _ _ _ (eq_refl : gets _ s = _)), prepend_nil.
  rewrite flat_map_singleton.
  destruct (BoundaryCommunicator.moving_win (Simulation.comm s));
    cbn; now rewrite app_nil_r.
Qed.

Lemma galilean_phase_run s :
  galilean_ready s = true ->
  when (Simulation.use_galilean s) shift_galilean_boundaries s =
  (ok tt, galilean_shifted s, shift_calls s).
Proof.
  unfold galilean_ready, galilean_shifted, shift_calls.
  destruct (Simulation.use_galilean s); [|reflexivity].
  cbn [implb when]. intros H. apply andb_true_iff in H. destruct H as [Hv Hk].
  destruct (Simulation.v_comoving s) as [v|] eqn:Ev; [|discriminate].
  apply Nat.leb_le in Hk.
  apply shift_galilean_boundaries_run; assumption.
Qed.

Lemma py_mod_ok a b : b <> 0%Z -> py_mod a b = ok (a mod b)%Z.
Proof.
  intros Hb. unfold py_mod. destruct (Z.eqb_spec b 0); [contradiction|reflexivity].
Qed.

Ltac run_gets :=
  match goal with
  | |- context [bind (gets ?f) ?k ?s] =>
      rewrite (bind_run (gets f) k s _ _ _ eq_refl), prepend_nil
  end.

Ltac run_emit :=
  match goal with
  | |- context [bind (emit ?cl) ?k ?s] =>
      rewrite (bind_run (emit cl) k s _ _ _ eq_refl)
  end.

Lemma step_iteration_run K N i cc cd utr mp mm sp s :
  Simulation.exchange_period s <> 0%Z ->
  galilean_ready s = true ->
  step_iteration K N i cc cd utr mp mm sp s =
  (ok tt, iteration_state K i s, iteration_calls K N i cc cd utr mp mm sp s).
Proof.
  intros Hep Hgal.
  pose proof (same_setup_after_move_grids K s) as H1.
  set (s1 := after_move_grids K s) in *.
  pose proof (same_setup_trans _ _ _ H1 (same_setup_after_exchange i s1)) as H2.
  set (s2 := after_exchange i s1) in *.
  pose proof (same_setup_trans _ _ _ H2 (same_setup_unsorted s2)) as H3.
  set (s3 := unsorted s2) in *.
  pose proof (same_setup_trans _ _ _ H3 (same_setup_galilean_shifted s3)) as H4.
  set (s4 := galilean_shifted s3) in *.
  pose proof (same_setup_trans _ _ _ H4 (same_setup_galilean_shifted s4)) as H5.
  set (s5 := galilean_shifted s4) in *.
  assert (Hg3 : galilean_ready s3 = true)
    by (now rewrite (same_setup_galilean_ready _ _ H3)).
  assert (Hg4 : galilean_ready s4 = true)
    by (now rewrite (same_setup_galilean_ready _ _ H4)).
  unfold step_iteration.
  (* messages and diagnostics *)
  run_gets.
  erewrite bind_run by (apply when_run; reflexivity).
  run_gets.
  erewrite bind_run
    by (apply (for_each_emit _ _
                 (fun d => [diag_write d (Simulation.iteration s)])); reflexivity).
  rewrite flat_map_singleton.
  (* exchanges *)
  run_gets.
  rewrite (bind_run _ _ _ _ _ _ (move_phase_run K s)). fold s1.
  run_emit. run_gets. run_gets.
  assert (Hep1 : Simulation.exchange_period s1 <> 0%Z).
  { replace (Simulation.exchange_period s1) with (Simulation.exchange_period s);
      [exact Hep|symmetry; apply H1]. }
  rewrite (py_mod_ok _ _ Hep1).
  rewrite (bind_run (lift _) _ s1 _ _ _ eq_refl), prepend_nil.
  rewrite (bind_run _ _ _ _ _ _ (exchange_phase_run i s1)). fold s2.
  (* standard PIC loop *)
  rewrite (bind_run _ _ _ _ _ _ (for_species_run _ s2)).
  run_gets.
  erewrite bind_run
    by (apply (for_each_emit _ _
                 (fun f => [ext_field_apply_expression f (Simulation.time s2)]));
        reflexivity).
  rewrite flat_map_singleton.
  rewrite (bind_run (modify _) _ s2 tt s3 [] eq_refl), prepend_nil.
  rewrite (bind_run _ _ _ _ _ _ (deposit_run s3 "rho_prev" "rho" eq_refl)).
  rewrite (bind_run _ _ _ _ _ _ (for_species_run _ s3)).
  erewrite bind_run by (apply when_run; apply for_species_run).
  erewrite bind_run by (apply when_run; apply for_species_run).
  run_gets.
  erewrite bind_run
    by (apply (for_each_emit _ _
                 (fun a => [antenna_update_v a
                              (Simulation.time s3 + (1#2) * Simulation.dt s3);
                            antenna_halfpush_x a (Simulation.dt s3)]));
        reflexivity).
  run_gets.
  rewrite (bind_run _ _ _ _ _ _ (galilean_phase_run s3 Hg3)). fold s4.
  rewrite (bind_run _ _ _ _ _ _ (deposit_run s4 "J" "J" eq_refl)).
  erewrite bind_run by (apply when_run; apply for_species_run).
  run_gets.
  erewrite bind_run
    by (apply (for_each_emit _ _
                 (fun a => [antenna_halfpush_x a (Simulation.dt s4)]));
        reflexivity).
  rewrite flat_map_singleton.
  run_gets.
  rewrite (bind_run _ _ _ _ _ _ (galilean_phase_run s4 Hg4)). fold s5.
  rewrite (bind_run _ _ _ _ _ _ (deposit_run s5 "rho_next" "rho" eq_refl)).
  erewrite bind_run by (apply when_run; reflexivity).
  run_emit. run_emit. run_emit. run_emit.
  erewrite bind_run by (apply when_run; reflexivity).
  run_emit. run_emit.
  rewrite (bind_run (modify _) _ s5 tt _ [] eq_refl), prepend_nil.
  unfold modify. rewrite !prepend_triple.
  rewrite (same_setup_exchange_due _ _ i H1).
  rewrite (same_setup_indices _ _ H1), (same_setup_indices _ _ H2),
    (same_setup_indices _ _ H3), (same_setup_indices _ _ H4).
  rewrite (same_setup_deposit_calls _ _ _ _ H3),
    (same_setup_deposit_calls _ _ _ _ H4), (same_setup_deposit_calls _ _ _ _ H5).
  rewrite (same_setup_shift_calls _ _ H3), (same_setup_shift_calls _ _ H4).
  unfold same_setup in H1, H2, H3, H4.
  repeat match goal with H : _ /\ _ |- _ => destruct H end.
  repeat match goal with E : _ = _ |- _ => rewrite E; clear E end.
  reflexivity.
Qed.

Lemma pre_advance_setup K i s :
  same_setup s
    (galilean_shifted
       (galilean_shifted (unsorted (after_exchange i (after_move_grids K s))))).
Proof.
  pose proof (same_setup_after_move_grids K s) as H1.
  pose proof (same_setup_trans _ _ _ H1 (same_setup_after_exchange i _)) as H2.
  pose proof (same_setup_trans _ _ _ H2 (same_setup_unsorted _)) as H3.
  pose proof (same_setup_trans _ _ _ H3 (same_setup_galilean_shifted _)) as H4.
  exact (same_setup_trans _ _ _ H4 (same_setup_galilean_shifted _)).
Qed.

(** What an iteration leaves unchanged, and how it advances the clock. *)
Lemma iteration_state_frame K i s :
  let s' := iteration_state K i s in
  Simulation.exchange_period s' = Simulation.exchange_period s /\
  Simulation.dt s' = Simulation.dt s /\
  Simulation.use_cuda s' = Simulation.use_cuda s /\
  Simulation.use_galilean s' = Simulation.use_galilean s /\
  Simulation.v_comoving s' = Simulation.v_comoving s /\
  BoundaryCommunicator.rank (Simulation.comm s')
    = BoundaryCommunicator.rank (Simulation.comm s) /\
  galilean_ready s' = galilean_ready s /\
  Simulation.iteration s' = (Simulation.iteration s + 1)%Z /\
  Simulation.time s' = Simulation.time s + Simulation.dt s.
Proof.
  pose proof (pre_advance_setup K i s) as H.
  pose proof (same_setup_galilean_ready _ _ H) as Hg.
  unfold iteration_state, advanced.
  set (s5 := galilean_shifted _) in *.
  unfold galilean_ready in *. cbn.
  unfold same_setup in H.
  repeat match goal with H : _ /\ _ |- _ => destruct H end.
  repeat split; try assumption; congruence.
Qed.

Lemma loop_run K N cc cd utr mp mm sp steps s :
  Simulation.exchange_period s <> 0%Z ->
  galilean_ready s = true ->
  for_each steps (fun i_step => step_iteration K N i_step cc cd utr mp mm sp) s =
  (ok tt, loop_state K steps s, loop_calls K N cc cd utr mp mm sp steps s).
Proof.
  revert s. induction steps as [|i rest IH]; intros s Hep Hgal; [reflexivity|].
  cbn [for_each loop_state loop_calls].
  rewrite (bind_run _ _ _ _ _ _ (step_iteration_run K N i cc cd utr mp mm sp s Hep Hgal)).
  destruct (iteration_state_frame K i s) as (E1 & _ & _ & _ & _ & _ & E2 & _).
  rewrite IH; [reflexivity| |].
  - now rewrite E1.
  - now rewrite E2.
Qed.

Lemma loop_state_frame K steps s :
  let s' := loop_state K steps s in
  Simulation.exchange_period s' = Simulation.exchange_period s /\
  Simulation.dt s' = Simulation.dt s /\
  Simulation.use_cuda s' = Simulation.use_cuda s /\
  Simulation.use_galilean s' = Simulation.use_galilean s /\
  Simulation.v_comoving s' = Simulation.v_comoving s /\
  BoundaryCommunicator.rank (Simulation.comm s')
    = BoundaryCommunicator.rank (Simulation.comm s) /\
  galilean_ready s' = galilean_ready s /\
  Simulation.iteration s' = (Simulation.iteration s + Z.of_nat (length steps))%Z /\
  Simulation.time s' == Simulation.time s
                        + inject_Z (Z.of_nat (length steps)) * Simulation.dt s.
Proof.
  revert s. induction steps as [|i rest IH]; intros s.
  - cbn. repeat split; try reflexivity; try lia. cbn. ring.
  - cbn [loop_state length].
    destruct (IH (iteration_state K i s))
      as (E1 & E2 & E3 & E4 & E5 & E6 & E7 & E8 & E9).
    destruct (iteration_state_frame K i s)
      as (F1 & F2 & F3 & F4 & F5 & F6 & F7 & F8 & F9).
    cbv zeta. repeat split; try congruence.
    + rewrite E8, F8. lia.
    + rewrite E9, F9, F2. rewrite Nat2Z.inj_succ, <- Z.add_1_r, inject_Z_plus.
      ring.
Qed.

Lemma py_range_length N : Z.of_nat (length (py_range N)) = Z.max 0 N.
Proof. unfold py_range. rewrite length_map, length_seq. lia. Qed.

Lemma step_run K N cc cd utr mp mm sp s :
  Simulation.exchange_period s <> 0%Z ->
  galilean_ready s = true ->
  step K N cc cd utr mp mm sp s =
  (ok tt, loop_state K (py_range N) s,
   (if Simulation.use_cuda s then [send_data_to_gpu] else [])
   ++ loop_calls K N cc cd utr mp mm sp (py_range N) s
   ++ (if Simulation.use_cuda s then [receive_data_from_gpu] else [])
   ++ (if sp && (BoundaryCommunicator.rank (Simulation.comm s) =? 0)%Z
       then [print_time_taken] else [])).
Proof.
  intros Hep Hgal. unfold step.
  run_gets.
  erewrite bind_run by (apply when_run; reflexivity).
  rewrite (bind_run _ _ _ _ _ _ (loop_run K N cc cd utr mp mm sp _ s Hep Hgal)).
  destruct (loop_state_frame K (py_range N) s) as (_ & _ & E3 & _ & _ & E6 & _).
  run_gets.
  erewrite bind_run by (apply when_run; reflexivity).
  run_gets.
  erewrite when_run by reflexivity.
  rewrite !prepend_triple, E3, E6. reflexivity.
Qed.

(** ** Selecting calls from the trace of an iteration *)

Lemma filter_map_false {A} (p : call -> bool) (f : A -> call) (l : list A) :
  (forall a, p (f a) = false) -> filter p (map f l) = [].
Proof.
  intros H. induction l as [|a t IH]; [reflexivity|].
  cbn. now rewrite H.
Qed.

Lemma filter_map_true {A} (p : call -> bool) (f : A -> call) (l : list A) :
  (forall a, p (f a) = true) -> filter p (map f l) = map f l.
Proof.
  intros H. induction l as [|a t IH]; [reflexivity|].
  cbn. now rewrite H, IH.
Qed.

Lemma filter_if {A} (p : A -> bool) (b : bool) (l1 l2 : list A) :
  filter p (if b then l1 else l2) = if b then filter p l1 else filter p l2.
Proof. now destruct b. Qed.

Lemma filter_flat_map {A B} (p : B -> bool) (g : A -> list B) (l : list A) :
  filter p (flat_map g l) = flat_map (fun a => filter p (g a)) l.
Proof.
  induction l as [|a t IH]; [reflexivity|].
  cbn. now rewrite filter_app, IH.
Qed.

Ltac filter_pieces :=
  repeat first
    [ rewrite filter_app
    | rewrite filter_if
    | rewrite filter_flat_map
    | rewrite filter_map_false by (intro; reflexivity)
    | rewrite filter_map_true by (intro; reflexivity) ].

Lemma if_same {A} (b : bool) (x : A) : (if b then x else x) = x.
Proof. now destruct b. Qed.

Lemma flat_map_nil {A B} (l : list A) : flat_map (fun _ => @nil B) l = [].
Proof. induction l as [|a t IH]; [reflexivity|exact IH]. Qed.

Ltac filter_calls :=
  unfold iteration_calls, deposit_calls, shift_calls;
  filter_pieces;
  match goal with
  | |- context [BoundaryCommunicator.moving_win (Simulation.comm ?s)] =>
      destruct (BoundaryCommunicator.moving_win (Simulation.comm s))
  end;
  cbn [filter is_shift is_exchange_EB is_exchange_particles
       is_species_halfpush is_antenna_halfpush app
       String.eqb Ascii.eqb Bool.eqb];
  rewrite ?if_same, ?flat_map_nil, ?flat_map_singleton;
  cbn [app]; rewrite ?app_nil_r.

Lemma iteration_calls_shift K N i cc cd utr mp mm sp s :
  filter is_shift (iteration_calls K N i cc cd utr mp mm sp s)
  = shift_calls s ++ shift_calls s.
Proof. filter_calls; reflexivity. Qed.


Lemma iteration_calls_exchange K N i cc cd utr mp mm sp s :
  filter is_exchange_particles (iteration_calls K N i cc cd utr mp mm sp s)
  = if exchange_due s i
    then map (fun species => comm_exchange_particles species (Simulation.time s))
           (indices (Simulation.ptcl s))
    else [].
Proof. filter_calls; reflexivity. Qed.

Lemma iteration_calls_species_halfpush K N i cc cd utr mp mm sp s :
  filter is_species_halfpush (iteration_calls K N i cc cd utr mp mm sp s)
  = if mp
    then map species_halfpush_x (indices (Simulation.ptcl s))
         ++ map species_halfpush_x (indices (Simulation.ptcl s))
    else [].
Proof. filter_calls; destruct mp; cbn [app]; reflexivity. Qed.

Lemma iteration_calls_antenna_halfpush K N i cc cd utr mp mm sp s :
  filter is_antenna_halfpush (iteration_calls K N i cc cd utr mp mm sp s)
  = map (fun antenna => antenna_halfpush_x antenna (Simulation.dt s))
      (Simulation.laser_antennas s)
    ++ map (fun antenna => antenna_halfpush_x antenna (Simulation.dt s))
         (Simulation.laser_antennas s).
Proof. filter_calls; reflexivity. Qed.


Lemma loop_calls_no_shift K N cc cd utr mp mm sp steps s :
  Simulation.use_galilean s = false ->
  filter is_shift (loop_calls K N cc cd utr mp mm sp steps s) = [].
Proof.
  revert s. induction steps as [|i rest IH]; intros s Hg; [reflexivity|].
  cbn [loop_calls]. rewrite filter_app, iteration_calls_shift.
  unfold shift_calls. rewrite Hg. cbn [app].
  apply IH. destruct (iteration_state_frame K i s) as (_ & _ & _ & E & _).
  now rewrite E.
Qed.

(** * The cycle and the clock

    An iteration of [step] is the cycle followed by the increment of the
    clock, and nothing in the cycle touches the clock. *)




Lemma keeps_clock_bind {A B} (m : M A) (f : A -> M B) :
  keeps_clock m -> (forall a, keeps_clock (f a)) -> keeps_clock (bind m f).
Proof.
  intros Hm Hf s. unfold bind, final_state.
  destruct (Hm s) as (H1 & H2 & H3). unfold final_state in H1, H2, H3.
  destruct (m s) as [[[e|a] s1] l1]; cbn [fst snd] in *; [now repeat split|].
  destruct (Hf a s1) as (H4 & H5 & H6). unfold final_state in H4, H5, H6.
  destruct (f a s1) as [[rb s2] l2]. cbn [fst snd] in *.
  repeat split; congruence.
Qed.

Lemma keeps_clock_ret {A} (a : A) : keeps_clock (ret a).
Proof. intros s. now repeat split. Qed.

Lemma keeps_clock_raise {A} e : keeps_clock (@raise A e).
Proof. intros s. now repeat split. Qed.

Lemma keeps_clock_gets {A} (f : Simulation.t -> A) : keeps_clock (gets f).
Proof. intros s. now repeat split. Qed.

Lemma keeps_clock_emit cl : keeps_clock (emit cl).
Proof. intros s. now repeat split. Qed.

Lemma keeps_clock_lift {A} (r : result A) : keeps_clock (lift r).
Proof. intros s. now repeat split. Qed.

Lemma keeps_clock_when b m : keeps_clock m -> keeps_clock (when b m).
Proof. intros H. destruct b; [exact H|apply keeps_clock_ret]. Qed.

Lemma keeps_clock_for_each {A} (l : list A) body :
  (forall a, keeps_clock (body a)) -> keeps_clock (for_each l body).
Proof.
  intros H. induction l as [|a t IH]; [apply keeps_clock_ret|].
  cbn [for_each]. apply keeps_clock_bind; [apply H|intros _; exact IH].
Qed.

Lemma keeps_clock_modify f :
  (forall s, Simulation.time (f s) = Simulation.time s /\
             Simulation.iteration (f s) = Simulation.iteration s /\
             Simulation.dt (f s) = Simulation.dt s) ->
  keeps_clock (modify f).
Proof. intros H s. apply H. Qed.

Ltac keeps_clock :=
  repeat first
    [ apply keeps_clock_bind; [|intros ?]
    | apply keeps_clock_ret | apply keeps_clock_raise | apply keeps_clock_gets
    | apply keeps_clock_emit | apply keeps_clock_lift
    | apply keeps_clock_when | apply keeps_clock_for_each; intros ?
    | apply keeps_clock_modify; intros ?; repeat split; reflexivity
    | match goal with |- keeps_clock (match ?x with _ => _ end) => destruct x end
    | match goal with |- keeps_clock (if ?x then _ else _) => destruct x end ].









(** * The claims about [step] *)


(** C3. [deposit(fieldtype)] with [fieldtype] other than ['rho_prev'],
    ['rho_next'] and ['J'] raises [ValueError('Unknown fieldtype: ...')];
    the simulation is left as it was and no call at all (erase, deposit,
    divide, exchange, transform, filter) has been made. *)
Theorem deposit_unknown_fieldtype :
  forall (fieldtype : string) (s : Simulation.t),
    fieldtype <> "rho_prev"%string ->
    fieldtype <> "rho_next"%string ->
    fieldtype <> "J"%string ->
    outcome (deposit fieldtype s)
      = inl (ValueError ("Unknown fieldtype: " ++ fieldtype)) /\
    final_state (deposit fieldtype s) = s /\
    calls_of (deposit fieldtype s) = [].
Proof.
  intros ft s H1 H2 H3.
  rewrite deposit_unknown; [repeat split|].
  unfold field_of.
  apply String.eqb_neq in H1, H2, H3. now rewrite H1, H2, H3.
Qed.

Lemma exchange_due_iff s i :
  exchange_due s i = true <->
  (Simulation.iteration s mod Simulation.exchange_period s = 0)%Z \/ i = 0%Z.
Proof.
  unfold exchange_due. rewrite orb_true_iff, !Z.eqb_eq. reflexivity.
Qed.

Lemma galilean_shifted_comm s :
  Simulation.comm (galilean_shifted s) = Simulation.comm s.
Proof.
  unfold galilean_shifted.
  destruct (Simulation.use_galilean s); [|reflexivity].
  destruct (Simulation.v_comoving s); reflexivity.
Qed.

Lemma after_exchange_fld i s :
  Simulation.fld (after_exchange i s) = Simulation.fld s.
Proof.
  unfold after_exchange.
  destruct (exchange_due s i); [|reflexivity].
  destruct (BoundaryCommunicator.moving_win (Simulation.comm s)); reflexivity.
Qed.

Lemma moving_win_after_exchange K i s :
  BoundaryCommunicator.moving_win (Simulation.comm (iteration_state K i s))
  = BoundaryCommunicator.moving_win
      (Simulation.comm (after_exchange i (after_move_grids K s))).
Proof.
  unfold iteration_state.
  change (Simulation.comm (advanced ?x)) with (Simulation.comm x).
  rewrite !galilean_shifted_comm. reflexivity.
Qed.

(** C4. In one iteration of the loop of [step] (exchange period not zero,
    Galilean shift runnable) the particle exchange is made, once per
    species, exactly when [iteration % exchange_period == 0] or
    [i_step == 0].  After an iteration that made it with a moving window
    attached, the window's [nz_inject] is 0; after an iteration that did
    not, the window is as [comm.move_grids] left it. *)
Theorem exchange_and_nz_inject :
  forall (K : Collaborators) (N i_step : Z)
         (correct_currents correct_divE use_true_rho
          move_positions move_momenta show_progress : bool)
         (s : Simulation.t),
    Simulation.exchange_period s <> 0%Z ->
    galilean_ready s = true ->
    let one := step_iteration K N i_step correct_currents correct_divE
                 use_true_rho move_positions move_momenta show_progress s in
    let due := (Simulation.iteration s mod Simulation.exchange_period s = 0)%Z
               \/ i_step = 0%Z in
    outcome one = ok tt /\
    (due ->
     filter is_exchange_particles (calls_of one)
     = map (fun species => comm_exchange_particles species (Simulation.time s))
         (indices (Simulation.ptcl s))) /\
    (~ due -> filter is_exchange_particles (calls_of one) = []) /\
    (forall w, BoundaryCommunicator.moving_win (Simulation.comm s) = Some w ->
       (due ->
        exists w',
          BoundaryCommunicator.moving_win (Simulation.comm (final_state one))
            = Some w' /\ MovingWindow.nz_inject w' = 0%Z) /\
       (~ due ->
        BoundaryCommunicator.moving_win (Simulation.comm (final_state one))
          = Some (move_grids_window K w (Simulation.dt s) (Simulation.time s)))).
Proof.
  intros K N i cc cd utr mp mm sp s Hep Hgal one due.
  unfold one. rewrite (step_iteration_run K N i cc cd utr mp mm sp s Hep Hgal).
  unfold outcome, final_state, calls_of. cbn [fst snd].
  rewrite iteration_calls_exchange, moving_win_after_exchange.
  pose proof (exchange_due_iff s i) as Hdue. fold due in Hdue.
  pose proof (same_setup_exchange_due _ _ i (same_setup_after_move_grids K s)) as E.
  split; [reflexivity|]. split; [|split].
  - intros Hd. apply Hdue in Hd. now rewrite Hd.
  - intros Hd. destruct (exchange_due s i); [|reflexivity].
    exfalso. apply Hd, Hdue. reflexivity.
  - intros w Hw. unfold after_exchange. rewrite E.
    unfold after_move_grids. rewrite Hw. cbn. split.
    + intros Hd. apply Hdue in Hd. rewrite Hd. cbn.
      eexists. split; reflexivity.
    + intros Hd. destruct (exchange_due s i); [|reflexivity].
      exfalso. apply Hd, Hdue. reflexivity.
Qed.

Lemma shift_first_all d l : shift_first (length l) d l = map (shifted_by d) l.
Proof.
  unfold shift_first. rewrite firstn_all, skipn_all. apply app_nil_r.
Qed.

Lemma galilean_shifted_interp s v :
  Simulation.use_galilean s = true ->
  Simulation.v_comoving s = Some v ->
  Z.to_nat (Fields.Nm (Simulation.fld s))
    = length (Fields.interp (Simulation.fld s)) ->
  Fields.interp (Simulation.fld (galilean_shifted s))
  = map (shifted_by (v * (1#2) * Simulation.dt s))
      (Fields.interp (Simulation.fld s)).
Proof.
  intros Hg Hv Hk. unfold galilean_shifted, shifted_state. rewrite Hg, Hv. cbn.
  rewrite Hk. apply shift_first_all.
Qed.

Lemma Forall2_Qeq_shift_twice d e (l : list Q) :
  d + d == e ->
  Forall2 Qeq (map (fun zi => zi + d) (map (fun zi => zi + d) l))
    (map (fun zi => zi + e) l).
Proof.
  intros H. induction l as [|a t IH]; cbn; constructor; [lra|exact IH].
Qed.

(** C5. One call of [shift_galilean_boundaries], with a comoving velocity
    [v] and [fld.interp] holding the [fld.Nm] grids, adds
    [v * 0.5 * dt] to [zmin], to [zmax] and to every element of [z] of
    every grid and changes nothing else, neither in the grids ([r], the
    field arrays) nor in the simulation.  In one iteration of [step] with
    the Galilean frame in use the method runs exactly twice, and the
    grids end up moved by twice that distance, that is by [v * dt], from
    where [comm.move_grids] left them at the start of the iteration. *)
Theorem galilean_shift_twice_per_step :
  forall (K : Collaborators) (s : Simulation.t) (v : Q),
    Simulation.v_comoving s = Some v ->
    Z.to_nat (Fields.Nm (Simulation.fld s))
      = length (Fields.interp (Simulation.fld s)) ->
    let d := v * (1#2) * Simulation.dt s in
    shift_galilean_boundaries s
    = (ok tt,
       Simulation.set_fld
         (Fields.mk (Fields.Nm (Simulation.fld s))
            (map (shifted_by d) (Fields.interp (Simulation.fld s)))) s,
       [self_shift_galilean_boundaries]) /\
    (forall g,
        InterpolationGrid.zmin (shifted_by d g) = InterpolationGrid.zmin g + d /\
        InterpolationGrid.zmax (shifted_by d g) = InterpolationGrid.zmax g + d /\
        InterpolationGrid.z (shifted_by d g)
          = map (fun zi => zi + d) (InterpolationGrid.z g) /\
        InterpolationGrid.r (shifted_by d g) = InterpolationGrid.r g /\
        InterpolationGrid.Ez (shifted_by d g) = InterpolationGrid.Ez g /\
        InterpolationGrid.values (shifted_by d g) = InterpolationGrid.values g) /\
    (Simulation.use_galilean s = true ->
     Simulation.exchange_period s <> 0%Z ->
     forall (N i_step : Z)
            (correct_currents correct_divE use_true_rho
             move_positions move_momenta show_progress : bool),
       let one := step_iteration K N i_step correct_currents correct_divE
                    use_true_rho move_positions move_momenta show_progress s in
       outcome one = ok tt /\
       filter is_shift (calls_of one)
         = [self_shift_galilean_boundaries; self_shift_galilean_boundaries] /\
       Fields.interp (Simulation.fld (final_state one))
         = map (shifted_by d)
             (map (shifted_by d)
                (Fields.interp (Simulation.fld (after_move_grids K s)))) /\
       (forall g,
           InterpolationGrid.zmin (shifted_by d (shifted_by d g))
             == InterpolationGrid.zmin g + v * Simulation.dt s /\
           InterpolationGrid.zmax (shifted_by d (shifted_by d g))
             == InterpolationGrid.zmax g + v * Simulation.dt s /\
           Forall2 Qeq (InterpolationGrid.z (shifted_by d (shifted_by d g)))
             (map (fun zi => zi + v * Simulation.dt s) (InterpolationGrid.z g)))).
Proof.
  intros K s v Hv Hk d. split; [|split].
  - rewrite (shift_galilean_boundaries_run s v Hv) by lia.
    unfold shifted_state. rewrite Hk, shift_first_all. reflexivity.
  - intros g. repeat split.
  - intros Hg Hep N i cc cd utr mp mm sp.
    assert (Hgal : galilean_ready s = true).
    { unfold galilean_ready. rewrite Hg, Hv, Hk. cbn.
      apply Nat.leb_le. lia. }
    rewrite (step_iteration_run K N i cc cd utr mp mm sp s Hep Hgal).
    unfold outcome, final_state, calls_of. cbn [fst snd].
    split; [reflexivity|]. split; [|split].
    + rewrite iteration_calls_shift. unfold shift_calls. now rewrite Hg.
    + unfold iteration_state.
      change (Simulation.fld (advanced ?x)) with (Simulation.fld x).
      set (s1 := after_move_grids K s).
      set (s3 := unsorted (after_exchange i s1)).
      assert (H3 : same_setup s s3).
      { eapply same_setup_trans; [apply same_setup_after_move_grids|].
        eapply same_setup_trans; [apply same_setup_after_exchange|].
        apply same_setup_unsorted. }
      assert (F3 : Simulation.fld s3 = Simulation.fld s1).
      { unfold s3. change (Simulation.fld (unsorted ?x)) with (Simulation.fld x).
        apply after_exchange_fld. }
      pose proof (same_setup_trans _ _ _ H3 (same_setup_galilean_shifted s3)) as H4.
      assert (Hd3 : Simulation.dt s3 = Simulation.dt s) by apply H3.
      assert (Hd4 : Simulation.dt (galilean_shifted s3) = Simulation.dt s) by apply H4.
      rewrite (galilean_shifted_interp (galilean_shifted s3) v).
      * rewrite (galilean_shifted_interp s3 v).
        -- rewrite Hd3, Hd4, F3. reflexivity.
        -- destruct H3 as (_ & _ & E & _). now rewrite E.
        -- destruct H3 as (_ & E & _). now rewrite E.
        -- destruct H3 as (_ & _ & _ & _ & _ & _ & _ & _ & _ & _ & _ & _ & E1 & E2 & _).
           now rewrite E1, E2.
      * destruct H4 as (_ & _ & E & _). now rewrite E.
      * destruct H4 as (_ & E & _). now rewrite E.
      * destruct H4 as (_ & _ & _ & _ & _ & _ & _ & _ & _ & _ & _ & _ & E1 & E2 & _).
        now rewrite E1, E2.
    + intros g. unfold d. cbn. split; [lra|]. split; [lra|].
      apply Forall2_Qeq_shift_twice. lra.
Qed.

(** C9, amended.  In one iteration of [step] the species are half-pushed
    (twice: to [t = (n+1/2) dt] and to [t = (n+1) dt]) only when
    [move_positions] is true.  The virtual particles of every laser
    antenna are half-pushed twice in every iteration, whatever
    [move_positions] is. *)
Theorem halfpush_species_only_gated :
  forall (K : Collaborators) (N i_step : Z)
         (correct_currents correct_divE use_true_rho
          move_positions move_momenta show_progress : bool)
         (s : Simulation.t),
    Simulation.exchange_period s <> 0%Z ->
    galilean_ready s = true ->
    let one := step_iteration K N i_step correct_currents correct_divE
                 use_true_rho move_positions move_momenta show_progress s in
    outcome one = ok tt /\
    filter is_species_halfpush (calls_of one)
      = (if move_positions
         then map species_halfpush_x (indices (Simulation.ptcl s))
              ++ map species_halfpush_x (indices (Simulation.ptcl s))
         else []) /\
    filter is_antenna_halfpush (calls_of one)
      = map (fun antenna => antenna_halfpush_x antenna (Simulation.dt s))
          (Simulation.laser_antennas s)
        ++ map (fun antenna => antenna_halfpush_x antenna (Simulation.dt s))
             (Simulation.laser_antennas s).
Proof.
  intros K N i cc cd utr mp mm sp s Hep Hgal one.
  unfold one. rewrite (step_iteration_run K N i cc cd utr mp mm sp s Hep Hgal).
  unfold outcome, calls_of. cbn [fst snd].
  split; [reflexivity|]. split.
  - apply iteration_calls_species_halfpush.
  - apply iteration_calls_antenna_halfpush.
Qed.

(** ** Runs without a comoving velocity *)

Lemma step_iteration_div0 K N i cc cd utr mp mm sp s :
  Simulation.exchange_period s = 0%Z ->
  step_iteration K N i cc cd utr mp mm sp s =
  (inl ZeroDivisionError, after_move_grids K s,
   (if sp && (BoundaryCommunicator.rank (Simulation.comm s) =? 0)%Z
    then [progression_bar i N] else [])
   ++ map (fun diag => diag_write diag (Simulation.iteration s)) (Simulation.diags s)
   ++ (match BoundaryCommunicator.moving_win (Simulation.comm s) with
       | Some _ => [comm_move_grids (Simulation.dt s) (Simulation.time s)]
       | None => []
       end)
   ++ [comm_exchange_fields "EB"]).
Proof.
  intros Hep.
  pose proof (same_setup_after_move_grids K s) as H1.
  set (s1 := after_move_grids K s) in *.
  unfold step_iteration.
  run_gets.
  erewrite bind_run by (apply when_run; reflexivity).
  run_gets.
  erewrite bind_run
    by (apply (for_each_emit _ _
                 (fun d => [diag_write d (Simulation.iteration s)])); reflexivity).
  rewrite flat_map_singleton.
  run_gets.
  rewrite (bind_run _ _ _ _ _ _ (move_phase_run K s)). fold s1.
  run_emit. run_gets. run_gets.
  assert (Hep1 : Simulation.exchange_period s1 = 0%Z).
  { destruct H1 as (_ & _ & _ & E & _). now rewrite E. }
  rewrite Hep1.
  change (py_mod (Simulation.iteration s1) 0) with (@raise_ Z ZeroDivisionError).
  rewrite (bind_fail (lift _) _ s1 ZeroDivisionError s1 [] eq_refl).
  rewrite !prepend_triple. reflexivity.
Qed.

Lemma after_move_grids_use_galilean K s :
  Simulation.use_galilean (after_move_grids K s) = Simulation.use_galilean s.
Proof. apply (same_setup_after_move_grids K s). Qed.

Lemma step_without_galilean K N cc cd utr mp mm sp s :
  Simulation.use_galilean s = false ->
  let run := step K N cc cd utr mp mm sp s in
  Simulation.use_galilean (final_state run) = false /\
  filter is_shift (calls_of run) = [] /\
  outcome run <> inl TypeError /\
  (Simulation.exchange_period s <> 0%Z -> outcome run = ok tt).
Proof.
  intros Hg.
  assert (Hgal : galilean_ready s = true).
  { unfold galilean_ready. now rewrite Hg. }
  destruct (Z.eq_dec (Simulation.exchange_period s) 0) as [Hep|Hep].
  - cbv zeta. unfold step.
    run_gets.
    erewrite bind_run by (apply when_run; reflexivity).
    destruct (py_range N) as [|i rest] eqn:Er.
    + cbn [for_each].
      rewrite (bind_run (ret tt) _ s tt s [] eq_refl), prepend_nil.
      run_gets.
      erewrite bind_run by (apply when_run; reflexivity).
      run_gets.
      erewrite when_run by reflexivity.
      rewrite !prepend_triple.
      unfold outcome, final_state, calls_of. cbn [fst snd].
      split; [exact Hg|]. split; [|split; [discriminate|reflexivity]].
      rewrite !filter_app, !filter_if. cbn [filter is_shift app].
      now rewrite !if_same.
    + cbn [for_each].
      erewrite (bind_fail (bind _ _)); cycle 1.
      { apply bind_fail. apply step_iteration_div0. exact Hep. }
      rewrite prepend_triple.
      unfold outcome, final_state, calls_of. cbn [fst snd].
      split; [rewrite after_move_grids_use_galilean; exact Hg|].
      split; [|split; [discriminate|contradiction]].
      rewrite !filter_app, !filter_if.
      rewrite filter_map_false by (intro; reflexivity).
      destruct (BoundaryCommunicator.moving_win (Simulation.comm s));
        cbn [filter is_shift app]; now rewrite !if_same.
  - cbv zeta. rewrite (step_run K N cc cd utr mp mm sp s Hep Hgal).
    unfold outcome, final_state, calls_of. cbn [fst snd].
    destruct (loop_state_frame K (py_range N) s) as (_ & _ & _ & E & _).
    split; [now rewrite E|]. split; [|split; [discriminate|reflexivity]].
    rewrite !filter_app, !filter_if, loop_calls_no_shift by exact Hg.
    cbn [filter is_shift app]. now rewrite !if_same.
Qed.

Lemma reachable_without_galilean K s0 s :
  Simulation.use_galilean s0 = false ->
  reachable K s0 s -> Simulation.use_galilean s = false.
Proof.
  intros H0 Hr. induction Hr as [|s N cc cd utr mp mm sp Hr IH
                                 |s ft Hr IH
                                 |s v ux uy uz uxt uyt uzt gb Hr IH].
  - exact H0.
  - apply (step_without_galilean K N cc cd utr mp mm sp s IH).
  - destruct (field_of ft) as [kind|] eqn:E.
    + rewrite (deposit_run s ft kind E). exact IH.
    + rewrite (deposit_unknown s ft E). exact IH.
  - exact IH.
Qed.

Lemma Simulation_init_use_galilean K a s :
  Simulation_init K a = ok s ->
  Simulation.use_galilean s
  = match Args.v_comoving a with
    | None => false
    | Some _ => Args.use_galilean a
    end /\
  Simulation.v_comoving s = Args.v_comoving a.
Proof.
  unfold Simulation_init. cbv zeta.
  destruct (init_domain K a) as [e|[comm [[[[[[[zmin zmax] dt] pzmin] pzmax] ne] uzm] Nz]]];
    [discriminate|].
  cbn [rbind].
  destruct (init_exchange_period _ _ _ _ _ _ _) as [e|ep]; [discriminate|].
  cbn [rbind]. unfold init_structures.
  destruct (nth_error _ 0) as [g|]; [|discriminate].
  cbn [rbind ok].
  destruct (adapt_to_grid (InterpolationGrid.z g) _ _ _ _) as [e|[[a1 b1] n1]];
    [discriminate|].
  cbn [rbind].
  destruct (adapt_to_grid (InterpolationGrid.r g) _ _ _ _) as [e|[[a2 b2] n2]];
    [discriminate|].
  cbn [rbind]. intros H. injection H as <-. split; reflexivity.
Qed.

(** C10. A simulation constructed with [v_comoving = None] has
    [use_galilean = False], whatever the [use_galilean] argument was, and
    keeps it through every later call of its methods.  Every [step] of
    such a run makes no call to [shift_galilean_boundaries] and does not
    raise the [TypeError] of [None * 0.5]; it returns normally when the
    exchange period is not zero. *)
Theorem no_comoving_no_galilean_shift :
  forall (K : Collaborators) (a : Args.t) (s0 s : Simulation.t),
    Args.v_comoving a = None ->
    Simulation_init K a = ok s0 ->
    reachable K s0 s ->
    Simulation.use_galilean s0 = false /\
    Simulation.use_galilean s = false /\
    forall (N : Z)
           (correct_currents correct_divE use_true_rho
            move_positions move_momenta show_progress : bool),
      let run := step K N correct_currents correct_divE use_true_rho
                   move_positions move_momenta show_progress s in
      filter is_shift (calls_of run) = [] /\
      outcome run <> inl TypeError /\
      (Simulation.exchange_period s <> 0%Z -> outcome run = ok tt).
Proof.
  intros K a s0 s Hv Hinit Hr.
  destruct (Simulation_init_use_galilean K a s0 Hinit) as [Hg _].
  rewrite Hv in Hg.
  pose proof (reachable_without_galilean K s0 s Hg Hr) as Hs.
  split; [exact Hg|]. split; [exact Hs|].
  intros N cc cd utr mp mm sp.
  destruct (step_without_galilean K N cc cd utr mp mm sp s Hs) as (_ & H1 & H2 & H3).
  cbv zeta. auto.
Qed.

(** * The exchange period computed by [__init__] *)

Lemma py_div_ok a b : ~ b == 0 -> py_div a b = ok (a / b).
Proof.
  intros Hb. unfold py_div.
  destruct (Qeq_bool b 0) eqn:E; [|reflexivity].
  apply Qeq_bool_iff in E. contradiction.
Qed.

Lemma py_int_ge1 q : (1 <= Qfloor q)%Z -> py_int q = Qfloor q.
Proof.
  destruct q as [n d]. unfold py_int, Qfloor. cbn [Qnum Qden]. intros H.
  apply Z.quot_div_nonneg; [|lia].
  destruct (Z_lt_le_dec n 0) as [Hn|Hn]; [|exact Hn].
  assert (n / Z.pos d < 0)%Z by (apply Z.div_lt_upper_bound; lia). lia.
Qed.

Lemma py_int_lt1 q : (Qfloor q < 1)%Z -> (py_int q < 1)%Z.
Proof.
  destruct q as [n d]. unfold py_int, Qfloor. cbn [Qnum Qden]. intros H.
  destruct (Z_lt_le_dec n 0) as [Hn|Hn].
  - assert (n ÷ Z.pos d <= 0)%Z; [|lia].
    apply Z.quot_le_upper_bound; [lia|]. lia.
  - rewrite Z.quot_div_nonneg by lia. exact H.
Qed.

Lemma cells_per_step_defined (dt zmin zmax : Q) (Nz : Z) :
  Nz <> 0%Z -> ~ zmax == zmin -> ~ dt == 0 ->
  ~ inject_Z Nz == 0 /\
  ~ (zmax - zmin) / inject_Z Nz == 0 /\
  ~ 2 * c * dt / ((zmax - zmin) / inject_Z Nz) == 0.
Proof.
  intros HN Hz Hdt.
  assert (H1 : ~ inject_Z Nz == 0).
  { unfold Qeq. cbn. lia. }
  assert (H2 : ~ (zmax - zmin) / inject_Z Nz == 0).
  { intros E. apply Hz.
    assert (E' : zmax - zmin == 0).
    { setoid_replace (zmax - zmin)
        with ((zmax - zmin) / inject_Z Nz * inject_Z Nz) by (field; exact H1).
      rewrite E. ring. }
    lra. }
  split; [exact H1|]. split; [exact H2|].
  intros E. apply Hdt.
  assert (E' : 2 * c * dt == 0).
  { setoid_replace (2 * c * dt)
      with (2 * c * dt / ((zmax - zmin) / inject_Z Nz)
            * ((zmax - zmin) / inject_Z Nz)) by (field; split; [exact H1|lra]).
    rewrite E. ring. }
  unfold c in E'. lra.
Qed.


Lemma Simulation_init_exchange_period K a comm local s :
  init_domain K a = ok (comm, local) ->
  Simulation_init K a = ok s ->
  let '(zmin, zmax, dt, _, _, _, _, Nz) := local in
  init_exchange_period (Args.exchange_period a) dt zmin zmax Nz comm
    (Args.boundaries a) = ok (Simulation.exchange_period s).
Proof.
  intros Hd. unfold Simulation_init. cbv zeta. rewrite Hd. cbn [rbind ok].
  destruct local as [[[[[[[zmin zmax] dt] pzmin] pzmax] ne] uzm] Nz].
  destruct (init_exchange_period _ _ _ _ _ _ _) as [e|ep]; [discriminate|].
  cbn [rbind]. unfold init_structures.
  destruct (nth_error _ 0) as [g|]; [|discriminate].
  cbn [rbind ok].
  destruct (adapt_to_grid (InterpolationGrid.z g) _ _ _ _) as [e|[[a1 b1] n1]];
    [discriminate|].
  cbn [rbind].
  destruct (adapt_to_grid (InterpolationGrid.r g) _ _ _ _) as [e|[[a2 b2] n2]];
    [discriminate|].
  cbn [rbind]. intros H. injection H as <-. reflexivity.
Qed.

Lemma Simulation_init_exchange_error K a comm zmin zmax dt pzmin pzmax ne uzm Nz e :
  init_domain K a = ok (comm, (zmin, zmax, dt, pzmin, pzmax, ne, uzm, Nz)) ->
  init_exchange_period (Args.exchange_period a) dt zmin zmax Nz comm
    (Args.boundaries a) = inl e ->
  Simulation_init K a = inl e.
Proof.
  intros Hd He. unfold Simulation_init. cbv zeta. rewrite Hd. cbn [rbind ok].
  rewrite He. reflexivity.
Qed.

(** ** The derivation in binary64

    [int()] against [floor], and the errors of the code against the
    places where the formula is not defined. *)

Section Binary64Facts.
Local Open Scope Z_scope.

Lemma to_int_floor (x : spec_float) (f : Z) :
  Binary64.floor x = Some f ->
  exists t, Binary64.to_int x = ok t /\
            (t <? 1) = (f <? 1) /\ (1 <= f -> t = f).
Proof.
  destruct x as [s| s | |s m e]; cbn [Binary64.floor Binary64.to_int];
    try discriminate.
  - intros H. injection H as <-. exists 0. repeat split; reflexivity.
  - intros H. injection H as <-.
    destruct e as [|p|p].
    + eexists. split; [reflexivity|]. split; [reflexivity|]. intros _; reflexivity.
    + eexists. split; [reflexivity|]. split; [reflexivity|]. intros _; reflexivity.
    + eexists. split; [reflexivity|].
      assert (Hp : 0 < 2 ^ Z.pos p) by (apply Z.pow_pos_nonneg; lia).
      destruct s.
      * set (a := cond_Zopp true (Z.pos m)).
        assert (Ha : a < 0) by (unfold a; cbn; lia). clearbody a.
        assert (H1 : Z.quot a (2 ^ Z.pos p) <= 0).
        { replace a with (- (- a)) by lia. rewrite Z.quot_opp_l by lia.
          pose proof (Z.quot_pos (- a) (2 ^ Z.pos p) ltac:(lia) Hp). lia. }
        assert (H2 : a / 2 ^ Z.pos p < 0).
        { apply Z.div_lt_upper_bound; lia. }
        change (Z.pow_pos 2 p) with (2 ^ Z.pos p).
        split; [|lia].
        destruct (Z.ltb_spec (Z.quot a (2 ^ Z.pos p)) 1);
          destruct (Z.ltb_spec (a / 2 ^ Z.pos p) 1); try reflexivity; exfalso; lia.
      * set (a := cond_Zopp false (Z.pos m)).
        assert (Ha : 0 <= a) by (unfold a; cbn; lia). clearbody a.
        change (Z.pow_pos 2 p) with (2 ^ Z.pos p).
        rewrite Z.quot_div_nonneg by lia.
        split; [reflexivity|]. intros _; reflexivity.
Qed.

Lemma floor_none_to_int (x : spec_float) :
  Binary64.floor x = None ->
  Binary64.to_int x = raise_ OverflowError
  \/ Binary64.to_int x = raise_ (ValueError Binary64.nan_message).
Proof.
  destruct x; cbn; try discriminate; intros _; [left|right]; reflexivity.
Qed.

Lemma of_int_float_of_Z n :
  Binary64.of_int n
  = match Binary64.float_of_Z n with
    | Some x => ok x
    | None => raise_ OverflowError
    end.
Proof.
  unfold Binary64.of_int, Binary64.float_of_Z.
  destruct (Binary64.of_Z n); reflexivity.
Qed.

Lemma div_quotient x y :
  Binary64.div x y
  = match Binary64.quotient x y with
    | Some q => ok q
    | None => raise_ ZeroDivisionError
    end.
Proof.
  unfold Binary64.div, Binary64.quotient. destruct (Binary64.is_zero y); reflexivity.
Qed.

Lemma init_exchange_period_formula dt zmin zmax Nz comm boundaries :
  (boundaries <> "periodic"%string \/ BoundaryCommunicator.size comm <> 1%Z) ->
  match Binary64.exchange_period_formula (BoundaryCommunicator.n_guard comm)
          dt zmin zmax Nz with
  | Some period =>
      Binary64.init_exchange_period None dt zmin zmax Nz comm boundaries
      = if (period <? 1)%Z then raise_ (ValueError guard_region_message)
        else ok period
  | None =>
      exists e,
        Binary64.init_exchange_period None dt zmin zmax Nz comm boundaries
        = raise_ e /\
        (e = ZeroDivisionError \/ e = OverflowError
         \/ e = ValueError Binary64.nan_message)
  end.
Proof.
  intros Hmulti.
  assert (Hcond : (BoundaryCommunicator.size comm =? 1)%Z
                  && (boundaries =? "periodic")%string = false).
  { apply andb_false_iff. destruct Hmulti as [Hb|Hs].
    - right. now apply String.eqb_neq.
    - left. now apply Z.eqb_neq. }
  unfold Binary64.exchange_period_formula, Binary64.init_exchange_period.
  rewrite of_int_float_of_Z.
  destruct (Binary64.float_of_Z Nz) as [Nzf|]; cbn [rbind ok raise_];
    [|exists OverflowError; auto].
  rewrite div_quotient.
  destruct (Binary64.quotient _ Nzf) as [cell|]; cbn [rbind ok raise_];
    [|exists ZeroDivisionError; auto].
  rewrite div_quotient.
  destruct (Binary64.quotient _ cell) as [cps|]; cbn [rbind ok raise_];
    [|exists ZeroDivisionError; auto].
  rewrite of_int_float_of_Z.
  destruct (Binary64.float_of_Z _) as [nf|]; cbn [rbind ok raise_];
    [|exists OverflowError; auto].
  rewrite div_quotient.
  destruct (Binary64.quotient nf cps) as [quot|]; cbn [rbind ok raise_];
    [|exists ZeroDivisionError; auto].
  destruct (Binary64.floor quot) as [f|] eqn:Ef.
  - destruct (to_int_floor quot f Ef) as (t & Et & Hlt & Hge).
    rewrite Et. cbn [rbind ok]. rewrite Hcond, Hlt.
    destruct (Z.ltb_spec f 1); [reflexivity|]. now rewrite Hge.
  - destruct (floor_none_to_int quot Ef) as [E|E]; rewrite E; cbn [rbind raise_].
    + exists OverflowError; auto.
    + exists (ValueError Binary64.nan_message); auto.
Qed.

End Binary64Facts.

Lemma Binary64_init_exchange_period_ok K a comm local s :
  init_domain K a = ok (comm, local) ->
  Binary64.Simulation_init K a = ok s ->
  let '(zmin, zmax, dt, _, _, _, _, Nz) := local in
  Binary64.init_exchange_period (Args.exchange_period a) (Binary64.of_Q dt)
    (Binary64.of_Q zmin) (Binary64.of_Q zmax) Nz comm (Args.boundaries a)
  = ok (Simulation.exchange_period s).
Proof.
  intros Hd. unfold Binary64.Simulation_init. cbv zeta. rewrite Hd. cbn [rbind ok].
  destruct local as [[[[[[[zmin zmax] dt] pzmin] pzmax] ne] uzm] Nz].
  destruct (Binary64.init_exchange_period _ _ _ _ _ _ _) as [e|ep]; [discriminate|].
  cbn [rbind]. unfold init_structures.
  destruct (nth_error _ 0) as [g|]; [|discriminate].
  cbn [rbind ok].
  destruct (adapt_to_grid (InterpolationGrid.z g) _ _ _ _) as [e|[[a1 b1] n1]];
    [discriminate|].
  cbn [rbind].
  destruct (adapt_to_grid (InterpolationGrid.r g) _ _ _ _) as [e|[[a2 b2] n2]];
    [discriminate|].
  cbn [rbind]. intros H. injection H as <-. reflexivity.
Qed.

Lemma Binary64_init_exchange_error K a comm zmin zmax dt pzmin pzmax ne uzm Nz e :
  init_domain K a = ok (comm, (zmin, zmax, dt, pzmin, pzmax, ne, uzm, Nz)) ->
  Binary64.init_exchange_period (Args.exchange_period a) (Binary64.of_Q dt)
    (Binary64.of_Q zmin) (Binary64.of_Q zmax) Nz comm (Args.boundaries a) = inl e ->
  Binary64.Simulation_init K a = inl e.
Proof.
  intros Hd He. unfold Binary64.Simulation_init. cbv zeta. rewrite Hd. cbn [rbind ok].
  rewrite He. reflexivity.
Qed.

(** C1. When no [exchange_period] is given and the run is not a
    single-process periodic one, [__init__] derives the exchange period
    [floor((n_guard-3) / (2*c*dt / ((zmax-zmin)/Nz)))] from the local
    (post-division) [zmin], [zmax], [Nz], the operations being those of
    binary64: where that value is defined, the construction raises the
    guard-region [ValueError] exactly when it is below 1, and is carried
    out with that value otherwise (the [int()] of the code and the
    [floor] of the design agree from 1 on, and are below 1 together);
    where it is not defined (a zero divisor, an integer beyond the
    floats, a quotient that is not a finite number), the construction
    raises [ZeroDivisionError], [OverflowError] or the [ValueError] of
    [int(nan)]; a constructed simulation carries the value of the
    formula, which is at least 1. *)
Theorem exchange_period_derived :
  forall (K : Collaborators) (a : Args.t) (comm : BoundaryCommunicator.t)
         (zmin zmax dt p_zmin p_zmax n_e uz_m : Q) (Nz : Z),
    init_domain K a = ok (comm, (zmin, zmax, dt, p_zmin, p_zmax, n_e, uz_m, Nz)) ->
    Args.exchange_period a = None ->
    (Args.boundaries a <> "periodic"%string
     \/ BoundaryCommunicator.size comm <> 1%Z) ->
    let formula :=
      Binary64.exchange_period_formula (BoundaryCommunicator.n_guard comm)
        (Binary64.of_Q dt) (Binary64.of_Q zmin) (Binary64.of_Q zmax) Nz in
    let derived :=
      Binary64.init_exchange_period (Args.exchange_period a) (Binary64.of_Q dt)
        (Binary64.of_Q zmin) (Binary64.of_Q zmax) Nz comm (Args.boundaries a) in
    (forall period, formula = Some period ->
       derived = (if (period <? 1)%Z then raise_ (ValueError guard_region_message)
                  else ok period) /\
       ((period < 1)%Z ->
        Binary64.Simulation_init K a = raise_ (ValueError guard_region_message)) /\
       ((1 <= period)%Z ->
        Binary64.Simulation_init K a
        = init_structures K a
            (if Args.use_cuda a && negb (cuda_installed K) then false
             else Args.use_cuda a)
            (Args.v_comoving a)
            (match Args.v_comoving a with
             | None => false
             | Some _ => Args.use_galilean a
             end)
            comm (zmin, zmax, dt, p_zmin, p_zmax, n_e, uz_m, Nz) period)) /\
    (formula = None ->
     exists e,
       derived = raise_ e /\
       Binary64.Simulation_init K a = raise_ e /\
       (e = ZeroDivisionError \/ e = OverflowError
        \/ e = ValueError Binary64.nan_message)) /\
    (forall s, Binary64.Simulation_init K a = ok s ->
               formula = Some (Simulation.exchange_period s) /\
               (1 <= Simulation.exchange_period s)%Z).
Proof.
  intros K a comm zmin zmax dt pzmin pzmax ne uzm Nz Hd Hnone Hmulti formula derived.
  pose proof (init_exchange_period_formula (Binary64.of_Q dt) (Binary64.of_Q zmin)
                (Binary64.of_Q zmax) Nz comm (Args.boundaries a) Hmulti) as Hmain.
  fold formula in Hmain.
  assert (Ed : derived
               = Binary64.init_exchange_period None (Binary64.of_Q dt)
                   (Binary64.of_Q zmin) (Binary64.of_Q zmax) Nz comm (Args.boundaries a)).
  { unfold derived. now rewrite Hnone. }
  rewrite <- Ed in Hmain.
  split; [|split].
  - intros period Hf. rewrite Hf in Hmain. split; [exact Hmain|]. split.
    + intros Hlt. apply (Binary64_init_exchange_error K a _ _ _ _ _ _ _ _ _ _ Hd).
      fold derived. rewrite Hmain. apply Z.ltb_lt in Hlt. now rewrite Hlt.
    + intros Hge. unfold Binary64.Simulation_init. cbv zeta. rewrite Hd.
      cbn [rbind ok]. fold derived. rewrite Hmain.
      destruct (Z.ltb_spec period 1); [lia|reflexivity].
  - intros Hf. rewrite Hf in Hmain. destruct Hmain as (e & He & Hu).
    exists e. split; [exact He|]. split; [|exact Hu].
    apply (Binary64_init_exchange_error K a _ _ _ _ _ _ _ _ _ _ Hd). exact He.
  - intros s Hs.
    pose proof (Binary64_init_exchange_period_ok K a _ _ s Hd Hs) as H.
    cbn in H. fold derived in H.
    destruct formula as [period|].
    + rewrite Hmain in H.
      destruct (Z.ltb_spec period 1) as [Hlt|Hge]; [discriminate|].
      injection H as <-. split; [reflexivity|exact Hge].
    + destruct Hmain as (e & He & _). rewrite He in H. discriminate H.
Qed.


(** * The model evaluated on the test configuration *)

(** The scenario of the design notes: 64 cells over 20 microns, 20 guard
    cells, [dt = 1e-16] give an exchange period of 88. *)
Example exchange_period_scenario :
  exchange_period_formula 20 (1 # 10000000000000000) 0 (20 # 1000000) 64 = 88%Z.
Proof. vm_compute. reflexivity. Qed.

(** [int()] truncates towards zero where [floor] rounds down. *)
Example py_int_truncates : py_int (-26 # 5) = (-5)%Z /\ Qfloor (-26 # 5) = (-6)%Z.
Proof. split; reflexivity. Qed.

Example test_grid_uniform :
  uniform_grid (InterpolationGrid.z (test_grid 4 2 0 (4#1) (2#1))) = true.
Proof. vm_compute. reflexivity. Qed.

(** The floats of [test_args_rounding]: the rationals are floats, and
    are read as such. *)
Example of_Q_float :
  Binary64.of_Q (Args.zmax test_args_rounding)
  = S754_finite false 7378697629483821 (-66) /\
  Binary64.of_Q (Args.dt test_args_rounding)
  = S754_finite false 8809223447760911 (-104) /\
  Args.zmax test_args_rounding == 7378697629483821 # (2 ^ 66) /\
  Args.dt test_args_rounding == 8809223447760911 # (2 ^ 104).
Proof. vm_compute. repeat split; reflexivity. Qed.

(** A box of 407 cells with 3873 guard cells and a time step for which
    the exact quotient is 1 to 16 digits: on exact rationals the period
    would be 1; in binary64 the quotient is below 1 and the construction
    is refused. *)
Example guard_check_rounding :
  let zmax := 4295787133197913 # 18446744073709551616 in
  let dt := 4571813411711965 # 1237940039285380274899124224 in
  exchange_period_formula 3873 dt 0 zmax 407 = 1%Z /\
  Binary64.init_exchange_period None (Binary64.of_Q dt) (Binary64.of_Q 0)
    (Binary64.of_Q zmax) 407 (BoundaryCommunicator.mk 0 1 3873 None) "open"
  = raise_ (ValueError guard_region_message).
Proof. vm_compute. split; reflexivity. Qed.

Lemma exchange_period_derived_example :
  exchange_period_formula 64 (Args.dt test_args_rounding) 0
    (Args.zmax test_args_rounding) 64 = 365%Z /\
  exists s0,
    Binary64.Simulation_init test_collaborators test_args_rounding = ok s0 /\
    Args.exchange_period test_args_rounding = None /\
    Args.boundaries test_args_rounding <> "periodic"%string /\
    Simulation.exchange_period s0 = 366%Z.
Proof.
  split; [vm_compute; reflexivity|].
  destruct (Binary64.Simulation_init test_collaborators test_args_rounding)
    as [err|s0] eqn:E.
  - vm_compute in E. discriminate E.
  - exists s0. split; [reflexivity|]. split; [reflexivity|].
    split; [discriminate|].
    destruct (exchange_period_derived test_collaborators test_args_rounding
                (BoundaryCommunicator.mk 0 1 64 None)
                0 (Args.zmax test_args_rounding) (Args.dt test_args_rounding)
                0 (20 # 1000000) (1 # 1) 0 64%Z) as (_ & _ & H).
    + vm_compute. reflexivity.
    + reflexivity.
    + left. discriminate.
    + destruct (H s0 E) as [H1 _].
      vm_compute in H1. injection H1 as H1. symmetry. exact H1.
Defined.



Lemma deposit_unknown_fieldtype_example :
  outcome (deposit "rho" test_simulation)
    = inl (ValueError "Unknown fieldtype: rho") /\
  final_state (deposit "rho" test_simulation) = test_simulation /\
  calls_of (deposit "rho" test_simulation) = [].
Proof.
  apply (deposit_unknown_fieldtype "rho" test_simulation); discriminate.
Defined.

Lemma exchange_and_nz_inject_example :
  Simulation.exchange_period test_simulation <> 0%Z /\
  galilean_ready test_simulation = true /\
  let one := step_iteration test_collaborators 1 0 true false false true true false
               test_simulation in
  filter is_exchange_particles (calls_of one)
    = [comm_exchange_particles 0 (3#10); comm_exchange_particles 1 (3#10)] /\
  exists w',
    BoundaryCommunicator.moving_win (Simulation.comm (final_state one)) = Some w' /\
    MovingWindow.nz_inject w' = 0%Z.
Proof.
  split; [cbn; lia|]. split; [reflexivity|].
  destruct (exchange_and_nz_inject test_collaborators 1 0 true false false true true
              false test_simulation) as (_ & H1 & _ & H3).
  - cbn. lia.
  - reflexivity.
  - cbv zeta. split.
    + apply H1. right. reflexivity.
    + apply (H3 (MovingWindow.mk 5) eq_refl). right. reflexivity.
Defined.

Lemma galilean_shift_twice_per_step_example :
  Simulation.v_comoving test_simulation = Some (3#1) /\
  let one := step_iteration test_collaborators 1 0 true false false true true false
               test_simulation in
  filter is_shift (calls_of one)
    = [self_shift_galilean_boundaries; self_shift_galilean_boundaries] /\
  Fields.interp (Simulation.fld (final_state (shift_galilean_boundaries test_simulation)))
    = map (shifted_by ((3#1) * (1#2) * (1#10)))
        (Fields.interp (Simulation.fld test_simulation)).
Proof.
  split; [reflexivity|].
  destruct (galilean_shift_twice_per_step test_collaborators test_simulation (3#1))
    as (H1 & _ & H3).
  - reflexivity.
  - reflexivity.
  - cbv zeta. split.
    + apply (H3 eq_refl ltac:(cbn; lia) 1%Z 0%Z true false false true true false).
    + rewrite H1. reflexivity.
Defined.

Lemma adapt_to_grid_spec_example :
  exists lo hi,
    adapt_to_grid [1#2; 3#2; 5#2; 7#2] (1#1) (3#1) 2 0 = ok (lo, hi, 4%Z) /\
    lo == 1 /\ hi == 3.
Proof.
  destruct (adapt_to_grid_spec [1#2; 3#2; 5#2; 7#2] (1#1) (3#1) 2 0)
    as (xmin & xmax & x0 & x1 & a & b & _ & _ & _ & _ & _ & _ & _ & lo & hi & cnt
        & E & _).
  - cbn. lia.
  - lia.
  - exists lo, hi. vm_compute in E. injection E as <- <- <-.
    split; [vm_compute; reflexivity|]. split; reflexivity.
Defined.

Lemma adapt_to_grid_idempotent_uniform_example :
  uniform_grid [1#2; 3#2; 5#2; 7#2] = true /\
  exists lo hi cnt,
    adapt_to_grid [1#2; 3#2; 5#2; 7#2] (1#1) (3#1) 2 0 = ok (lo, hi, cnt) /\
    adapt_to_grid [1#2; 3#2; 5#2; 7#2] lo hi 2 0 = ok (lo, hi, cnt).
Proof.
  split; [reflexivity|].
  apply (adapt_to_grid_idempotent_uniform [1#2; 3#2; 5#2; 7#2] (1#1) (3#1) 2 0).
  reflexivity.
Defined.

(** C8 as stated fails on a strictly increasing grid that is not evenly
    spaced: on [[0, 4, 5, 6]] (so [dx = 4]) the bounds [(4.5, 5.5)] select
    the point 5 and come back as [(3, 7)]; these select 4, 5 and 6 and
    come back as [(2, 8)]. *)
Lemma adapt_to_grid_not_idempotent :
  strictly_increasing [0; 4#1; 5#1; 6#1] = true /\
  adapt_to_grid [0; 4#1; 5#1; 6#1] (9#2) (11#2) 1 0 = ok (6#2, 14#2, 1%Z) /\
  adapt_to_grid [0; 4#1; 5#1; 6#1] (6#2) (14#2) 1 0 = ok (4#2, 16#2, 3%Z) /\
  ~ (4#2) == (6#2) /\ ~ (16#2) == (14#2) /\ 3%Z <> 1%Z.
Proof.
  split; [reflexivity|]. split; [vm_compute; reflexivity|].
  split; [vm_compute; reflexivity|].
  split; [vm_compute; discriminate|]. split; [vm_compute; discriminate|lia].
Qed.

Lemma halfpush_species_only_gated_example :
  Simulation.exchange_period test_simulation <> 0%Z /\
  galilean_ready test_simulation = true /\
  let one := step_iteration test_collaborators 1 0 true false false true true false
               test_simulation in
  filter is_species_halfpush (calls_of one)
    = [species_halfpush_x 0; species_halfpush_x 1;
       species_halfpush_x 0; species_halfpush_x 1].
Proof.
  split; [cbn; lia|]. split; [reflexivity|].
  destruct (halfpush_species_only_gated test_collaborators 1 0 true false false
              true true false test_simulation) as (_ & H & _).
  - cbn. lia.
  - reflexivity.
  - exact H.
Defined.

(** C9 as stated fails: with [move_positions=False] the species are not
    half-pushed, but the antenna of the test simulation is, twice. *)
Lemma antenna_halfpush_with_frozen_positions :
  let one := step_iteration test_collaborators 1 0 true false false
               false true false test_simulation in
  outcome one = ok tt /\
  filter is_species_halfpush (calls_of one) = [] /\
  filter is_antenna_halfpush (calls_of one)
    = [antenna_halfpush_x 7 (1#10); antenna_halfpush_x 7 (1#10)].
Proof. vm_compute. repeat split. Qed.

Lemma no_comoving_no_galilean_shift_example :
  exists s0,
    Simulation_init test_collaborators test_args = ok s0 /\
    Args.v_comoving test_args = None /\
    Args.use_galilean test_args = true /\
    Simulation.use_galilean s0 = false /\
    filter is_shift
      (calls_of (step test_collaborators 5 true false false true true false s0)) = [].
Proof.
  destruct (Simulation_init test_collaborators test_args) as [err|s0] eqn:E.
  - vm_compute in E. discriminate E.
  - exists s0. split; [reflexivity|]. split; [reflexivity|]. split; [reflexivity|].
    destruct (no_comoving_no_galilean_shift test_collaborators test_args s0 s0
                eq_refl E (reach_init _ _)) as (H1 & _ & H3).
    split; [exact H1|].
    apply (H3 5%Z true false false true true false).
Defined.

(** * Further properties of [adapt_to_grid] *)

(** X1. [adapt_to_grid] needs a grid of at least two points: on an empty
    grid [x.min()] raises [ValueError], on a one-point grid [x[1]] raises
    [IndexError], and on every longer grid a triple is returned, whatever
    the other arguments are. *)
Theorem adapt_to_grid_defined :
  forall (x : list Q) (p_xmin p_xmax : Q) (p_nx ncells_empty : Z),
    match x with
    | [] =>
        adapt_to_grid x p_xmin p_xmax p_nx ncells_empty
        = raise_ (ValueError
            "zero-size array to reduction operation minimum which has no identity")
    | [_] => adapt_to_grid x p_xmin p_xmax p_nx ncells_empty = raise_ IndexError
    | _ :: _ :: _ =>
        exists lo hi cnt,
          adapt_to_grid x p_xmin p_xmax p_nx ncells_empty = ok (lo, hi, cnt)
    end.
Proof.
  intros x a b n e. destruct x as [|x0 [|x1 t]]; [reflexivity|reflexivity|].
  destruct (np_min_spec (x0 :: x1 :: t)) as (xmin & Emin & _); [discriminate|].
  destruct (np_max_spec (x0 :: x1 :: t)) as (xmax & Emax & _); [discriminate|].
  rewrite (adapt_to_grid_unfold _ _ _ _ _ _ _ _ _ Emin Emax). cbv zeta.
  match goal with |- context [(0 <? ?v)%Z] => destruct (0 <? v)%Z eqn:Epos end.
  - match goal with |- context [np_min ?l] => set (sel := l) in * end.
    assert (Hne : sel <> []).
    { intro E. rewrite E in Epos. discriminate. }
    destruct (np_min_spec sel Hne) as (smin & Es & _).
    destruct (np_max_spec sel Hne) as (smax & Et & _).
    rewrite Es, Et. cbn [rbind ok]. eexists _, _, _. reflexivity.
  - eexists _, _, _. reflexivity.
Qed.

(** X4. The selection does not depend on [p_nx]: multiplying the number
    of particles per cell by [k > 0] multiplies the returned count by [k]
    and leaves the returned bounds as they were. *)
Theorem adapt_to_grid_scales :
  forall (x : list Q) (p_xmin p_xmax : Q) (p_nx ncells_empty k : Z)
         (lo hi : Q) (cnt : Z),
    (0 < k)%Z ->
    adapt_to_grid x p_xmin p_xmax p_nx ncells_empty = ok (lo, hi, cnt) ->
    adapt_to_grid x p_xmin p_xmax (k * p_nx) ncells_empty = ok (lo, hi, (k * cnt)%Z).
Proof.
  intros x a b n e k lo hi cnt Hk.
  destruct x as [|x0 [|x1 t]]; [discriminate|discriminate|].
  destruct (np_min_spec (x0 :: x1 :: t)) as (xmin & Emin & _); [discriminate|].
  destruct (np_max_spec (x0 :: x1 :: t)) as (xmax & Emax & _); [discriminate|].
  rewrite !(adapt_to_grid_unfold _ _ _ _ _ _ _ _ _ Emin Emax). cbv zeta.
  match goal with |- context [Z.of_nat (length ?l)] => set (sel := l) end.
  set (m := Z.of_nat (length sel)).
  assert (Esign : (0 <? m * (k * n))%Z = (0 <? m * n)%Z).
  { destruct (Z.ltb_spec 0 (m * n)) as [H|H].
    - apply Z.ltb_lt. nia.
    - apply Z.ltb_ge. nia. }
  rewrite Esign.
  replace (m * (k * n))%Z with (k * (m * n))%Z by ring.
  destruct (0 <? m * n)%Z.
  - destruct (np_min sel) as [err|smin]; [discriminate|].
    destruct (np_max sel) as [err|smax]; [discriminate|].
    cbn [rbind ok]. intros H. injection H as <- <- <-. reflexivity.
  - intros H. injection H as <- <- <-. reflexivity.
Qed.

Lemma adapt_to_grid_scales_example :
  (0 < 3)%Z /\
  adapt_to_grid [1#2; 3#2; 5#2; 7#2] (1#1) (3#1) (3 * 2) 0
  = ok (16 # 16, 48 # 16, (3 * 4)%Z).
Proof.
  split; [lia|].
  apply (adapt_to_grid_scales [1#2; 3#2; 5#2; 7#2] (1#1) (3#1) 2 0 3); [lia|].
  vm_compute. reflexivity.
Defined.

(** X5. A requested range that is empty or inverted
    ([p_xmax <= p_xmin]) is no error: it selects no grid point and the
    count is 0. *)
Theorem adapt_to_grid_empty_range :
  forall (x : list Q) (p_xmin p_xmax : Q) (p_nx ncells_empty : Z),
    (2 <= length x)%nat ->
    p_xmax <= p_xmin ->
    exists lo hi,
      adapt_to_grid x p_xmin p_xmax p_nx ncells_empty = ok (lo, hi, 0%Z).
Proof.
  intros x a b n e Hlen Hab.
  destruct x as [|x0 [|x1 t]]; simpl in Hlen; try lia.
  destruct (np_min_spec (x0 :: x1 :: t)) as (xmin & Emin & _); [discriminate|].
  destruct (np_max_spec (x0 :: x1 :: t)) as (xmax & Emax & _); [discriminate|].
  rewrite (adapt_to_grid_unfold _ _ _ _ _ _ _ _ _ Emin Emax). cbv zeta.
  set (dx := x1 - x0).
  set (a1 := if Qltb a (xmin - (1#2) * dx) then xmin - (1#2) * dx else a).
  set (b1 := if Qltb (xmax + ((1#2) - inject_Z e) * dx) b
             then xmax + ((1#2) - inject_Z e) * dx else b).
  assert (Ha : a <= a1).
  { unfold a1. destruct (Qltb a _) eqn:E; [apply Qltb_lt in E; lra|lra]. }
  assert (Hb : b1 <= b).
  { unfold b1. destruct (Qltb _ b) eqn:E; [apply Qltb_lt in E; lra|lra]. }
  assert (Esel : filter (fun xi => Qltb a1 xi && Qltb xi b1) (x0 :: x1 :: t) = []).
  { assert (H : forall l, filter (fun xi => Qltb a1 xi && Qltb xi b1) l = []).
    { induction l as [|y l IH]; [reflexivity|]. cbn [filter].
      destruct (Qltb a1 y && Qltb y b1) eqn:E; [|exact IH].
      apply andb_true_iff in E. rewrite !Qltb_lt in E. lra. }
    apply H. }
  rewrite Esel. cbn [length Z.of_nat Z.mul Z.ltb Z.compare].
  eexists _, _. reflexivity.
Qed.

Lemma adapt_to_grid_empty_range_example :
  exists lo hi,
    adapt_to_grid [1#2; 3#2; 5#2; 7#2] (3#1) (1#1) 2 0 = ok (lo, hi, 0%Z).
Proof.
  apply (adapt_to_grid_empty_range [1#2; 3#2; 5#2; 7#2] (3#1) (1#1) 2 0).
  - cbn. lia.
  - vm_compute. discriminate.
Defined.

Lemma evenly_spaced_cons d a b t :
  evenly_spaced d (a :: b :: t) = true ->
  b - a == d /\ evenly_spaced d (b :: t) = true.
Proof.
  cbn [evenly_spaced]. intros H. apply andb_true_iff in H.
  destruct H as [H1 H2]. apply Qeq_bool_iff in H1. split; assumption.
Qed.

(** The points of an evenly spaced grid are its first point plus a whole
    number of steps. *)
Lemma evenly_spaced_offsets d a t :
  evenly_spaced d (a :: t) = true ->
  forall y, In y (a :: t) ->
  exists j : nat, (j <= length t)%nat /\ y == a + inject_Z (Z.of_nat j) * d.
Proof.
  revert a. induction t as [|b t IH]; intros a H y Hy.
  - destruct Hy as [<-|[]]. exists 0%nat. split; [cbn; lia|]. cbn. ring.
  - destruct (evenly_spaced_cons _ _ _ _ H) as [Hab Ht].
    destruct Hy as [<-|Hy].
    + exists 0%nat. split; [cbn; lia|]. cbn. ring.
    + destruct (IH b Ht y Hy) as (j & Hj & Ey).
      exists (S j). split; [cbn; lia|].
      rewrite Ey, Nat2Z.inj_succ, <- Z.add_1_r, inject_Z_plus.
      change (inject_Z 1) with 1. lra.
Qed.

Lemma evenly_spaced_last d a t :
  evenly_spaced d (a :: t) = true ->
  exists y, In y (a :: t) /\ y == a + inject_Z (Z.of_nat (length t)) * d.
Proof.
  revert a. induction t as [|b t IH]; intros a H.
  - exists a. split; [now left|]. cbn. ring.
  - destruct (evenly_spaced_cons _ _ _ _ H) as [Hab Ht].
    destruct (IH b Ht) as (y & Hy & Ey).
    exists y. split; [now right|].
    rewrite Ey. cbn [length]. rewrite Nat2Z.inj_succ, <- Z.add_1_r, inject_Z_plus.
    change (inject_Z 1) with 1. lra.
Qed.

Lemma whole_steps_below_half (k : Z) (d : Q) :
  0 < d -> inject_Z k * d < (1#2) * d -> inject_Z k * d <= 0.
Proof.
  intros Hd H.
  destruct (Z_le_gt_dec k 0) as [Hk|Hk].
  - assert (Hq : inject_Z k <= 0) by (rewrite Zle_Qle in Hk; exact Hk).
    setoid_replace 0 with (0 * d) by ring.
    apply Qmult_le_compat_r; [exact Hq|now apply Qlt_le_weak].
  - exfalso.
    assert (Hq : 1 <= inject_Z k).
    { assert (Hk' : (1 <= k)%Z) by lia. rewrite Zle_Qle in Hk'. exact Hk'. }
    assert (H1 : 1 * d <= inject_Z k * d).
    { apply Qmult_le_compat_r; [exact Hq|now apply Qlt_le_weak]. }
    lra.
Qed.

(** X2. On an evenly spaced grid the returned bounds never leave the
    part of the box in which particles may be loaded: the lower bound is
    at least [min(x) - 0.5*dx], and the upper bound at most
    [max(x) + (0.5 - ncells_empty)*dx], so that the last [ncells_empty]
    cells stay empty. *)
Theorem adapt_to_grid_within_box :
  forall (x : list Q) (p_xmin p_xmax : Q) (p_nx ncells_empty : Z)
         (lo hi : Q) (cnt : Z),
    uniform_grid x = true ->
    adapt_to_grid x p_xmin p_xmax p_nx ncells_empty = ok (lo, hi, cnt) ->
    exists xmin xmax x0 x1,
      is_min xmin x /\ is_max xmax x /\
      nth_error x 0 = Some x0 /\ nth_error x 1 = Some x1 /\
      xmin - (1#2) * (x1 - x0) <= lo /\
      hi <= xmax + ((1#2) - inject_Z ncells_empty) * (x1 - x0).
Proof.
  intros x a b n e lo hi cnt Hu.
  destruct x as [|x0 [|x1 t]]; try discriminate.
  cbn [uniform_grid] in Hu. apply andb_true_iff in Hu. destruct Hu as [Hd Hes].
  apply Qltb_lt in Hd.
  destruct (np_min_spec (x0 :: x1 :: t)) as (xmin & Emin & Hmin); [discriminate|].
  destruct (np_max_spec (x0 :: x1 :: t)) as (xmax & Emax & Hmax); [discriminate|].
  rewrite (adapt_to_grid_unfold _ _ _ _ _ _ _ _ _ Emin Emax). cbv zeta.
  set (dx := x1 - x0) in *.
  set (L := xmin - (1#2) * dx).
  set (U := xmax + ((1#2) - inject_Z e) * dx).
  set (a1 := if Qltb a L then L else a).
  set (b1 := if Qltb U b then U else b).
  assert (Ha : L <= a1).
  { unfold a1. destruct (Qltb a L) eqn:E; [apply Qle_refl|now apply Qltb_ge]. }
  assert (Hb : b1 <= U).
  { unfold b1. destruct (Qltb U b) eqn:E; [apply Qle_refl|now apply Qltb_ge]. }
  set (sel := filter (fun xi => Qltb a1 xi && Qltb xi b1) (x0 :: x1 :: t)).
  intros H. exists xmin, xmax, x0, x1.
  split; [exact Hmin|]. split; [exact Hmax|].
  split; [reflexivity|]. split; [reflexivity|].
  destruct (0 <? Z.of_nat (length sel) * n)%Z eqn:Epos.
  - assert (Hne : sel <> []).
    { intro E. rewrite E in Epos. discriminate. }
    destruct (np_min_spec sel Hne) as (smin & Es & Hsmin & _).
    destruct (np_max_spec sel Hne) as (smax & Et & Hsmax & _).
    rewrite Es, Et in H. cbn [rbind ok] in H. injection H as <- <- <-.
    apply in_open_interval in Hsmin. destruct Hsmin as (Hsmin_x & _ & _).
    apply in_open_interval in Hsmax. destruct Hsmax as (Hsmax_x & _ & Hsmax_b).
    split.
    + destruct Hmin as [_ Hmin]. specialize (Hmin smin Hsmin_x).
      unfold L, dx. lra.
    + destruct Hmax as [Hmax_x _].
      destruct (evenly_spaced_offsets dx x0 (x1 :: t) Hes smax Hsmax_x)
        as (j2 & _ & E2).
      destruct (evenly_spaced_offsets dx x0 (x1 :: t) Hes xmax Hmax_x)
        as (j1 & _ & E1).
      pose proof (whole_steps_below_half
                    (Z.of_nat j2 - Z.of_nat j1 + e) dx Hd) as Hk.
      unfold Zminus in Hk. rewrite !inject_Z_plus, inject_Z_opp in Hk.
      assert (Hlt : smax < U) by lra.
      unfold U, dx in *. lra.
  - injection H as <- <- <-. unfold L, U, dx in *. split; assumption.
Qed.

Lemma adapt_to_grid_within_box_example :
  uniform_grid [1#2; 3#2; 5#2; 7#2] = true /\
  exists xmax hi,
    is_max xmax [1#2; 3#2; 5#2; 7#2] /\
    hi <= xmax + ((1#2) - inject_Z 2) * ((3#2) - (1#2)) /\
    adapt_to_grid [1#2; 3#2; 5#2; 7#2] (1#1) (9#1) 2 2 = ok (16 # 16, hi, 2%Z).
Proof.
  split; [reflexivity|].
  destruct (adapt_to_grid_within_box [1#2; 3#2; 5#2; 7#2] (1#1) (9#1) 2 2
              (16 # 16) (32 # 16) 2)
    as (xmin & xmax & x0 & x1 & _ & Hmax & E0 & E1 & _ & Hhi).
  - reflexivity.
  - vm_compute. reflexivity.
  - exists xmax, (32 # 16). cbn in E0, E1.
    injection E0 as <-. injection E1 as <-.
    split; [exact Hmax|]. split; [exact Hhi|]. vm_compute. reflexivity.
Defined.

Lemma filter_all_false {A} (p : A -> bool) (l : list A) :
  (forall y, In y l -> p y = false) -> filter p l = [].
Proof.
  induction l as [|y l IH]; intros H; [reflexivity|].
  cbn [filter]. rewrite (H y (or_introl eq_refl)).
  apply IH. intros z Hz. apply H. now right.
Qed.

(** The points of an evenly spaced grid that lie in an interval are
    again evenly spaced: they are consecutive points of the grid. *)
Lemma filter_interval_evenly_spaced d a b l :
  0 < d -> evenly_spaced d l = true ->
  evenly_spaced d (filter (fun xi => Qltb a xi && Qltb xi b) l) = true.
Proof.
  intros Hd. induction l as [|y l IH]; intros H; [reflexivity|].
  pose proof (evenly_spaced_tail _ _ _ H) as Ht.
  cbn [filter]. destruct (Qltb a y && Qltb y b) eqn:Ey; [|now apply IH].
  apply andb_true_iff in Ey. destruct Ey as [Hay Hyb].
  apply Qltb_lt in Hay. apply Qltb_lt in Hyb.
  destruct l as [|y' l]; [reflexivity|].
  destruct (evenly_spaced_cons _ _ _ _ H) as [Hyy' _].
  cbn [filter]. destruct (Qltb a y' && Qltb y' b) eqn:Ey'.
  - specialize (IH Ht). cbn [filter] in IH. rewrite Ey' in IH.
    cbn [evenly_spaced]. apply andb_true_iff. split.
    + apply Qeq_bool_iff. exact Hyy'.
    + exact IH.
  - assert (Hby' : b <= y').
    { apply andb_false_iff in Ey'. destruct Ey' as [E|E]; apply Qltb_ge in E; lra. }
    rewrite filter_all_false; [reflexivity|].
    intros w Hw. apply andb_false_iff. right. apply Qltb_ge.
    pose proof (evenly_spaced_head_le d y' l Hd Ht w Hw). lra.
Qed.

Lemma evenly_spaced_span d a t m M :
  0 < d -> evenly_spaced d (a :: t) = true ->
  is_min m (a :: t) -> is_max M (a :: t) ->
  M - m == inject_Z (Z.of_nat (length t)) * d.
Proof.
  intros Hd H [Hm_in Hm] [HM_in HM].
  assert (Em : m == a).
  { apply Qle_antisym; [apply Hm; now left|].
    destruct Hm_in as [<-|Hin]; [apply Qle_refl|].
    pose proof (evenly_spaced_head_le d a t Hd H m Hin). lra. }
  destruct (evenly_spaced_last d a t H) as (y & Hy & Ey).
  destruct (evenly_spaced_offsets d a t H M HM_in) as (j & Hj & EM).
  assert (Hle : inject_Z (Z.of_nat j) * d <= inject_Z (Z.of_nat (length t)) * d).
  { apply Qmult_le_compat_r; [|now apply Qlt_le_weak].
    rewrite <- Zle_Qle. lia. }
  specialize (HM y Hy). lra.
Qed.

(** X3. On an evenly spaced grid, when particles are loaded
    ([Npx > 0]), the returned bounds cover whole cells and exactly the
    selected ones: the returned count is the number of cells between
    the bounds, [(hi - lo)/dx], times [p_nx]. *)
Theorem adapt_to_grid_whole_cells :
  forall (x : list Q) (p_xmin p_xmax : Q) (p_nx ncells_empty : Z)
         (lo hi : Q) (cnt : Z) (x0 x1 : Q),
    uniform_grid x = true ->
    nth_error x 0 = Some x0 -> nth_error x 1 = Some x1 ->
    adapt_to_grid x p_xmin p_xmax p_nx ncells_empty = ok (lo, hi, cnt) ->
    (0 < cnt)%Z ->
    inject_Z cnt == (hi - lo) / (x1 - x0) * inject_Z p_nx.
Proof.
  intros x a b n e lo hi cnt x0' x1' Hu E0 E1.
  destruct x as [|x0 [|x1 t]]; try discriminate.
  cbn in E0, E1. injection E0 as <-. injection E1 as <-.
  cbn [uniform_grid] in Hu. apply andb_true_iff in Hu. destruct Hu as [Hd Hes].
  apply Qltb_lt in Hd.
  destruct (np_min_spec (x0 :: x1 :: t)) as (xmin & Emin & Hmin); [discriminate|].
  destruct (np_max_spec (x0 :: x1 :: t)) as (xmax & Emax & Hmax); [discriminate|].
  rewrite (adapt_to_grid_unfold _ _ _ _ _ _ _ _ _ Emin Emax). cbv zeta.
  match goal with |- context [Z.of_nat (length ?l)] => set (sel := l) end.
  assert (Hsel : evenly_spaced (x1 - x0) sel = true)
    by (apply filter_interval_evenly_spaced; assumption).
  assert (Hspan : forall smin smax,
             is_min smin sel -> is_max smax sel ->
             smax - smin == (inject_Z (Z.of_nat (length sel)) - 1) * (x1 - x0)).
  { intros smin smax Hsmin Hsmax.
    destruct sel as [|s0 st]; [destruct Hsmin as [[] _]|].
    rewrite (evenly_spaced_span _ _ _ _ _ Hd Hsel Hsmin Hsmax).
    cbn [length]. rewrite Nat2Z.inj_succ, <- Z.add_1_r, inject_Z_plus.
    change (inject_Z 1) with 1. ring. }
  clearbody sel.
  destruct (0 <? Z.of_nat (length sel) * n)%Z eqn:Epos.
  - assert (Hne : sel <> []).
    { intro E. rewrite E in Epos. discriminate. }
    destruct (np_min_spec sel Hne) as (smin & Es & Hsmin).
    destruct (np_max_spec sel Hne) as (smax & Et & Hsmax).
    rewrite Es, Et. cbn [rbind ok]. intros H _. injection H as <- <- <-.
    specialize (Hspan smin smax Hsmin Hsmax).
    rewrite inject_Z_mult.
    set (k := inject_Z (Z.of_nat (length sel))) in *.
    setoid_replace (smax + (1#2) * (x1 - x0) - (smin - (1#2) * (x1 - x0)))
      with (k * (x1 - x0)) by lra.
    field. lra.
  - intros H Hpos. injection H as <- <- <-.
    apply Z.ltb_ge in Epos. lia.
Qed.

Lemma adapt_to_grid_whole_cells_example :
  uniform_grid [1#2; 3#2; 5#2; 7#2] = true /\
  inject_Z 4 == ((48 # 16) - (16 # 16)) / ((3#2) - (1#2)) * inject_Z 2.
Proof.
  split; [reflexivity|].
  apply (adapt_to_grid_whole_cells [1#2; 3#2; 5#2; 7#2] (1#1) (3#1) 2 0
           (16 # 16) (48 # 16) 4 (1#2) (3#2)).
  - reflexivity.
  - reflexivity.
  - reflexivity.
  - vm_compute. reflexivity.
  - lia.
Defined.

(** * Further properties of [__init__] *)

Lemma py_div_zero a b : b == 0 -> py_div a b = raise_ ZeroDivisionError.
Proof.
  intros Hb. unfold py_div. apply Qeq_bool_iff in Hb. now rewrite Hb.
Qed.

(** X6. When the time step, the number of cells or the length of the
    local box is zero and no [exchange_period] is given, the construction
    raises [ZeroDivisionError]; this also holds for a single-process
    periodic run, although the quotient would then be discarded. *)
Theorem exchange_period_zero_division :
  forall (K : Collaborators) (a : Args.t) (comm : BoundaryCommunicator.t)
         (zmin zmax dt p_zmin p_zmax n_e uz_m : Q) (Nz : Z),
    init_domain K a = ok (comm, (zmin, zmax, dt, p_zmin, p_zmax, n_e, uz_m, Nz)) ->
    Args.exchange_period a = None ->
    (Nz = 0%Z \/ zmax == zmin \/ dt == 0) ->
    init_exchange_period (Args.exchange_period a) dt zmin zmax Nz comm
      (Args.boundaries a) = raise_ ZeroDivisionError /\
    Simulation_init K a = raise_ ZeroDivisionError.
Proof.
  intros K a comm zmin zmax dt pzmin pzmax ne uzm Nz Hd Hnone Hzero.
  assert (Hmain :
    init_exchange_period (Args.exchange_period a) dt zmin zmax Nz comm
      (Args.boundaries a) = raise_ ZeroDivisionError).
  { rewrite Hnone. unfold init_exchange_period.
    destruct (Z.eq_dec Nz 0) as [HN|HN].
    { rewrite py_div_zero; [reflexivity|]. rewrite HN. reflexivity. }
    assert (H1 : ~ inject_Z Nz == 0) by (unfold Qeq; cbn; lia).
    rewrite (py_div_ok _ _ H1). cbn [rbind ok].
    destruct (Qeq_dec zmax zmin) as [Hz|Hz].
    { rewrite py_div_zero; [reflexivity|].
      setoid_replace (zmax - zmin) with 0 by lra. field. exact H1. }
    destruct (cells_per_step_defined 1 zmin zmax Nz HN Hz ltac:(lra))
      as (_ & H2 & _).
    rewrite (py_div_ok _ _ H2). cbn [rbind ok].
    destruct Hzero as [HN'|[Hz'|Hdt]]; [contradiction|contradiction|].
    rewrite py_div_zero; [reflexivity|].
    setoid_replace (2 * c * dt) with 0 by (rewrite Hdt; ring).
    field. split; [exact H1|lra]. }
  split; [exact Hmain|].
  exact (Simulation_init_exchange_error K a _ _ _ _ _ _ _ _ _ _ Hd Hmain).
Qed.

Lemma exchange_period_zero_division_example :
  Args.boundaries test_args_zero_dt = "periodic"%string /\
  Simulation_init test_collaborators test_args_zero_dt = raise_ ZeroDivisionError.
Proof.
  split; [reflexivity|].
  apply (exchange_period_zero_division test_collaborators test_args_zero_dt
           (BoundaryCommunicator.mk 0 1 20 None)
           0 (20 # 1000000) 0 0 (20 # 1000000) (1 # 1) 0 64%Z).
  - vm_compute. reflexivity.
  - reflexivity.
  - right. right. reflexivity.
Defined.

Lemma Simulation_init_inv K a s :
  Simulation_init K a = ok s ->
  exists comm zmin zmax dt p_zmin p_zmax n_e uz_m Nz exchange_period,
    init_domain K a = ok (comm, (zmin, zmax, dt, p_zmin, p_zmax, n_e, uz_m, Nz)) /\
    init_exchange_period (Args.exchange_period a) dt zmin zmax Nz comm
      (Args.boundaries a) = ok exchange_period /\
    init_structures K a
      (if Args.use_cuda a && negb (cuda_installed K) then false
       else Args.use_cuda a)
      (Args.v_comoving a)
      (match Args.v_comoving a with
       | None => false
       | Some _ => Args.use_galilean a
       end)
      comm (zmin, zmax, dt, p_zmin, p_zmax, n_e, uz_m, Nz) exchange_period
    = ok s.
Proof.
  unfold Simulation_init. cbv zeta.
  destruct (init_domain K a)
    as [err|[comm [[[[[[[zmin zmax] dt] pzmin] pzmax] ne] uzm] Nz]]];
    [discriminate|].
  cbn [rbind].
  destruct (init_exchange_period _ _ _ _ _ _ _) as [err|ep] eqn:Eep;
    [discriminate|].
  cbn [rbind]. intros H.
  exists comm, zmin, zmax, dt, pzmin, pzmax, ne, uzm, Nz, ep.
  split; [reflexivity|]. split; [exact Eep|exact H].
Qed.

Lemma init_structures_inv K a uc v ug comm zmin zmax dt p_zmin p_zmax n_e uz_m Nz ep s :
  init_structures K a uc v ug comm
    (zmin, zmax, dt, p_zmin, p_zmax, n_e, uz_m, Nz) ep = ok s ->
  exists fld g lo_z hi_z Npz lo_r hi_r Npr,
    fld = new_Fields K Nz zmax (Args.Nr a) (Args.rmax a) (Args.Nm a) dt
            (Args.n_order a) zmin v (Args.use_galilean a) uc /\
    nth_error (Fields.interp fld) 0 = Some g /\
    adapt_to_grid (InterpolationGrid.z g) p_zmin p_zmax (Args.p_nz a) 0
      = ok (lo_z, hi_z, Npz) /\
    adapt_to_grid (InterpolationGrid.r g) (Args.p_rmin a) (Args.p_rmax a)
      (Args.p_nr a) 0 = ok (lo_r, hi_r, Npr) /\
    let species (q m : Q) :=
      Particles.mk q m n_e Npz lo_z hi_z Npr lo_r hi_r (Args.p_nt a) dt
        (Args.dens_func a) uc uz_m (InterpolationGrid.Ez_shape g)
        (Args.particle_shape a) false in
    s = Simulation.mk uc v ug comm ep fld
          (if Args.initialize_ions a
           then [species (- e K) (m_e K)] ++ [species (e K) (m_p K)]
           else [species (- e K) (m_e K)])
          dt (Args.p_nz a) 0 0%Z (Args.filter_currents a) [] [] [].
Proof.
  unfold init_structures.
  destruct (nth_error _ 0) as [g|] eqn:Eg; [|discriminate].
  cbn [rbind ok].
  destruct (adapt_to_grid (InterpolationGrid.z g) _ _ _ _) as [err|[[a1 b1] n1]] eqn:Ez;
    [discriminate|].
  cbn [rbind].
  destruct (adapt_to_grid (InterpolationGrid.r g) _ _ _ _) as [err|[[a2 b2] n2]] eqn:Er;
    [discriminate|].
  cbn [rbind]. intros H. injection H as <-.
  eexists _, g, a1, b1, n1, a2, b2, n2.
  split; [reflexivity|]. split; [exact Eg|]. split; [exact Ez|]. split; [exact Er|].
  destruct (Args.initialize_ions a); reflexivity.
Qed.

(** X8. A constructed simulation starts at [time = 0], [iteration = 0],
    without diagnostics, external fields or laser antennas.  It holds the
    electrons (charge [-e], mass [m_e]) and, only when
    [initialize_ions] is set, after them the ions (charge [+e], mass
    [m_p]), which are loaded in the same region, with the same numbers of
    particles and the same density as the electrons. *)
Theorem Simulation_init_initial_state :
  forall (K : Collaborators) (a : Args.t) (s : Simulation.t),
    Simulation_init K a = ok s ->
    Simulation.time s = 0 /\
    Simulation.iteration s = 0%Z /\
    Simulation.diags s = [] /\
    Simulation.external_fields s = [] /\
    Simulation.laser_antennas s = [] /\
    exists electrons,
      Particles.q electrons = - e K /\
      Particles.m electrons = m_e K /\
      Simulation.ptcl s
      = if Args.initialize_ions a
        then [electrons;
              Particles.mk (e K) (m_p K) (Particles.n electrons)
                (Particles.Npz electrons) (Particles.zmin electrons)
                (Particles.zmax electrons) (Particles.Npr electrons)
                (Particles.rmin electrons) (Particles.rmax electrons)
                (Particles.Nptheta electrons) (Particles.dt electrons)
                (Particles.dens_func electrons) (Particles.use_cuda electrons)
                (Particles.uz_m electrons) (Particles.grid_shape electrons)
                (Particles.particle_shape electrons) (Particles.sorted electrons)]
        else [electrons].
Proof.
  intros K a s H.
  destruct (Simulation_init_inv K a s H)
    as (comm & zmin & zmax & dt & pzmin & pzmax & ne & uzm & Nz & ep & _ & _ & Hs).
  destruct (init_structures_inv _ _ _ _ _ _ _ _ _ _ _ _ _ _ _ _ Hs)
    as (fld & g & loz & hiz & Npz & lor & hir & Npr & _ & _ & _ & _ & ->).
  cbn.
  repeat (split; [reflexivity|]).
  exists (Particles.mk (- e K) (m_e K) ne Npz loz hiz Npr lor hir (Args.p_nt a) dt
            (Args.dens_func a)
            (if Args.use_cuda a && negb (cuda_installed K) then false
             else Args.use_cuda a)
            uzm (InterpolationGrid.Ez_shape g) (Args.particle_shape a) false).
  split; [reflexivity|]. split; [reflexivity|].
  destruct (Args.initialize_ions a); reflexivity.
Qed.

Lemma Simulation_init_initial_state_example :
  exists s0,
    Simulation_init test_collaborators test_args = ok s0 /\
    Simulation.iteration s0 = 0%Z /\
    length (Simulation.ptcl s0) = 1%nat.
Proof.
  destruct (Simulation_init test_collaborators test_args) as [err|s0] eqn:E.
  - vm_compute in E. discriminate E.
  - exists s0. split; [reflexivity|].
    destruct (Simulation_init_initial_state test_collaborators test_args s0 E)
      as (_ & H2 & _ & _ & _ & electrons & _ & _ & H3).
    split; [exact H2|]. rewrite H3. reflexivity.
Defined.

(** X9. A simulation never uses CUDA when CUDA is not installed, and
    uses it only when asked to; the species are created with the same
    setting as the simulation. *)
Theorem Simulation_init_use_cuda :
  forall (K : Collaborators) (a : Args.t) (s : Simulation.t),
    Simulation_init K a = ok s ->
    Simulation.use_cuda s = Args.use_cuda a && cuda_installed K /\
    Forall (fun species => Particles.use_cuda species = Simulation.use_cuda s)
      (Simulation.ptcl s).
Proof.
  intros K a s H.
  destruct (Simulation_init_inv K a s H)
    as (comm & zmin & zmax & dt & pzmin & pzmax & ne & uzm & Nz & ep & _ & _ & Hs).
  destruct (init_structures_inv _ _ _ _ _ _ _ _ _ _ _ _ _ _ _ _ Hs)
    as (fld & g & loz & hiz & Npz & lor & hir & Npr & _ & _ & _ & _ & ->).
  cbn. split.
  - destruct (Args.use_cuda a), (cuda_installed K); reflexivity.
  - destruct (Args.initialize_ions a); repeat constructor.
Qed.

Lemma Simulation_init_use_cuda_example :
  exists s0,
    Simulation_init test_collaborators test_args = ok s0 /\
    Simulation.use_cuda s0 = false.
Proof.
  destruct (Simulation_init test_collaborators test_args) as [err|s0] eqn:E.
  - vm_compute in E. discriminate E.
  - exists s0. split; [reflexivity|].
    destruct (Simulation_init_use_cuda test_collaborators test_args s0 E) as [H _].
    rewrite H. reflexivity.
Defined.

(** * Further properties of [step] *)

Tactic Notation "select_calls" reference(p) :=
  unfold iteration_calls, deposit_calls, shift_calls;
  filter_pieces;
  match goal with
  | |- context [BoundaryCommunicator.moving_win (Simulation.comm ?s)] =>
      destruct (BoundaryCommunicator.moving_win (Simulation.comm s))
  end;
  cbn [filter p app String.eqb Ascii.eqb Bool.eqb];
  rewrite ?if_same, ?flat_map_nil, ?flat_map_singleton;
  cbn [app]; rewrite ?app_nil_r.

Lemma iteration_calls_gpu K N i cc cd utr mp mm sp s :
  filter is_gpu_transfer (iteration_calls K N i cc cd utr mp mm sp s) = [].
Proof. select_calls is_gpu_transfer; reflexivity. Qed.

Lemma iteration_calls_diag K N i cc cd utr mp mm sp s :
  filter is_diag_write (iteration_calls K N i cc cd utr mp mm sp s)
  = map (fun diag => diag_write diag (Simulation.iteration s)) (Simulation.diags s).
Proof. select_calls is_diag_write; reflexivity. Qed.

Lemma iteration_calls_move_grids K N i cc cd utr mp mm sp s :
  filter is_move_grids (iteration_calls K N i cc cd utr mp mm sp s)
  = if has_window s
    then [comm_move_grids (Simulation.dt s) (Simulation.time s)] else [].
Proof. unfold has_window. select_calls is_move_grids; reflexivity. Qed.

Lemma iteration_calls_solver K N i cc cd utr mp mm sp s :
  filter is_solver_call (iteration_calls K N i cc cd utr mp mm sp s)
  = [fld_interp2spect "rho_prev"; fld_interp2spect "J"; fld_interp2spect "rho_next"]
    ++ (if cc then [fld_correct_currents] else [])
    ++ [fld_interp2spect "E"; fld_interp2spect "B"; fld_push utr]
    ++ (if cd then [fld_correct_divE] else [])
    ++ [fld_spect2interp "E"; fld_spect2interp "B"].
Proof. select_calls is_solver_call; destruct cc, cd; reflexivity. Qed.

Lemma iteration_calls_momentum K N i cc cd utr mp mm sp s :
  filter is_momentum_call (iteration_calls K N i cc cd utr mp mm sp s)
  = map species_gather (indices (Simulation.ptcl s))
    ++ map species_handle_ionization (indices (Simulation.ptcl s))
    ++ (if mm then map species_push_p (indices (Simulation.ptcl s)) else []).
Proof. select_calls is_momentum_call; destruct mm; cbn [app]; reflexivity. Qed.

Lemma py_range_nonpositive N : (N <= 0)%Z -> py_range N = [].
Proof.
  intros H. unfold py_range. replace (Z.to_nat N) with 0%nat by lia. reflexivity.
Qed.

(** X10. [step(N)] with [N <= 0] runs no iteration: the simulation is
    left as it was, whatever its exchange period, and the only calls made
    are the transfers to and from the GPU (with [use_cuda]) and the final
    message (with [show_progress] on rank 0). *)
Theorem step_nonpositive :
  forall (K : Collaborators) (N : Z)
         (correct_currents correct_divE use_true_rho
          move_positions move_momenta show_progress : bool)
         (s : Simulation.t),
    (N <= 0)%Z ->
    step K N correct_currents correct_divE use_true_rho
      move_positions move_momenta show_progress s
    = (ok tt, s,
       (if Simulation.use_cuda s then [send_data_to_gpu] else [])
       ++ (if Simulation.use_cuda s then [receive_data_from_gpu] else [])
       ++ (if show_progress
              && (BoundaryCommunicator.rank (Simulation.comm s) =? 0)%Z
           then [print_time_taken] else [])).
Proof.
  intros K N cc cd utr mp mm sp s HN. unfold step.
  rewrite (py_range_nonpositive N HN). cbn [for_each].
  run_gets.
  erewrite bind_run by (apply when_run; reflexivity).
  rewrite (bind_run (ret tt) _ s tt s [] eq_refl), prepend_nil.
  run_gets.
  erewrite bind_run by (apply when_run; reflexivity).
  run_gets.
  erewrite when_run by reflexivity.
  rewrite !prepend_triple. reflexivity.
Qed.

Lemma step_nonpositive_example :
  final_state (step test_collaborators (-2) true false false true true true
                 test_simulation) = test_simulation /\
  calls_of (step test_collaborators (-2) true false false true true true
              test_simulation) = [print_time_taken].
Proof.
  rewrite (step_nonpositive test_collaborators (-2) true false false true true true
             test_simulation); [split; reflexivity|lia].
Defined.

(** X11. With an exchange period of zero, [step(N)] for [N >= 1] raises
    [ZeroDivisionError] in its first iteration, at the test
    [iteration % exchange_period]: the diagnostics have been written, the
    grids moved and the E and B guard cells exchanged, but no particle
    has been touched, [time] and [iteration] are unchanged, and with
    [use_cuda] the data sent to the GPU are not received back. *)
Theorem step_zero_exchange_period :
  forall (K : Collaborators) (N : Z)
         (correct_currents correct_divE use_true_rho
          move_positions move_momenta show_progress : bool)
         (s : Simulation.t),
    Simulation.exchange_period s = 0%Z ->
    (1 <= N)%Z ->
    let run := step K N correct_currents correct_divE use_true_rho
                 move_positions move_momenta show_progress s in
    outcome run = inl ZeroDivisionError /\
    Simulation.time (final_state run) = Simulation.time s /\
    Simulation.iteration (final_state run) = Simulation.iteration s /\
    calls_of run
    = (if Simulation.use_cuda s then [send_data_to_gpu] else [])
      ++ (if show_progress
             && (BoundaryCommunicator.rank (Simulation.comm s) =? 0)%Z
          then [progression_bar 0 N] else [])
      ++ map (fun diag => diag_write diag (Simulation.iteration s))
           (Simulation.diags s)
      ++ (if has_window s
          then [comm_move_grids (Simulation.dt s) (Simulation.time s)] else [])
      ++ [comm_exchange_fields "EB"].
Proof.
  intros K N cc cd utr mp mm sp s Hep HN. cbv zeta. unfold step.
  run_gets.
  erewrite bind_run by (apply when_run; reflexivity).
  assert (Er : py_range N = 0%Z :: map Z.of_nat (seq 1 (Z.to_nat N - 1))).
  { unfold py_range. destruct (Z.to_nat N) as [|n] eqn:E; [lia|].
    cbn [seq map]. rewrite Nat.sub_succ, Nat.sub_0_r. reflexivity. }
  rewrite Er. cbn [for_each].
  erewrite (bind_fail (bind _ _)); cycle 1.
  { apply bind_fail. apply step_iteration_div0. exact Hep. }
  rewrite prepend_triple.
  unfold outcome, final_state, calls_of, has_window. cbn [fst snd].
  destruct (same_setup_after_move_grids K s) as (_ & _ & _ & _ & _ & Et & Ei & _).
  split; [reflexivity|]. split; [exact Et|]. split; [exact Ei|].
  destruct (BoundaryCommunicator.moving_win (Simulation.comm s)); reflexivity.
Qed.

Lemma step_zero_exchange_period_example :
  let run := step test_collaborators 3 true false false true true false
               test_simulation_zero_period in
  outcome run = inl ZeroDivisionError /\
  calls_of run
  = [diag_write 1 3; comm_move_grids (1#10) (3#10); comm_exchange_fields "EB"].
Proof.
  destruct (step_zero_exchange_period test_collaborators 3 true false false true
              true false test_simulation_zero_period) as (H1 & _ & _ & H4).
  - reflexivity.
  - lia.
  - cbv zeta. split; [exact H1|]. rewrite H4. reflexivity.
Defined.

Lemma loop_calls_gpu K N cc cd utr mp mm sp steps s :
  filter is_gpu_transfer (loop_calls K N cc cd utr mp mm sp steps s) = [].
Proof.
  revert s. induction steps as [|i rest IH]; intros s; [reflexivity|].
  cbn [loop_calls]. rewrite filter_app, iteration_calls_gpu, IH. reflexivity.
Qed.

(** X12. A call of [step] that returns moves the data to the GPU once,
    before its first iteration, and back once, after its last one, and
    only when [use_cuda] is set; no iteration makes such a transfer.  The
    calls of [step] are, in this order: the transfer to the GPU, the
    calls of the loop over the [N] iterations, the transfer back, and
    the final message. *)
Theorem step_gpu_transfers :
  forall (K : Collaborators) (N : Z)
         (correct_currents correct_divE use_true_rho
          move_positions move_momenta show_progress : bool)
         (s : Simulation.t),
    Simulation.exchange_period s <> 0%Z ->
    galilean_ready s = true ->
    let run := step K N correct_currents correct_divE use_true_rho
                 move_positions move_momenta show_progress s in
    filter is_gpu_transfer (calls_of run)
      = (if Simulation.use_cuda s
         then [send_data_to_gpu; receive_data_from_gpu] else []) /\
    (Simulation.use_cuda s = true ->
     hd_error (calls_of run) = Some send_data_to_gpu) /\
    (forall i_step,
        filter is_gpu_transfer
          (calls_of (step_iteration K N i_step correct_currents correct_divE
                       use_true_rho move_positions move_momenta show_progress s))
        = []) /\
    let loop :=
      for_each (py_range N) (fun i_step =>
        step_iteration K N i_step correct_currents correct_divE use_true_rho
          move_positions move_momenta show_progress) s in
    calls_of run
    = (if Simulation.use_cuda s then [send_data_to_gpu] else [])
      ++ calls_of loop
      ++ (if Simulation.use_cuda s then [receive_data_from_gpu] else [])
      ++ (if show_progress
             && (BoundaryCommunicator.rank (Simulation.comm s) =? 0)%Z
          then [print_time_taken] else []) /\
    filter is_gpu_transfer (calls_of loop) = [].
Proof.
  intros K N cc cd utr mp mm sp s Hep Hgal. cbv zeta.
  rewrite (step_run K N cc cd utr mp mm sp s Hep Hgal).
  rewrite (loop_run K N cc cd utr mp mm sp (py_range N) s Hep Hgal).
  unfold calls_of. cbn [snd]. split; [|split; [|split; [|split]]].
  - rewrite !filter_app, !filter_if, loop_calls_gpu.
    cbn [filter is_gpu_transfer app]. rewrite if_same.
    destruct (Simulation.use_cuda s); reflexivity.
  - intros Hc. rewrite Hc. reflexivity.
  - intros i.
    rewrite (step_iteration_run K N i cc cd utr mp mm sp s Hep Hgal).
    cbn [snd]. apply iteration_calls_gpu.
  - reflexivity.
  - apply loop_calls_gpu.
Qed.

Lemma step_gpu_transfers_example :
  filter is_gpu_transfer
    (calls_of (step test_collaborators 3 true false false true true false
                 test_simulation_cuda))
  = [send_data_to_gpu; receive_data_from_gpu].
Proof.
  destruct (step_gpu_transfers test_collaborators 3 true false false true true false
              test_simulation_cuda) as (H & _ & _).
  - cbn. lia.
  - reflexivity.
  - rewrite H. reflexivity.
Defined.

Lemma iteration_state_diags K i s :
  Simulation.diags (iteration_state K i s) = Simulation.diags s.
Proof.
  unfold iteration_state.
  change (Simulation.diags (advanced ?x)) with (Simulation.diags x).
  apply (pre_advance_setup K i s).
Qed.

Lemma flat_map_map {A B C} (f : B -> list C) (g : A -> B) (l : list A) :
  flat_map f (map g l) = flat_map (fun a => f (g a)) l.
Proof.
  induction l as [|a t IH]; [reflexivity|]. cbn. now rewrite IH.
Qed.

Lemma loop_calls_diag K N cc cd utr mp mm sp steps s :
  filter is_diag_write (loop_calls K N cc cd utr mp mm sp steps s)
  = flat_map (fun k =>
      map (fun diag => diag_write diag (Simulation.iteration s + k)%Z)
        (Simulation.diags s))
      (map Z.of_nat (seq 0 (length steps))).
Proof.
  revert s. induction steps as [|i rest IH]; intros s; [reflexivity|].
  cbn [loop_calls length seq map flat_map].
  rewrite filter_app, iteration_calls_diag, IH.
  rewrite iteration_state_diags.
  destruct (iteration_state_frame K i s) as (_ & _ & _ & _ & _ & _ & _ & Ei & _).
  rewrite Ei, Z.add_0_r. f_equal.
  rewrite <- seq_shift, !flat_map_map.
  apply flat_map_ext. intros k.
  apply map_ext. intros d. f_equal. lia.
Qed.

(** X13. During a call [step(N)] every diagnostic is asked to write once
    per iteration, with the number of the iteration that is about to be
    computed: [iteration], [iteration + 1], ..., [iteration + N - 1], in
    this order, the diagnostics in the order of [diags]. *)
Theorem step_diagnostics :
  forall (K : Collaborators) (N : Z)
         (correct_currents correct_divE use_true_rho
          move_positions move_momenta show_progress : bool)
         (s : Simulation.t),
    Simulation.exchange_period s <> 0%Z ->
    galilean_ready s = true ->
    filter is_diag_write
      (calls_of (step K N correct_currents correct_divE use_true_rho
                   move_positions move_momenta show_progress s))
    = flat_map (fun i_step =>
        map (fun diag => diag_write diag (Simulation.iteration s + i_step)%Z)
          (Simulation.diags s))
        (py_range N).
Proof.
  intros K N cc cd utr mp mm sp s Hep Hgal.
  rewrite (step_run K N cc cd utr mp mm sp s Hep Hgal).
  unfold calls_of. cbn [snd].
  rewrite !filter_app, !filter_if, loop_calls_diag.
  cbn [filter is_diag_write]. rewrite !if_same, app_nil_r. cbn [app].
  unfold py_range. rewrite length_map, length_seq. reflexivity.
Qed.

Lemma step_diagnostics_example :
  filter is_diag_write
    (calls_of (step test_collaborators 3 true false false true true false
                 test_simulation))
  = [diag_write 1 3; diag_write 1 4; diag_write 1 5].
Proof.
  rewrite (step_diagnostics test_collaborators 3 true false false true true false
             test_simulation); [reflexivity|cbn; lia|reflexivity].
Defined.

(** X14. In every iteration the spectral solver is driven in the same
    order: the transforms of [rho_prev], [J] and [rho_next], the
    correction of the currents (if asked for), the transforms of E and
    B, the push, the correction of div E (if asked for), and the
    transforms of E and B back to the interpolation grid. *)
Theorem step_iteration_solver_order :
  forall (K : Collaborators) (N i_step : Z)
         (correct_currents correct_divE use_true_rho
          move_positions move_momenta show_progress : bool)
         (s : Simulation.t),
    Simulation.exchange_period s <> 0%Z ->
    galilean_ready s = true ->
    filter is_solver_call
      (calls_of (step_iteration K N i_step correct_currents correct_divE
                   use_true_rho move_positions move_momenta show_progress s))
    = [fld_interp2spect "rho_prev"; fld_interp2spect "J";
       fld_interp2spect "rho_next"]
      ++ (if correct_currents then [fld_correct_currents] else [])
      ++ [fld_interp2spect "E"; fld_interp2spect "B"; fld_push use_true_rho]
      ++ (if correct_divE then [fld_correct_divE] else [])
      ++ [fld_spect2interp "E"; fld_spect2interp "B"].
Proof.
  intros K N i cc cd utr mp mm sp s Hep Hgal.
  rewrite (step_iteration_run K N i cc cd utr mp mm sp s Hep Hgal).
  apply iteration_calls_solver.
Qed.

Lemma step_iteration_solver_order_example :
  filter is_solver_call
    (calls_of (step_iteration test_collaborators 1 0 false true true true true false
                 test_simulation))
  = [fld_interp2spect "rho_prev"; fld_interp2spect "J";
     fld_interp2spect "rho_next"; fld_interp2spect "E"; fld_interp2spect "B";
     fld_push true; fld_correct_divE; fld_spect2interp "E"; fld_spect2interp "B"].
Proof.
  rewrite (step_iteration_solver_order test_collaborators 1 0 false true true true
             true false test_simulation); [reflexivity|cbn; lia|reflexivity].
Defined.

(** X15. In every iteration each species gathers the fields once and has
    its ionization handled once, whatever the options are; its momenta
    are pushed, once, only with [move_momenta], and after all species
    have gathered. *)
Theorem step_iteration_momentum_calls :
  forall (K : Collaborators) (N i_step : Z)
         (correct_currents correct_divE use_true_rho
          move_positions move_momenta show_progress : bool)
         (s : Simulation.t),
    Simulation.exchange_period s <> 0%Z ->
    galilean_ready s = true ->
    filter is_momentum_call
      (calls_of (step_iteration K N i_step correct_currents correct_divE
                   use_true_rho move_positions move_momenta show_progress s))
    = map species_gather (indices (Simulation.ptcl s))
      ++ map species_handle_ionization (indices (Simulation.ptcl s))
      ++ (if move_momenta
          then map species_push_p (indices (Simulation.ptcl s)) else []).
Proof.
  intros K N i cc cd utr mp mm sp s Hep Hgal.
  rewrite (step_iteration_run K N i cc cd utr mp mm sp s Hep Hgal).
  apply iteration_calls_momentum.
Qed.

Lemma step_iteration_momentum_calls_example :
  filter is_momentum_call
    (calls_of (step_iteration test_collaborators 1 0 true false false true false false
                 test_simulation))
  = [species_gather 0; species_gather 1;
     species_handle_ionization 0; species_handle_ionization 1].
Proof.
  rewrite (step_iteration_momentum_calls test_collaborators 1 0 true false false
             true false false test_simulation); [reflexivity|cbn; lia|reflexivity].
Defined.

Lemma iteration_state_has_window K i s :
  has_window (iteration_state K i s) = has_window s.
Proof.
  unfold has_window. rewrite moving_win_after_exchange.
  unfold after_exchange, after_move_grids.
  destruct (BoundaryCommunicator.moving_win (Simulation.comm s)) as [w|] eqn:Ew.
  - match goal with |- context [exchange_due ?x i] => destruct (exchange_due x i) end;
      cbn; reflexivity.
  - destruct (exchange_due s i); rewrite ?Ew; reflexivity.
Qed.

Lemma loop_calls_move_grids K N cc cd utr mp mm sp steps s :
  length (filter is_move_grids (loop_calls K N cc cd utr mp mm sp steps s))
  = if has_window s then length steps else 0%nat.
Proof.
  revert s. induction steps as [|i rest IH]; intros s.
  - cbn. now destruct (has_window s).
  - cbn [loop_calls length].
    rewrite filter_app, length_app, iteration_calls_move_grids, IH.
    rewrite iteration_state_has_window.
    destruct (has_window s); reflexivity.
Qed.

(** X16. The grids are moved only when a moving window is attached:
    without one, [step] never calls [comm.move_grids]; once
    [set_moving_window] has attached one, [step(N)] calls it exactly
    once in each of its [N] iterations.  [set_moving_window] itself
    changes nothing but the window of the communicator. *)
Theorem moving_window_moves_grids :
  forall (K : Collaborators) (N : Z)
         (correct_currents correct_divE use_true_rho
          move_positions move_momenta show_progress : bool)
         (v ux_m uy_m uz_m ux_th uy_th uz_th : Q) (gamma_boost : option Q)
         (s : Simulation.t),
    (0 <= N)%Z ->
    Simulation.exchange_period s <> 0%Z ->
    galilean_ready s = true ->
    let attach :=
      set_moving_window K v ux_m uy_m uz_m ux_th uy_th uz_th gamma_boost s in
    (has_window s = false ->
     filter is_move_grids
       (calls_of (step K N correct_currents correct_divE use_true_rho
                    move_positions move_momenta show_progress s)) = []) /\
    outcome attach = ok tt /\
    calls_of attach = [] /\
    final_state attach
    = Simulation.set_comm
        (BoundaryCommunicator.set_moving_win
           (BoundaryCommunicator.moving_win (Simulation.comm (final_state attach)))
           (Simulation.comm s)) s /\
    Z.of_nat
      (length
         (filter is_move_grids
            (calls_of (step K N correct_currents correct_divE use_true_rho
                         move_positions move_momenta show_progress
                         (final_state attach))))) = N.
Proof.
  intros K N cc cd utr mp mm sp v ux uy uz uxt uyt uzt gb s HN Hep Hgal attach.
  split; [|split; [reflexivity|split; [reflexivity|split; [reflexivity|]]]].
  - intros Hw.
    rewrite (step_run K N cc cd utr mp mm sp s Hep Hgal).
    unfold calls_of. cbn [snd].
    rewrite !filter_app, !filter_if. cbn [filter is_move_grids].
    rewrite !if_same, app_nil_r. cbn [app].
    pose proof (loop_calls_move_grids K N cc cd utr mp mm sp (py_range N) s) as H.
    rewrite Hw in H. now apply length_zero_iff_nil.
  - set (s' := final_state attach).
    assert (Hep' : Simulation.exchange_period s' <> 0%Z) by exact Hep.
    assert (Hgal' : galilean_ready s' = true) by exact Hgal.
    rewrite (step_run K N cc cd utr mp mm sp s' Hep' Hgal').
    unfold calls_of. cbn [snd].
    rewrite !filter_app, !filter_if. cbn [filter is_move_grids].
    rewrite !if_same, app_nil_r. cbn [app].
    rewrite loop_calls_move_grids.
    change (has_window s') with true. cbv iota.
    rewrite py_range_length. lia.
Qed.

Lemma moving_window_moves_grids_example :
  (0 <= 3)%Z /\
  has_window test_simulation_fixed = false /\
  filter is_move_grids
    (calls_of (step test_collaborators 3 true false false true true false
                 test_simulation_fixed)) = [] /\
  Z.of_nat
    (length
       (filter is_move_grids
          (calls_of (step test_collaborators 3 true false false true true false
                       (final_state
                          (set_moving_window test_collaborators c 0 0 0 0 0 0 None
                             test_simulation_fixed)))))) = 3%Z.
Proof.
  split; [lia|]. split; [reflexivity|].
  destruct (moving_window_moves_grids test_collaborators 3 true false false true
              true false c 0 0 0 0 0 0 None test_simulation_fixed)
    as (H1 & _ & _ & _ & H5).
  - lia.
  - cbn. lia.
  - reflexivity.
  - split; [apply H1; reflexivity|exact H5].
Defined.

(** ** Cutting a run into several calls of [step] *)

Lemma same_setup_sym s s' : same_setup s s' -> same_setup s' s.
Proof.
  unfold same_setup. intros H.
  repeat match goal with H : _ /\ _ |- _ => destruct H end.
  repeat split; symmetry; assumption.
Qed.

Lemma cycle_iteration_calls K N N' i i' cc cd utr mp mm sp s s' :
  same_setup s s' -> has_window s' = has_window s ->
  filter is_cycle_call (iteration_calls K N i cc cd utr mp mm sp s')
  = filter is_cycle_call (iteration_calls K N' i' cc cd utr mp mm sp s).
Proof.
  intros H Hw.
  unfold iteration_calls, deposit_calls, shift_calls. filter_pieces.
  rewrite !(same_setup_indices _ _ H).
  unfold has_window in Hw. unfold same_setup in H.
  repeat match goal with H : _ /\ _ |- _ => destruct H end.
  repeat match goal with E : _ s' = _ |- _ => rewrite E; clear E end.
  destruct (BoundaryCommunicator.moving_win (Simulation.comm s')),
    (BoundaryCommunicator.moving_win (Simulation.comm s)); try discriminate;
    cbn [filter is_cycle_call app]; rewrite ?if_same; reflexivity.
Qed.

Lemma same_setup_iteration_state K i i' s s' :
  same_setup s s' ->
  same_setup (iteration_state K i s) (iteration_state K i' s').
Proof.
  intros H.
  pose proof (pre_advance_setup K i s) as H1.
  pose proof (pre_advance_setup K i' s') as H2.
  pose proof (same_setup_trans _ _ _ (same_setup_sym _ _ H1)
                (same_setup_trans _ _ _ H H2)) as H3.
  unfold iteration_state.
  set (p := galilean_shifted _) in *. set (p' := galilean_shifted _) in *.
  clearbody p p'. unfold same_setup in *. unfold advanced. cbn.
  repeat match goal with H : _ /\ _ |- _ => destruct H end.
  repeat split; congruence.
Qed.

Lemma cycle_loop_calls K N N' cc cd utr mp mm sp steps steps' s s' :
  length steps' = length steps ->
  same_setup s s' -> has_window s' = has_window s ->
  filter is_cycle_call (loop_calls K N cc cd utr mp mm sp steps' s')
  = filter is_cycle_call (loop_calls K N' cc cd utr mp mm sp steps s).
Proof.
  revert steps' s s'. induction steps as [|i rest IH]; intros steps' s s' Hlen H Hw.
  - destruct steps'; [reflexivity|discriminate].
  - destruct steps' as [|i' rest']; [discriminate|].
    cbn [loop_calls]. rewrite !filter_app.
    rewrite (cycle_iteration_calls K N N' i' i cc cd utr mp mm sp s s' H Hw).
    f_equal. apply IH.
    + cbn in Hlen. lia.
    + now apply same_setup_iteration_state.
    + now rewrite !iteration_state_has_window.
Qed.

Lemma loop_calls_app K N cc cd utr mp mm sp steps1 steps2 s :
  loop_calls K N cc cd utr mp mm sp (steps1 ++ steps2) s
  = loop_calls K N cc cd utr mp mm sp steps1 s
    ++ loop_calls K N cc cd utr mp mm sp steps2 (loop_state K steps1 s).
Proof.
  revert s. induction steps1 as [|i rest IH]; intros s; [reflexivity|].
  cbn [app loop_calls loop_state]. now rewrite IH, app_assoc.
Qed.

Lemma step_cycle_calls K N cc cd utr mp mm sp s :
  Simulation.exchange_period s <> 0%Z ->
  galilean_ready s = true ->
  filter is_cycle_call (calls_of (step K N cc cd utr mp mm sp s))
  = filter is_cycle_call (loop_calls K N cc cd utr mp mm sp (py_range N) s) /\
  final_state (step K N cc cd utr mp mm sp s) = loop_state K (py_range N) s.
Proof.
  intros Hep Hgal. rewrite (step_run K N cc cd utr mp mm sp s Hep Hgal).
  unfold calls_of, final_state. cbn [fst snd]. split; [|reflexivity].
  rewrite !filter_app, !filter_if. cbn [filter is_cycle_call].
  rewrite !if_same, app_nil_r. reflexivity.
Qed.

(** X17. Cutting a run in two does not change the PIC cycle: apart from
    the particle exchange forced at the first iteration of each call, the
    progression bar, the transfers to and from the GPU and the final
    message, [step(N1 + N2)] makes the calls of [step(N1)] followed by
    those of [step(N2)], and both ways end at the same [iteration]; the
    two values of [time] are equal as numbers. *)
Theorem step_splits :
  forall (K : Collaborators) (N1 N2 : Z)
         (correct_currents correct_divE use_true_rho
          move_positions move_momenta show_progress : bool)
         (s : Simulation.t),
    (0 <= N1)%Z -> (0 <= N2)%Z ->
    Simulation.exchange_period s <> 0%Z ->
    galilean_ready s = true ->
    let step_ N := step K N correct_currents correct_divE use_true_rho
                     move_positions move_momenta show_progress in
    let first := step_ N1 s in
    let second := step_ N2 (final_state first) in
    let whole := step_ (N1 + N2)%Z s in
    outcome second = ok tt /\
    filter is_cycle_call (calls_of whole)
      = filter is_cycle_call (calls_of first)
        ++ filter is_cycle_call (calls_of second) /\
    Simulation.iteration (final_state whole)
      = Simulation.iteration (final_state second) /\
    Simulation.time (final_state whole) == Simulation.time (final_state second).
Proof.
  intros K N1 N2 cc cd utr mp mm sp s H1 H2 Hep Hgal. cbv zeta.
  destruct (step_cycle_calls K N1 cc cd utr mp mm sp s Hep Hgal) as [C1 F1].
  destruct (step_cycle_calls K (N1 + N2) cc cd utr mp mm sp s Hep Hgal) as [C F].
  destruct (loop_state_frame K (py_range N1) s)
    as (Eep & Edt & _ & _ & _ & _ & Egal & Eit1 & Etime1).
  rewrite <- F1 in Eep, Edt, Egal, Eit1, Etime1.
  set (s1 := final_state (step K N1 cc cd utr mp mm sp s)) in *.
  assert (Hep1 : Simulation.exchange_period s1 <> 0%Z) by now rewrite Eep.
  assert (Hgal1 : galilean_ready s1 = true) by now rewrite Egal.
  destruct (step_cycle_calls K N2 cc cd utr mp mm sp s1 Hep1 Hgal1) as [C2 F2].
  split; [|split; [|split]].
  - rewrite (step_run K N2 cc cd utr mp mm sp s1 Hep1 Hgal1). reflexivity.
  - rewrite C, C1, C2.
    rewrite (cycle_loop_calls K (N1 + N2) N1 cc cd utr mp mm sp
               (py_range N1 ++ py_range N2) (py_range (N1 + N2)) s s).
    + rewrite loop_calls_app, filter_app. f_equal.
      rewrite <- F1.
      apply cycle_loop_calls; [reflexivity|apply same_setup_refl|reflexivity].
    + rewrite length_app. unfold py_range. rewrite !length_map, !length_seq. lia.
    + apply same_setup_refl.
    + reflexivity.
  - rewrite F, F2.
    destruct (loop_state_frame K (py_range (N1 + N2)) s)
      as (_ & _ & _ & _ & _ & _ & _ & Eit & _).
    destruct (loop_state_frame K (py_range N2) s1)
      as (_ & _ & _ & _ & _ & _ & _ & Eit2 & _).
    rewrite Eit, Eit2, Eit1. rewrite !py_range_length. lia.
  - rewrite F, F2.
    destruct (loop_state_frame K (py_range (N1 + N2)) s)
      as (_ & _ & _ & _ & _ & _ & _ & _ & Etime).
    destruct (loop_state_frame K (py_range N2) s1)
      as (_ & _ & _ & _ & _ & _ & _ & _ & Etime2).
    rewrite Etime, Etime2, Etime1, Edt. rewrite !py_range_length.
    rewrite !Z.max_r by lia. rewrite inject_Z_plus. ring.
Qed.

Lemma step_splits_example :
  (0 <= 1)%Z /\ (0 <= 2)%Z /\
  Simulation.exchange_period test_simulation <> 0%Z /\
  galilean_ready test_simulation = true /\
  filter is_cycle_call
    (calls_of (step test_collaborators (1 + 2) true false false true true false
                 test_simulation))
  = filter is_cycle_call
      (calls_of (step test_collaborators 1 true false false true true false
                   test_simulation))
    ++ filter is_cycle_call
         (calls_of (step test_collaborators 2 true false false true true false
                      (final_state
                         (step test_collaborators 1 true false false true true false
                            test_simulation)))).
Proof.
  split; [lia|]. split; [lia|]. split; [cbn; lia|]. split; [reflexivity|].
  destruct (step_splits test_collaborators 1 2 true false false true true false
              test_simulation) as (_ & H & _).
  - lia.
  - lia.
  - cbn. lia.
  - reflexivity.
  - exact H.
Defined.

(** * Further properties of [deposit] and [shift_galilean_boundaries] *)

(** X18. A deposition of ['rho_prev'], ['rho_next'] or ['J'] returns
    normally and leaves the attributes of the simulation as they were.
    It erases the accumulator (['rho'] for both charge densities, ['J']
    for the current) before anything is deposited, lets every species and
    then every antenna deposit once, divides by the cell volume,
    exchanges the guard cells and transforms the field named by the
    argument; the spectral filter is applied last, and only with
    [filter_currents]. *)
Theorem deposit_protocol :
  forall (s : Simulation.t) (fieldtype : string),
    In fieldtype ["rho_prev"; "rho_next"; "J"]%string ->
    let kind := if (fieldtype =? "J")%string then "J"%string else "rho"%string in
    deposit fieldtype s
    = (ok tt, s,
       [fld_erase kind]
       ++ map (fun species => species_deposit species kind)
            (indices (Simulation.ptcl s))
       ++ map (fun antenna => antenna_deposit antenna kind)
            (Simulation.laser_antennas s)
       ++ [fld_divide_by_volume kind; comm_exchange_fields kind;
           fld_interp2spect fieldtype]
       ++ (if Simulation.filter_currents s
           then [fld_filter_spect fieldtype] else [])).
Proof.
  intros s ft Hin. cbv zeta.
  destruct Hin as [<-|[<-|[<-|[]]]];
    (erewrite deposit_run by reflexivity); reflexivity.
Qed.

Lemma deposit_protocol_example :
  deposit "rho_next" test_simulation
  = (ok tt, test_simulation,
     [fld_erase "rho"; species_deposit 0 "rho"; species_deposit 1 "rho";
      antenna_deposit 7 "rho"; fld_divide_by_volume "rho";
      comm_exchange_fields "rho"; fld_interp2spect "rho_next";
      fld_filter_spect "rho_next"]).
Proof.
  rewrite (deposit_protocol test_simulation "rho_next"); [reflexivity|].
  right. left. reflexivity.
Defined.





(** * Properties of the text output *)

Lemma py_int_nonneg q : 0 <= q -> py_int q = Qfloor q.
Proof.
  destruct q as [n d]. unfold py_int, Qfloor, Qle. cbn. intros H.
  apply Z.quot_div_nonneg; lia.
Qed.

Lemma py_int_inject_Z z : py_int (inject_Z z) = z.
Proof. unfold py_int. cbn. apply Z.quot_1_r. Qed.

Lemma Qfloor_unique (q : Q) (z : Z) :
  inject_Z z <= q -> q < inject_Z (z + 1) -> Qfloor q = z.
Proof.
  intros H1 H2.
  pose proof (Qfloor_le q) as F1. pose proof (Qlt_floor q) as F2.
  assert (A : inject_Z z < inject_Z (Qfloor q + 1)) by lra.
  assert (B : inject_Z (Qfloor q) < inject_Z (z + 1)) by lra.
  rewrite <- Zlt_Qlt in A, B. lia.
Qed.

Lemma py_divmod_60 (a : Q) :
  py_divmod a 60
  = ok (inject_Z (Qfloor (a / 60)), a - inject_Z (Qfloor (a / 60)) * 60).
Proof. reflexivity. Qed.

Lemma divmod_60_remainder (a : Q) :
  0 <= a - inject_Z (Qfloor (a / 60)) * 60 /\
  a - inject_Z (Qfloor (a / 60)) * 60 < 60.
Proof.
  pose proof (Qfloor_le (a / 60)) as F1. pose proof (Qlt_floor (a / 60)) as F2.
  rewrite inject_Z_plus in F2. change (inject_Z 1) with 1 in F2.
  assert (E : a == a / 60 * 60) by (field).
  set (f := inject_Z (Qfloor (a / 60))) in *.
  assert (G1 : f * 60 <= a / 60 * 60) by (apply Qmult_le_compat_r; lra).
  assert (G2 : a / 60 * 60 < (f + 1) * 60) by (apply Qmult_lt_compat_r; lra).
  lra.
Qed.

(** X20. The conversion of a duration to hours, minutes and seconds
    (used for every time that is printed) never fails and loses nothing:
    [h*3600 + m*60 + s] is the duration, [h] and [m] are whole numbers,
    [0 <= m < 60] and [0 <= s < 60]; the three numbers printed by
    ['%d:%02d:%02d'] add up to the duration rounded down to a whole
    second, and [h] is not negative when the duration is not. *)
Theorem hms_whole_seconds :
  forall t : Q,
    exists h m s : Q,
      hms t = ok (h, m, s) /\
      h * 3600 + m * 60 + s == t /\
      h == inject_Z (py_int h) /\ m == inject_Z (py_int m) /\
      0 <= m /\ m < 60 /\ 0 <= s /\ s < 60 /\
      Qfloor t = (py_int h * 3600 + py_int m * 60 + py_int s)%Z /\
      (0 <= t -> 0 <= h).
Proof.
  intros t. unfold hms. rewrite py_divmod_60. cbn [rbind ok].
  rewrite py_divmod_60. cbn [rbind ok].
  set (m0 := Qfloor (t / 60)).
  set (s := t - inject_Z m0 * 60).
  set (h0 := Qfloor (inject_Z m0 / 60)).
  set (m := inject_Z m0 - inject_Z h0 * 60).
  destruct (divmod_60_remainder t) as [Hs1 Hs2]. fold m0 s in Hs1, Hs2.
  destruct (divmod_60_remainder (inject_Z m0)) as [Hm1 Hm2]. fold h0 m in Hm1, Hm2.
  assert (Em : m == inject_Z (m0 - h0 * 60)).
  { unfold m, Zminus. rewrite inject_Z_plus, inject_Z_opp, inject_Z_mult.
    change (inject_Z 60) with 60. ring. }
  assert (Epm : py_int m = (m0 - h0 * 60)%Z).
  { rewrite py_int_nonneg by exact Hm1. rewrite (Qfloor_comp _ _ Em).
    apply Qfloor_Z. }
  exists (inject_Z h0), m, s.
  split; [reflexivity|]. split; [unfold m, s; ring|].
  split; [now rewrite py_int_inject_Z|].
  split; [now rewrite Epm|].
  split; [exact Hm1|]. split; [exact Hm2|]. split; [exact Hs1|]. split; [exact Hs2|].
  split.
  - rewrite py_int_inject_Z, Epm, (py_int_nonneg s Hs1).
    assert (Et : t == inject_Z (m0 * 60) + s).
    { unfold s. rewrite inject_Z_mult. change (inject_Z 60) with 60. ring. }
    assert (F : Qfloor t = (m0 * 60 + Qfloor s)%Z).
    { apply Qfloor_unique.
      - rewrite Et, inject_Z_plus. pose proof (Qfloor_le s). lra.
      - rewrite Et, <- Z.add_assoc, inject_Z_plus. pose proof (Qlt_floor s). lra. }
    rewrite F. ring.
  - intros Ht.
    assert (Hm0 : (0 <= m0)%Z).
    { unfold m0. change 0%Z with (Qfloor 0). apply Qfloor_resp_le.
      apply Qle_shift_div_l; lra. }
    assert (Hh0 : (0 <= h0)%Z).
    { unfold h0. change 0%Z with (Qfloor 0). apply Qfloor_resp_le.
      apply Qle_shift_div_l; [lra|].
      rewrite Zle_Qle in Hm0. change (inject_Z 0) with 0 in Hm0. lra. }
    rewrite Zle_Qle in Hh0. exact Hh0.
Qed.

(** X22. The remaining time shown by [progression_bar] is the time
    elapsed so far times the ratio of the iterations left to the
    iterations done, [elapsed * (Ntot - (i+1)) / (i+1)]: it is not
    negative when the clock has not run backwards, and it is zero at the
    last iteration. *)
Theorem progression_eta_linear :
  forall (i Ntot : Z) (elapsed : Q),
    (0 <= i < Ntot)%Z -> 0 <= elapsed ->
    exists eta,
      progression_eta i Ntot elapsed = ok eta /\
      eta == elapsed * inject_Z (Ntot - (i + 1)) / inject_Z (i + 1) /\
      0 <= eta /\
      (i = (Ntot - 1)%Z -> eta == 0).
Proof.
  intros i Ntot elapsed Hi He.
  assert (Hiq : 0 <= inject_Z i).
  { change 0 with (inject_Z 0). rewrite <- Zle_Qle. lia. }
  assert (Hden : ~ inject_Z i + 1 == 0) by lra.
  unfold progression_eta. rewrite (py_div_ok _ _ Hden). cbn [rbind ok].
  eexists. split; [reflexivity|].
  assert (E : (inject_Z Ntot / (inject_Z i + 1) - 1) * elapsed
              == elapsed * inject_Z (Ntot - (i + 1)) / inject_Z (i + 1)).
  { unfold Zminus. rewrite !inject_Z_plus, inject_Z_opp, inject_Z_plus.
    change (inject_Z 1) with 1. field. lra. }
  split; [exact E|]. split.
  - rewrite E. apply Qle_shift_div_l.
    + rewrite inject_Z_plus. change (inject_Z 1) with 1. lra.
    + setoid_replace (0 * inject_Z (i + 1)) with 0 by ring.
      apply Qmult_le_0_compat; [exact He|].
      change 0 with (inject_Z 0). rewrite <- Zle_Qle. lia.
  - intros ->. rewrite E.
    replace (Ntot - (Ntot - 1 + 1))%Z with 0%Z by lia.
    change (inject_Z 0) with 0. field.
    replace (Ntot - 1 + 1)%Z with Ntot by lia.
    assert (0 < inject_Z Ntot).
    { change 0 with (inject_Z 0). rewrite <- Zlt_Qlt. lia. }
    lra.
Qed.

Lemma progression_eta_linear_example :
  (0 <= 4 < 10)%Z /\ 0 <= (125 # 10) /\
  exists eta,
    progression_eta 4 10 (125 # 10) = ok eta /\
    eta == (125 # 10) * inject_Z (10 - (4 + 1)) / inject_Z (4 + 1).
Proof.
  split; [lia|]. split; [discriminate|].
  destruct (progression_eta_linear 4 10 (125 # 10)) as (eta & E1 & E2 & _).
  - lia.
  - discriminate.
  - exists eta. split; assumption.
Defined.

(** * Properties of [ProgressBar] *)

Lemma quotient_between (delta n : Q) :
  1 <= n ->
  (0 <= delta -> 0 <= delta / n /\ delta / n <= delta) /\
  (delta <= 0 -> delta <= delta / n /\ delta / n <= 0).
Proof.
  intros Hn.
  assert (E : delta == delta / n * n) by (field; lra).
  assert (P : forall x, 0 <= x -> 0 <= x * (n - 1)).
  { intros x Hx. apply Qmult_le_0_compat; lra. }
  split; intros Hd.
  - assert (H0 : 0 <= delta / n) by (apply Qle_shift_div_l; lra).
    split; [exact H0|]. pose proof (P _ H0). lra.
  - assert (H0 : delta / n <= 0) by (apply Qle_shift_div_r; lra).
    split; [|exact H0].
    assert (H1 : 0 <= - (delta / n)) by lra.
    pose proof (P _ H1). lra.
Qed.

(** X23. A new timer is consistent, and a call of [time] at a clock
    reading that is not before the previous one keeps it so (the
    averaging window [n_avg] being at least 1): the call returns, the
    total duration is the time since the start and grows by the time of
    the step, the average time per step lies between its old value and the
    time of this step (and is the time of this step up to the third
    step), and the estimate of the remaining time is absent exactly for
    [i_step < n_avg] and otherwise not negative as long as
    [i_step <= N]. *)
Theorem ProgressBar_time_consistent :
  forall (pb : ProgressBar.t) (i_step : Z) (curr_time : Q),
    timer_consistent pb ->
    ProgressBar.prev_time pb <= curr_time ->
    (1 <= ProgressBar.n_avg pb)%Z ->
    let pb' := snd (ProgressBar_time i_step curr_time pb) in
    (forall N n_avg Nbars char now,
        timer_consistent (ProgressBar_init N n_avg Nbars char now)) /\
    fst (ProgressBar_time i_step curr_time pb) = ok tt /\
    timer_consistent pb' /\
    ProgressBar.prev_time pb' = curr_time /\
    ProgressBar.total_duration pb' = curr_time - ProgressBar.start_time pb /\
    ProgressBar.total_duration pb'
      == ProgressBar.total_duration pb + ProgressBar.time_per_step pb' /\
    (ProgressBar.avg_time_per_step pb <= ProgressBar.avg_time_per_step pb'
       <= ProgressBar.time_per_step pb'
     \/ ProgressBar.time_per_step pb' <= ProgressBar.avg_time_per_step pb'
          <= ProgressBar.avg_time_per_step pb) /\
    ((i_step <= 2)%Z ->
     ProgressBar.avg_time_per_step pb' = ProgressBar.time_per_step pb') /\
    (ProgressBar.eta pb' = None <-> (i_step < ProgressBar.n_avg pb)%Z) /\
    (forall eta, ProgressBar.eta pb' = Some eta ->
                 (i_step <= ProgressBar.N pb)%Z -> 0 <= eta).
Proof.
  intros pb i now (H1 & H2 & H3 & H4) Hnow Hn. cbv zeta.
  split.
  { intros N n_avg Nbars char t0. unfold timer_consistent, ProgressBar_init. cbn.
    repeat split; try apply Qle_refl. ring. }
  assert (Hnq : 1 <= inject_Z (ProgressBar.n_avg pb)).
  { change 1 with (inject_Z 1). now rewrite <- Zle_Qle. }
  unfold ProgressBar_time.
  rewrite py_div_ok by lra. cbn [fst snd].
  set (tps := now - ProgressBar.prev_time pb).
  set (avg := ProgressBar.avg_time_per_step pb) in *.
  set (inc := (tps - avg) / inject_Z (ProgressBar.n_avg pb)).
  assert (Htps : 0 <= tps) by (unfold tps; lra).
  destruct (quotient_between (tps - avg) _ Hnq) as [Qpos Qneg]. fold inc in Qpos, Qneg.
  set (avg' := if (i <=? 2)%Z then tps else avg + inc).
  assert (Hbetween : avg <= avg' <= tps \/ tps <= avg' <= avg).
  { unfold avg'. destruct (i <=? 2)%Z.
    - destruct (Qlt_le_dec tps avg); [right|left]; split; lra.
    - destruct (Qlt_le_dec tps avg) as [Hlt|Hle].
      + right. destruct Qneg as [A B]; [lra|]. split; lra.
      + left. destruct Qpos as [A B]; [lra|]. split; lra. }
  assert (Havg' : 0 <= avg') by (destruct Hbetween; lra).
  split; [reflexivity|]. cbn.
  split; [|split; [reflexivity|split; [reflexivity|split; [|split; [exact Hbetween|]]]]].
  - unfold timer_consistent. cbn. fold tps. fold avg'.
    split; [lra|]. split; [exact Htps|]. split; [exact Havg'|]. ring.
  - fold tps. rewrite H4. unfold tps. ring.
  - split; [|split].
    + intros Hi. unfold avg'. apply Z.leb_le in Hi. now rewrite Hi.
    + destruct (Z.ltb_spec i (ProgressBar.n_avg pb)); split; intros Hx;
        try reflexivity; try discriminate; try assumption; lia.
    + intros eta. destruct (i <? ProgressBar.n_avg pb)%Z; [discriminate|].
      intros E Hi. injection E as <-. fold tps. fold avg'.
      apply Qmult_le_0_compat; [exact Havg'|].
      change 0 with (inject_Z 0). rewrite <- Zle_Qle. lia.
Qed.

Lemma ProgressBar_time_consistent_example :
  timer_consistent test_timer /\
  ProgressBar.prev_time test_timer <= (6#1) /\
  fst (ProgressBar_time 4 (6#1) test_timer) = ok tt /\
  timer_consistent (snd (ProgressBar_time 4 (6#1) test_timer)).
Proof.
  assert (H : timer_consistent test_timer).
  { unfold timer_consistent, test_timer. cbn.
    repeat split; try discriminate. }
  split; [exact H|]. split; [discriminate|].
  destruct (ProgressBar_time_consistent test_timer 4 (6#1) H) as (_ & E & C & _).
  - discriminate.
  - cbn. lia.
  - split; assumption.
Defined.

(** X25. Zero sizes make the progress bar raise [ZeroDivisionError]: an
    averaging window [n_avg = 0] in [time], which then has recorded the
    step and the durations but not the clock reading, the average or the
    estimate; a number of iterations [N = 0] in [print_summary], and in
    [print_progress] after step 0, before anything is written. *)
Theorem ProgressBar_zero_division :
  forall (pb : ProgressBar.t) (i_step : Z) (curr_time : Q),
    (ProgressBar.n_avg pb = 0%Z ->
     ProgressBar_time i_step curr_time pb
     = (raise_ ZeroDivisionError,
        ProgressBar.mk (ProgressBar.N pb) 0 (ProgressBar.Nbars pb)
          (ProgressBar.bar_char pb) i_step (ProgressBar.start_time pb)
          (ProgressBar.prev_time pb) (curr_time - ProgressBar.start_time pb)
          (curr_time - ProgressBar.prev_time pb)
          (ProgressBar.avg_time_per_step pb) (ProgressBar.eta pb))) /\
    (ProgressBar.N pb = 0%Z ->
     ProgressBar_print_summary pb = (raise_ ZeroDivisionError, []) /\
     (ProgressBar.i_step pb <> 0%Z ->
      ProgressBar_print_progress pb = (raise_ ZeroDivisionError, []))).
Proof.
  intros pb i now. split; [|split].
  - intros E. unfold ProgressBar_time. rewrite E.
    rewrite py_div_zero by reflexivity. reflexivity.
  - unfold ProgressBar_print_summary. rewrite H.
    rewrite py_div_zero by reflexivity. reflexivity.
  - intros Hne. unfold ProgressBar_print_progress. rewrite H.
    apply Z.eqb_neq in Hne. rewrite Hne.
    rewrite py_div_zero by reflexivity. reflexivity.
Qed.

Lemma ProgressBar_zero_division_example :
  fst (ProgressBar_time 4 (6#1) test_timer_empty) = raise_ ZeroDivisionError /\
  ProgressBar_print_summary test_timer_empty = (raise_ ZeroDivisionError, []) /\
  ProgressBar_print_progress test_timer_empty = (raise_ ZeroDivisionError, []).
Proof.
  destruct (ProgressBar_zero_division test_timer_empty 4 (6#1)) as [H1 H2].
  destruct (H2 eq_refl) as [H3 H4].
  split; [rewrite (H1 eq_refl); reflexivity|].
  split; [exact H3|].
  apply H4. intro Hx. vm_compute in Hx. discriminate Hx.
Defined.

(** * An exchange period given by the caller *)

(** X26. An [exchange_period] given to the constructor is taken as it
    is: the quotient is not computed (so that a zero time step raises no
    [ZeroDivisionError] here) and the value is not checked (zero and
    negative values are accepted).  A simulation constructed with the
    value 0 then raises [ZeroDivisionError] in every [step(N)] with
    [N >= 1]. *)
Theorem exchange_period_override :
  forall (K : Collaborators) (a : Args.t) (s : Simulation.t) (period : Z),
    Args.exchange_period a = Some period ->
    Simulation_init K a = ok s ->
    Simulation.exchange_period s = period /\
    (forall (dt zmin zmax : Q) (Nz : Z) (comm : BoundaryCommunicator.t)
            (boundaries : string),
        init_exchange_period (Args.exchange_period a) dt zmin zmax Nz comm
          boundaries = ok period) /\
    (period = 0%Z ->
     forall (N : Z)
            (correct_currents correct_divE use_true_rho
             move_positions move_momenta show_progress : bool),
       (1 <= N)%Z ->
       outcome (step K N correct_currents correct_divE use_true_rho
                  move_positions move_momenta show_progress s)
       = inl ZeroDivisionError).
Proof.
  intros K a s period Hov Hinit.
  destruct (Simulation_init_inv K a s Hinit)
    as (comm & zmin & zmax & dt & pzmin & pzmax & ne & uzm & Nz & ep & Hd & Hep & _).
  pose proof (Simulation_init_exchange_period K a _ _ s Hd Hinit) as H.
  cbn in H. rewrite Hov in H. cbn in H. injection H as H.
  split; [now symmetry|].
  split; [intros; rewrite Hov; reflexivity|].
  intros -> N cc cd utr mp mm sp HN.
  assert (E : Simulation.exchange_period s = 0%Z) by now symmetry.
  unfold step.
  run_gets.
  erewrite bind_run by (apply when_run; reflexivity).
  assert (Er : py_range N = 0%Z :: map Z.of_nat (seq 1 (Z.to_nat N - 1))).
  { unfold py_range. destruct (Z.to_nat N) as [|n] eqn:En; [lia|].
    cbn [seq map]. rewrite Nat.sub_succ, Nat.sub_0_r. reflexivity. }
  rewrite Er. cbn [for_each].
  erewrite (bind_fail (bind _ _)); cycle 1.
  { apply bind_fail. apply step_iteration_div0. exact E. }
  rewrite prepend_triple. reflexivity.
Qed.

Lemma exchange_period_override_example :
  Args.dt test_args_override == 0 /\
  exists s0,
    Simulation_init test_collaborators test_args_override = ok s0 /\
    Simulation.exchange_period s0 = 0%Z /\
    outcome (step test_collaborators 2 true false false true true false s0)
    = inl ZeroDivisionError.
Proof.
  split; [reflexivity|].
  destruct (Simulation_init test_collaborators test_args_override) as [err|s0] eqn:E.
  - vm_compute in E. discriminate E.
  - exists s0. split; [reflexivity|].
    destruct (exchange_period_override test_collaborators test_args_override s0 0
                eq_refl E) as (H1 & _ & H2).
    split; [exact H1|]. apply H2; [reflexivity|lia].
Defined.

(** * The exchange period in binary64 *)

(** X27. In binary64 too, a single-process run with periodic boundaries
    gets the exchange period 1 whatever the value of the formula, also a
    value below 1: the guard-region [ValueError] is never raised.  The
    override does not protect from the arithmetic of lines 225-229, which
    is carried out first: where the formula is not defined, the
    construction raises [ZeroDivisionError], [OverflowError] or the
    [ValueError] of [int(nan)]. *)
Theorem exchange_period_single_periodic_binary64 :
  forall (comm : BoundaryCommunicator.t) (dt zmin zmax : spec_float) (Nz : Z),
    BoundaryCommunicator.size comm = 1%Z ->
    match Binary64.exchange_period_formula (BoundaryCommunicator.n_guard comm)
            dt zmin zmax Nz with
    | Some _ =>
        Binary64.init_exchange_period None dt zmin zmax Nz comm "periodic" = ok 1%Z
    | None =>
        exists e,
          Binary64.init_exchange_period None dt zmin zmax Nz comm "periodic"
          = raise_ e /\
          (e = ZeroDivisionError \/ e = OverflowError
           \/ e = ValueError Binary64.nan_message)
    end.
Proof.
  intros comm dt zmin zmax Nz Hsize.
  unfold Binary64.exchange_period_formula, Binary64.init_exchange_period.
  rewrite of_int_float_of_Z.
  destruct (Binary64.float_of_Z Nz) as [Nzf|]; cbn [rbind ok raise_];
    [|exists OverflowError; auto].
  rewrite div_quotient.
  destruct (Binary64.quotient _ Nzf) as [cell|]; cbn [rbind ok raise_];
    [|exists ZeroDivisionError; auto].
  rewrite div_quotient.
  destruct (Binary64.quotient _ cell) as [cps|]; cbn [rbind ok raise_];
    [|exists ZeroDivisionError; auto].
  rewrite of_int_float_of_Z.
  destruct (Binary64.float_of_Z _) as [nf|]; cbn [rbind ok raise_];
    [|exists OverflowError; auto].
  rewrite div_quotient.
  destruct (Binary64.quotient nf cps) as [quot|]; cbn [rbind ok raise_];
    [|exists ZeroDivisionError; auto].
  destruct (Binary64.floor quot) as [f|] eqn:Ef.
  - destruct (to_int_floor quot f Ef) as (t & Et & _).
    rewrite Et. cbn [rbind ok]. rewrite Hsize. reflexivity.
  - destruct (floor_none_to_int quot Ef) as [E|E]; rewrite E; cbn [rbind raise_].
    + exists OverflowError; auto.
    + exists (ValueError Binary64.nan_message); auto.
Qed.

Lemma exchange_period_single_periodic_binary64_example :
  Binary64.exchange_period_formula 2 (Binary64.of_Q (1 # 10000000000000000))
    (Binary64.of_Q 0) (Binary64.of_Q (20 # 1000000)) 64 = Some (-6)%Z /\
  Binary64.init_exchange_period None (Binary64.of_Q (1 # 10000000000000000))
    (Binary64.of_Q 0) (Binary64.of_Q (20 # 1000000)) 64
    (BoundaryCommunicator.mk 0 1 2 None) "periodic" = ok 1%Z.
Proof.
  split; [vm_compute; reflexivity|].
  pose proof (exchange_period_single_periodic_binary64
                (BoundaryCommunicator.mk 0 1 2 None)
                (Binary64.of_Q (1 # 10000000000000000)) (Binary64.of_Q 0)
                (Binary64.of_Q (20 # 1000000)) 64 eq_refl) as H.
  cbn [BoundaryCommunicator.n_guard] in H.
  replace (Binary64.exchange_period_formula 2
             (Binary64.of_Q (1 # 10000000000000000)) (Binary64.of_Q 0)
             (Binary64.of_Q (20 # 1000000)) 64)
    with (Some (-6)%Z) in H by (vm_compute; reflexivity).
  exact H.
Defined.

(** X28. A simulation constructed with a derived exchange period is the
    very simulation the constructor builds when it is given that period
    as [exchange_period]: the derivation has no other effect than the
    value it stores. *)
Theorem derived_period_as_override :
  forall (K : Collaborators) (a : Args.t) (s : Simulation.t),
    Binary64.Simulation_init K a = ok s ->
    Simulation_init K
      (with_exchange_period (Some (Simulation.exchange_period s)) a) = ok s.
Proof.
  intros K a s Hs.
  destruct (init_domain K a) as [e|[comm local]] eqn:Hd.
  { unfold Binary64.Simulation_init in Hs. cbv zeta in Hs. rewrite Hd in Hs.
    discriminate Hs. }
  pose proof (Binary64_init_exchange_period_ok K a comm local s Hd Hs) as Hp.
  destruct local as [[[[[[[zmin zmax] dt] pzmin] pzmax] ne] uzm] Nz].
  unfold Binary64.Simulation_init in Hs. cbv zeta in Hs.
  rewrite Hd in Hs. cbn [rbind ok] in Hs. rewrite Hp in Hs. cbn [rbind ok] in Hs.
  unfold Simulation_init. cbv zeta.
  change (init_domain K (with_exchange_period (Some (Simulation.exchange_period s)) a))
    with (init_domain K a).
  rewrite Hd. cbn [rbind ok init_exchange_period with_exchange_period Args.exchange_period].
  exact Hs.
Qed.

Lemma derived_period_as_override_example :
  exists s0,
    Binary64.Simulation_init test_collaborators test_args_rounding = ok s0 /\
    Simulation.exchange_period s0 = 366%Z /\
    Simulation_init test_collaborators
      (with_exchange_period (Some 366%Z) test_args_rounding) = ok s0.
Proof.
  destruct (Binary64.Simulation_init test_collaborators test_args_rounding)
    as [err|s0] eqn:E.
  - vm_compute in E. discriminate E.
  - exists s0. split; [reflexivity|].
    assert (Hp : Simulation.exchange_period s0 = 366%Z).
    { pose proof (Binary64_init_exchange_period_ok test_collaborators
                    test_args_rounding (BoundaryCommunicator.mk 0 1 64 None)
                    (0, Args.zmax test_args_rounding, Args.dt test_args_rounding,
                     0, (20 # 1000000), (1 # 1), 0, 64%Z) s0) as H.
      cbv beta iota in H.
      assert (H' := H ltac:(vm_compute; reflexivity) E).
      vm_compute in H'. injection H' as H'. symmetry. exact H'. }
    split; [exact Hp|].
    rewrite <- Hp. apply derived_period_as_override. exact E.
Defined.
